(** * TVConnection: the webOS session client of [src/tv-connection.ts]

    The class is callback driven: methods, socket callbacks and timer
    callbacks all mutate one [TVConnection] object.  The embedding keeps the
    object as a record, every callback as a function on a [World] (the object
    plus the sockets, timers, pending file writes and running [connect()]
    calls that its closures capture), and the event loop as [step].  Each
    step is one macrotask followed by the promise reactions it triggers. *)

From Stdlib Require Import ZArith QArith Qround Lia.
From stdpp Require Import gmap strings list fin_maps pretty.

Open Scope string_scope.
Set Warnings "-register-all".

(** ** JSON values, as produced by [JSON.parse] *)

(** Numbers are kept as integers: the client never inspects a number apart
    from its truthiness, and the protocol's numeric field (the volume) is
    integral. *)
Inductive json : Type :=
| JNull
| JBool (b : bool)
| JNum (n : Z)
| JStr (s : string)
| JArr (items : list json)
| JObj (fields : list (string * json)).

(** Own properties of a parsed object, first match. *)
Fixpoint assoc (k : string) (fields : list (string * json)) : option json :=
  match fields with
  | [] => None
  | (k', v) :: rest => if String.eqb k k' then Some v else assoc k rest
  end.

(** [o[k] = v] on an object literal: overwrite in place or append. *)
Fixpoint obj_set (k : string) (v : json) (fields : list (string * json))
  : list (string * json) :=
  match fields with
  | [] => [(k, v)]
  | (k', v') :: rest =>
      if String.eqb k k' then (k, v) :: rest else (k', v') :: obj_set k v rest
  end.

(** [v.k] for the property names used here ([None] is [undefined]); only
    objects carry them. *)
Definition get_field (v : json) (k : string) : option json :=
  match v with
  | JObj fields => assoc k fields
  | _ => None
  end.

(** [v?.k] where [v] itself may be [undefined] or [null]. *)
Definition opt_field (v : option json) (k : string) : option json :=
  match v with
  | Some o => get_field o k
  | None => None
  end.

(** JavaScript truthiness. *)
Definition truthy (v : option json) : bool :=
  match v with
  | None | Some JNull => false
  | Some (JBool b) => b
  | Some (JNum n) => negb (n =? 0)%Z
  | Some (JStr s) => negb (String.eqb s EmptyString)
  | Some (JArr _) | Some (JObj _) => true
  end.

(** [k in v]: [None] is the TypeError raised on a primitive operand. *)
Definition js_in (k : string) (v : json) : option bool :=
  match v with
  | JObj fields => Some (bool_decide (is_Some (assoc k fields)))
  | JArr _ => Some false
  | _ => None
  end.

(** [typeof v === "string" && v.length > 0]. *)
Definition nonempty_string (v : option json) : option string :=
  match v with
  | Some (JStr s) => if String.eqb s EmptyString then None else Some s
  | _ => None
  end.

Definition is_string (v : option json) : bool :=
  match v with Some (JStr _) => true | _ => false end.

Definition type_is (resp : json) (t : string) : bool :=
  match get_field resp "type" with
  | Some (JStr s) => String.eqb s t
  | _ => false
  end.

Fixpoint join (sep : string) (l : list string) : string :=
  match l with
  | [] => EmptyString
  | [x] => x
  | x :: rest => x ++ sep ++ join sep rest
  end.

(** The double nearest to the integer [a >= 0], ties to the even mantissa:
    the Number that [JSON.parse] makes of the literal. *)
Definition nearest_double (a : Z) : Z :=
  if (a <? 2 ^ 53)%Z then a
  else
    let e := (Z.log2 a - 52)%Z in
    let q := (a / 2 ^ e)%Z in
    let r := (a mod 2 ^ e)%Z in
    let half := (2 ^ (e - 1))%Z in
    let q' := if (half <? r)%Z || ((r =? half)%Z && Z.odd q) then (q + 1)%Z else q in
    (q' * 2 ^ e)%Z.

(** Whether the decimal [x] reads back as the double [d >= 2^53]: it lies
    within half a gap of [d], the ends included when the mantissa of [d] is
    even. *)
Definition reads_back (d x : Z) : bool :=
  let e := (Z.log2 d - 52)%Z in
  let mant := (d / 2 ^ e)%Z in
  let above := (2 ^ e)%Z in
  let below := if (mant =? 2 ^ 52)%Z then (2 ^ (e - 1))%Z else (2 ^ e)%Z in
  if Z.even mant
  then (2 * d - below <=? 2 * x)%Z && (2 * x <=? 2 * d + above)%Z
  else (2 * d - below <? 2 * x)%Z && (2 * x <? 2 * d + above)%Z.

(** The decimal with the fewest significant digits that reads back as [d],
    the closest to [d] among those (the even one on a tie): the multiples of
    the largest power of ten, [10^t] downwards, that has one. *)
Fixpoint shortest_decimal (t : nat) (d : Z) : Z * nat :=
  let u := (10 ^ Z.of_nat t)%Z in
  let lower := (d / u * u)%Z in
  let upper := (lower + u)%Z in
  let ok_lower := (0 <? lower)%Z && reads_back d lower in
  let ok_upper := reads_back d upper in
  let pick :=
    if ok_lower && ok_upper then
      if (d - lower <? upper - d)%Z then Some lower
      else if (upper - d <? d - lower)%Z then Some upper
      else if Z.even (lower / u) then Some lower else Some upper
    else if ok_lower then Some lower
    else if ok_upper then Some upper
    else None in
  match pick, t with
  | Some x, _ => (x, t)
  | None, S t' => shortest_decimal t' d
  | None, O => (d, O)
  end.

(** [Number.prototype.toString] on the double [d >= 0] of integer value:
    the digits and the zeros up to 21 places, the exponent notation from
    there on. *)
Definition double_toString (d : Z) : string :=
  if (d <? 2 ^ 53)%Z then pretty d
  else if (2 ^ 1024 <=? d)%Z then "Infinity"
  else
    let '(x, t) := shortest_decimal (Z.to_nat (Z.log2 d)) d in
    let digits := pretty (x / 10 ^ Z.of_nat t)%Z in
    let places := (String.length digits + t)%nat in
    if (places <=? 21)%nat then pretty x
    else
      match digits with
      | String first EmptyString => String first ("e+" ++ pretty (places - 1)%nat)
      | String first more => String first ("." ++ more ++ "e+" ++ pretty (places - 1)%nat)
      | EmptyString => EmptyString
      end.

(** [String(v)] for the number [v] that [JSON.parse] made of the integer
    literal [n]. *)
Definition Number_toString (n : Z) : string :=
  if (n <? 0)%Z then "-" ++ double_toString (nearest_double (- n))
  else double_toString (nearest_double n).

(** [String(v)], used when a non-string ends up as an error message. *)
Fixpoint js_toString (v : json) : string :=
  match v with
  | JNull => "null"
  | JBool true => "true"
  | JBool false => "false"
  | JNum n => Number_toString n
  | JStr s => s
  | JArr items =>
      join "," (map (fun x => match x with JNull => EmptyString | _ => js_toString x end) items)
  | JObj _ => "[object Object]"
  end.

(** ** The data of [types.ts] *)

Inductive TVConnectionStatus : Type :=
| disconnected | connecting | pairing | ready.

Module TVConfig.
Record t : Type := mk { tvIp : string; clientKey : string }.
End TVConfig.

(** The snapshot handed to the listener.  The three status fields hold
    whatever the device sent: the casts of the source are erased at run
    time, and [JNull] is [null]. *)
Module TVStatus.
Record t : Type := mk {
  status : TVConnectionStatus;
  tvIp : option string;
  currentApp : json;
  volume : json;
  muted : json }.
End TVStatus.

(** ** Closures *)

(** What awaits the promise returned by [sendMain]. *)
Inductive Awaiter : Type :=
| await_command        (* sendButton / sendInput *)
| await_pointer.       (* setupPointerSocket *)

(** The functions stored in [pendingRequests]. *)
Inductive Handler : Type :=
| H_resolve (id : string) (k : Awaiter)   (* [resolve] of the sendMain promise made for [id] *)
| H_register (id : string) (sock : nat)   (* [handler] of register(), called from the onopen of [sock] *)
| H_foreground
| H_volume.

Inductive Timer : Type :=
| T_connect (sock : nat)      (* connectWebSocket, 12 s *)
| T_register (id : string) (sock : nat)    (* register, 30 s *)
| T_request (id : string).    (* sendMain, 10 s *)

Inductive ReadyState : Type := CONNECTING | OPEN | CLOSING | CLOSED.

(** A socket of the main channel belongs to one connectWebSocket call, whose
    local [settled] and caller (an index into the running connect() calls)
    are kept with it. *)
Inductive SocketKind : Type :=
| MainSocket (caller : nat) (settled : bool)
| PointerSocket.

Record WebSocket : Type := mkWebSocket {
  url : string;
  readyState : ReadyState;
  kind : SocketKind }.

(** ** The object *)

Record TVConnection : Type := mkTVConnection {
  mainWs : option nat;
  pointerWs : option nat;
  status : TVConnectionStatus;
  tvIp : option string;
  clientKey : option string;
  msgId : nat;
  pendingRequests : gmap string Handler;
  subscriptionIds : gset string;
  registrationRequestId : option string;
  currentApp : json;
  volume : json;
  muted : json;
  onStatusChange : option nat }.

Definition new_TVConnection : TVConnection :=
  {| mainWs := None; pointerWs := None; status := disconnected; tvIp := None;
     clientKey := None; msgId := 0; pendingRequests := ∅; subscriptionIds := ∅;
     registrationRequestId := None; currentApp := JNull; volume := JNull;
     muted := JNull; onStatusChange := None |}.

(** A connect() invocation suspended at one of its awaits, or finished. *)
Inductive CallPhase : Type :=
| Loading                                         (* await this.loadConfig() *)
| Trying (wsUrl : string) (rest : list string)    (* await this.connectWebSocket(wsUrl) *)
| Returned
| Threw (message : string).

Record ConnectCall : Type := mkConnectCall {
  ip : string;
  errors : list string;
  phase : CallPhase }.

(** What leaves the object. *)
Inductive Effect : Type :=
| Notify (cb : nat) (snapshot : TVStatus.t)     (* this.onStatusChange?.(this.getStatus()) *)
| Send (sock : nat) (msg : json)                (* ws.send(JSON.stringify(msg)) *)
| SendBytes (sock : nat) (frame : list Z)       (* pointerWs.send(buf) *)
| WriteFile (cfg : TVConfig.t)                  (* writeFile(CONFIG_PATH, ...) *)
| RequestRefused (message : string)             (* sendMain rejects before an id is taken *)
| RequestResolved (id : string) (resp : json)   (* resolve(resp) of the sendMain promise for id *)
| RequestRejected (id : string) (message : string)
| RegisterResolved (id : string)                (* resolve() of the register promise for id *)
| RegisterRejected (id : string) (message : string)
| CommandThrew (message : string)               (* sendButton / sendInput / moveMouse throws *)
| ConnectReturned (call : nat)
| ConnectThrew (call : nat) (message : string).

Record World : Type := mkWorld {
  tv : TVConnection;
  sockets : list WebSocket;       (* every WebSocket constructed so far; the index is its handle *)
  calls : list ConnectCall;       (* every connect() invocation so far *)
  timers : list Timer;            (* armed setTimeout callbacks *)
  writes : list TVConfig.t;       (* writeFile operations in flight *)
  disk : option TVConfig.t;       (* what loadConfig reads from tv_config.json *)
  trace : list Effect }.

Definition new_World (disk0 : option TVConfig.t) : World :=
  {| tv := new_TVConnection; sockets := []; calls := []; timers := [];
     writes := []; disk := disk0; trace := [] |}.

(** ** Field updates *)

Definition set_mainWs (v : option nat) (c : TVConnection) : TVConnection :=
  mkTVConnection v (pointerWs c) (status c) (tvIp c) (clientKey c) (msgId c)
    (pendingRequests c) (subscriptionIds c) (registrationRequestId c)
    (currentApp c) (volume c) (muted c) (onStatusChange c).
Definition set_pointerWs (v : option nat) (c : TVConnection) : TVConnection :=
  mkTVConnection (mainWs c) v (status c) (tvIp c) (clientKey c) (msgId c)
    (pendingRequests c) (subscriptionIds c) (registrationRequestId c)
    (currentApp c) (volume c) (muted c) (onStatusChange c).
Definition set_status (v : TVConnectionStatus) (c : TVConnection) : TVConnection :=
  mkTVConnection (mainWs c) (pointerWs c) v (tvIp c) (clientKey c) (msgId c)
    (pendingRequests c) (subscriptionIds c) (registrationRequestId c)
    (currentApp c) (volume c) (muted c) (onStatusChange c).
Definition set_tvIp (v : option string) (c : TVConnection) : TVConnection :=
  mkTVConnection (mainWs c) (pointerWs c) (status c) v (clientKey c) (msgId c)
    (pendingRequests c) (subscriptionIds c) (registrationRequestId c)
    (currentApp c) (volume c) (muted c) (onStatusChange c).
Definition set_clientKey (v : option string) (c : TVConnection) : TVConnection :=
  mkTVConnection (mainWs c) (pointerWs c) (status c) (tvIp c) v (msgId c)
    (pendingRequests c) (subscriptionIds c) (registrationRequestId c)
    (currentApp c) (volume c) (muted c) (onStatusChange c).
Definition set_msgId (v : nat) (c : TVConnection) : TVConnection :=
  mkTVConnection (mainWs c) (pointerWs c) (status c) (tvIp c) (clientKey c) v
    (pendingRequests c) (subscriptionIds c) (registrationRequestId c)
    (currentApp c) (volume c) (muted c) (onStatusChange c).
Definition set_pendingRequests (v : gmap string Handler) (c : TVConnection) : TVConnection :=
  mkTVConnection (mainWs c) (pointerWs c) (status c) (tvIp c) (clientKey c) (msgId c)
    v (subscriptionIds c) (registrationRequestId c)
    (currentApp c) (volume c) (muted c) (onStatusChange c).
Definition set_subscriptionIds (v : gset string) (c : TVConnection) : TVConnection :=
  mkTVConnection (mainWs c) (pointerWs c) (status c) (tvIp c) (clientKey c) (msgId c)
    (pendingRequests c) v (registrationRequestId c)
    (currentApp c) (volume c) (muted c) (onStatusChange c).
Definition set_registrationRequestId (v : option string) (c : TVConnection) : TVConnection :=
  mkTVConnection (mainWs c) (pointerWs c) (status c) (tvIp c) (clientKey c) (msgId c)
    (pendingRequests c) (subscriptionIds c) v
    (currentApp c) (volume c) (muted c) (onStatusChange c).
Definition set_currentApp (v : json) (c : TVConnection) : TVConnection :=
  mkTVConnection (mainWs c) (pointerWs c) (status c) (tvIp c) (clientKey c) (msgId c)
    (pendingRequests c) (subscriptionIds c) (registrationRequestId c)
    v (volume c) (muted c) (onStatusChange c).
Definition set_volume (v : json) (c : TVConnection) : TVConnection :=
  mkTVConnection (mainWs c) (pointerWs c) (status c) (tvIp c) (clientKey c) (msgId c)
    (pendingRequests c) (subscriptionIds c) (registrationRequestId c)
    (currentApp c) v (muted c) (onStatusChange c).
Definition set_muted (v : json) (c : TVConnection) : TVConnection :=
  mkTVConnection (mainWs c) (pointerWs c) (status c) (tvIp c) (clientKey c) (msgId c)
    (pendingRequests c) (subscriptionIds c) (registrationRequestId c)
    (currentApp c) (volume c) v (onStatusChange c).
Definition set_onStatusChange (v : option nat) (c : TVConnection) : TVConnection :=
  mkTVConnection (mainWs c) (pointerWs c) (status c) (tvIp c) (clientKey c) (msgId c)
    (pendingRequests c) (subscriptionIds c) (registrationRequestId c)
    (currentApp c) (volume c) (muted c) v.

Definition upd_tv (f : TVConnection -> TVConnection) (w : World) : World :=
  mkWorld (f (tv w)) (sockets w) (calls w) (timers w) (writes w) (disk w) (trace w).
Definition set_sockets (v : list WebSocket) (w : World) : World :=
  mkWorld (tv w) v (calls w) (timers w) (writes w) (disk w) (trace w).
Definition set_calls (v : list ConnectCall) (w : World) : World :=
  mkWorld (tv w) (sockets w) v (timers w) (writes w) (disk w) (trace w).
Definition set_timers (v : list Timer) (w : World) : World :=
  mkWorld (tv w) (sockets w) (calls w) v (writes w) (disk w) (trace w).
Definition set_writes (v : list TVConfig.t) (w : World) : World :=
  mkWorld (tv w) (sockets w) (calls w) (timers w) v (disk w) (trace w).
Definition set_disk (v : option TVConfig.t) (w : World) : World :=
  mkWorld (tv w) (sockets w) (calls w) (timers w) (writes w) v (trace w).
Definition emit (e : Effect) (w : World) : World :=
  mkWorld (tv w) (sockets w) (calls w) (timers w) (writes w) (disk w) (trace w ++ [e]).

#[global] Instance Timer_eq_dec : EqDecision Timer.
Proof. solve_decision. Defined.

(** [setTimeout] and [clearTimeout]. *)
Definition setTimeout (t : Timer) (w : World) : World :=
  set_timers (timers w ++ [t]) w.
Definition clearTimeout (t : Timer) (w : World) : World :=
  set_timers (filter (fun t' => t' ≠ t) (timers w)) w.

(** ** The runtime's sockets *)

Definition with_readyState (r : ReadyState) (s : WebSocket) : WebSocket :=
  mkWebSocket (url s) r (kind s).
Definition with_settled (s : WebSocket) : WebSocket :=
  match kind s with
  | MainSocket c _ => mkWebSocket (url s) (readyState s) (MainSocket c true)
  | PointerSocket => s
  end.

(** [ws.close()]: starts the closing handshake of a socket that is not yet
    closing. *)
Definition close_socket (s : WebSocket) : WebSocket :=
  match readyState s with
  | CONNECTING | OPEN => with_readyState CLOSING s
  | _ => s
  end.

(** [ws?.close()] *)
Definition ws_close (h : option nat) (w : World) : World :=
  match h with
  | Some n => set_sockets (alter close_socket n (sockets w)) w
  | None => w
  end.

Definition is_open (h : option nat) (w : World) : bool :=
  match h with
  | Some n =>
      match sockets w !! n with
      | Some s => match readyState s with OPEN => true | _ => false end
      | None => false
      end
  | None => false
  end.

(** Messages of the exceptions the runtime raises; their wording is the
    engine's. *)
Definition TypeError_null : string := "null is not an object".
Definition InvalidStateError : string := "WebSocket is still in CONNECTING state".

(** [ws.send(data)] on a socket: throws while CONNECTING, transmits when
    OPEN, silently discards afterwards. *)
Definition ws_send (n : nat) (msg : json) (w : World) : World + string :=
  match sockets w !! n with
  | Some s =>
      match readyState s with
      | CONNECTING => inr InvalidStateError
      | OPEN => inl (emit (Send n msg) w)
      | _ => inl w
      end
  | None => inl w
  end.

(** [this.mainWs!.send(JSON.stringify(msg))] *)
Definition send_main (msg : json) (w : World) : World + string :=
  match mainWs (tv w) with
  | Some n => ws_send n msg w
  | None => inr TypeError_null
  end.

(** ** Methods and callbacks *)

Definition getStatus (c : TVConnection) : TVStatus.t :=
  TVStatus.mk (status c) (tvIp c) (currentApp c) (volume c) (muted c).

(** [this.onStatusChange?.(this.getStatus())] *)
Definition notify (w : World) : World :=
  match onStatusChange (tv w) with
  | Some cb => emit (Notify cb (getStatus (tv w))) w
  | None => w
  end.

Definition setStatusCallback (cb : nat) (w : World) : World :=
  upd_tv (set_onStatusChange (Some cb)) w.

Definition setStatus (s : TVConnectionStatus) (w : World) : World :=
  notify (upd_tv (set_status s) w).

Definition nonempty (s : option string) : option string :=
  match s with
  | Some x => if String.eqb x EmptyString then None else Some x
  | None => None
  end.

(** saveConfig up to its await: the write is started, its completion is the
    event [EvWriteDone]. *)
Definition saveConfig (w : World) : World :=
  match nonempty (tvIp (tv w)), nonempty (clientKey (tv w)) with
  | Some a, Some key =>
      let config := TVConfig.mk a key in
      emit (WriteFile config) (set_writes (writes w ++ [config]) w)
  | _, _ => w
  end.

Definition msg_id (n : nat) : string := "msg_" ++ pretty n.

Definition nextId (w : World) : string * World :=
  let n := S (msgId (tv w)) in
  (msg_id n, upd_tv (set_msgId n) w).

Definition pending_set (id : string) (h : Handler) (w : World) : World :=
  upd_tv (fun c => set_pendingRequests (<[id := h]> (pendingRequests c)) c) w.
Definition pending_delete (id : string) (w : World) : World :=
  upd_tv (fun c => set_pendingRequests (delete id (pendingRequests c)) c) w.
Definition subscription_add (id : string) (w : World) : World :=
  upd_tv (fun c => set_subscriptionIds ({[id]} ∪ subscriptionIds c) c) w.

Definition sendMain (msg : list (string * json)) (k : Awaiter) (w : World) : World :=
  if is_open (mainWs (tv w)) w then
    let '(id, w) :=
      match nonempty_string (assoc "id" msg) with
      | Some id => (id, w)
      | None => nextId w
      end in
    let msg := obj_set "id" (JStr id) msg in
    let w := pending_set id (H_resolve id k) w in
    let w := match send_main (JObj msg) w with inl w' => w' | inr _ => w end in
    setTimeout (T_request id) w
  else emit (RequestRefused "Main WebSocket not connected") w.

Definition wsUrls (ip : string) : list string :=
  ["wss://" ++ ip ++ ":3001"; "wss://" ++ ip ++ ":3000"; "ws://" ++ ip ++ ":3000"].

(** connectWebSocket up to the return of its promise.  The constructor's
    TLS options do not enter the state. *)
Definition connectWebSocket (c : nat) (wsUrl : string) (w : World) : World :=
  let sock := length (sockets w) in
  let w := setTimeout (T_connect sock) w in
  let w := set_sockets (sockets w ++ [mkWebSocket wsUrl CONNECTING (MainSocket c false)]) w in
  upd_tv (set_mainWs (Some sock)) w.

Definition set_call (c : nat) (call : ConnectCall) (w : World) : World :=
  set_calls (<[c := call]> (calls w)) w.

(** The [for] loop of connect, entered with the urls still to try, up to
    the next await or to the final throw. *)
Definition connect_loop (c : nat) (call : ConnectCall) (urls : list string) (w : World)
  : World :=
  match urls with
  | wsUrl :: rest =>
      let w := setStatus connecting w in
      let w := set_call c (mkConnectCall (ip call) (errors call) (Trying wsUrl rest)) w in
      connectWebSocket c wsUrl w
  | [] =>
      let w := setStatus disconnected w in
      let message := "Failed to connect to TV. Attempts: " ++ join " | " (errors call) in
      emit (ConnectThrew c message)
        (set_call c (mkConnectCall (ip call) (errors call) (Threw message)) w)
  end.

(** The [catch] block of the loop, then the loop again. *)
Definition connect_catch (c : nat) (message : string) (w : World) : World :=
  match calls w !! c with
  | Some call =>
      match phase call with
      | Trying wsUrl rest =>
          let errs := app (errors call) [wsUrl ++ " -> " ++ message] in
          let w := ws_close (mainWs (tv w)) w in
          let w := upd_tv (set_mainWs None) w in
          let w := ws_close (pointerWs (tv w)) w in
          let w := upd_tv (set_pointerWs None) w in
          connect_loop c (mkConnectCall (ip call) errs (phase call)) rest w
      | _ => w
      end
  | None => w
  end.

(** [return] inside the [try]. *)
Definition connect_return (c : nat) (w : World) : World :=
  match calls w !! c with
  | Some call =>
      emit (ConnectReturned c)
        (set_call c (mkConnectCall (ip call) (errors call) Returned) w)
  | None => w
  end.

(** [fail(message)] of the connectWebSocket call that made [sock]; the
    rejection resumes the awaiting connect(). *)
Definition fail (sock : nat) (message : string) (w : World) : World :=
  match sockets w !! sock with
  | Some s =>
      match kind s with
      | MainSocket c false =>
          let w := set_sockets (alter with_settled sock (sockets w)) w in
          let w := clearTimeout (T_connect sock) w in
          connect_catch c message w
      | _ => w
      end
  | None => w
  end.

(** The reaction [() => { settled = true; resolve(); }] to register(); a
    promise that [fail] already rejected stays rejected. *)
Definition registered_then (sock : nat) (w : World) : World :=
  match sockets w !! sock with
  | Some s =>
      match kind s with
      | MainSocket c false =>
          let w := set_sockets (alter with_settled sock (sockets w)) w in
          connect_return c w
      | _ => w
      end
  | None => w
  end.

(** The body of subscribeToStatus; a throwing [send] leaves through the
    [catch] with what was done so far. *)
Definition subscribeToStatus (w : World) : World :=
  let '(fgId, w) := nextId w in
  let w := subscription_add fgId w in
  let w := pending_set fgId H_foreground w in
  match send_main (JObj [("id", JStr fgId); ("type", JStr "subscribe");
                         ("uri", JStr "ssap://com.webos.applicationManager/getForegroundAppInfo")]) w with
  | inr _ => w
  | inl w =>
      let '(volId, w) := nextId w in
      let w := subscription_add volId w in
      let w := pending_set volId H_volume w in
      match send_main (JObj [("id", JStr volId); ("type", JStr "subscribe");
                             ("uri", JStr "ssap://audio/getVolume")]) w with
      | inr _ => w
      | inl w => w
      end
  end.

(** setupPointerSocket up to its await. *)
Definition setupPointerSocket (w : World) : World :=
  sendMain [("type", JStr "request");
            ("uri", JStr "ssap://com.webos.service.networkinput/getPointerInputSocket")]
    await_pointer w.

(** setupPointerSocket after its await resolved with [resp]. *)
Definition setupPointerSocket_resume (resp : json) (w : World) : World :=
  let socketPath := opt_field (get_field resp "payload") "socketPath" in
  if truthy socketPath then
    match socketPath with
    | Some (JStr path) =>
        let sock := length (sockets w) in
        let w := set_sockets (sockets w ++ [mkWebSocket path CONNECTING PointerSocket]) w in
        upd_tv (set_pointerWs (Some sock)) w
    | _ => w   (* socketPath.startsWith is not a function: caught *)
    end
  else w.

(** [this.volume = ...; this.muted = ... ?? this.muted; notify] *)
Definition update_volume (payload : json) (w : World) : World :=
  let w := upd_tv (set_volume (default JNull (get_field payload "volume"))) w in
  let w :=
    match get_field payload "muted" with
    | None | Some JNull => w
    | Some m => upd_tv (set_muted m) w
    end in
  notify w.

Definition update_currentApp (appId : option json) (w : World) : World :=
  notify (upd_tv (set_currentApp (default JNull appId)) w).

(** The handler of the foreground-app subscription. *)
Definition foreground_handler (resp : json) (w : World) : World :=
  let appId := opt_field (get_field resp "payload") "appId" in
  if truthy appId then update_currentApp appId w else w.

(** The handler of the volume subscription; [in] on a primitive payload
    throws into the [catch] of handleMainMessage. *)
Definition volume_handler (resp : json) (w : World) : World :=
  match get_field resp "payload" with
  | Some payload =>
      if truthy (Some payload) then
        match js_in "volume" payload with
        | Some true => update_volume payload w
        | _ => w
        end
      else w
  | None => w
  end.

(** [handler] inside register(), with the reactions of the promise. *)
Definition register_handler (id : string) (sock : nat) (resp : json) (w : World) : World :=
  let returnedClientKey := opt_field (get_field resp "payload") "client-key" in
  if type_is resp "registered"
     || (type_is resp "response" && bool_decide (is_Some (nonempty_string returnedClientKey)))
  then
    let w :=
      match nonempty_string returnedClientKey with
      | Some key => upd_tv (set_clientKey (Some key)) w
      | None => w
      end in
    let w := saveConfig w in
    let w := setStatus ready w in
    let w := setupPointerSocket w in
    let w := subscribeToStatus w in
    let w := emit (RegisterResolved id) w in
    registered_then sock w
  else if type_is resp "error" then
    let w := setStatus disconnected w in
    let message :=
      match get_field resp "error" with
      | Some e => if truthy (Some e) then js_toString e else "Registration failed"
      | None => "Registration failed"
      end in
    let w := emit (RegisterRejected id message) w in
    fail sock message w
  else w.

Definition invoke (h : Handler) (resp : json) (w : World) : World :=
  match h with
  | H_resolve id k =>
      let w := emit (RequestResolved id resp) w in
      match k with
      | await_command => w
      | await_pointer => setupPointerSocket_resume resp w
      end
  | H_register id sock => register_handler id sock resp w
  | H_foreground => foreground_handler resp w
  | H_volume => volume_handler resp w
  end.

(** handleMainMessage on the result of [JSON.parse(data)] ([None] when it
    throws).  Everything thrown inside is caught and logged. *)
Definition handleMainMessage (parsed : option json) (w : World) : World :=
  match parsed with
  | None | Some JNull => w
  | Some resp =>
      let found :=
        match get_field resp "id" with
        | Some (JStr id) => pair id <$> pendingRequests (tv w) !! id
        | _ => None
        end in
      match found with
      | Some (id, handler) =>
          let isSubscription := bool_decide (id ∈ subscriptionIds (tv w)) in
          let isRegistration := bool_decide (registrationRequestId (tv w) = Some id) in
          let registrationDone :=
            type_is resp "registered" || type_is resp "error"
            || is_string (opt_field (get_field resp "payload") "client-key") in
          let w :=
            if negb isSubscription && negb isRegistration then pending_delete id w
            else if isRegistration && registrationDone then
              upd_tv (set_registrationRequestId None) (pending_delete id w)
            else w in
          invoke handler resp w
      | None =>
          match get_field resp "payload" with
          | Some payload =>
              if truthy (Some payload) then
                match js_in "appId" payload with
                | Some hasApp =>
                    let w := if hasApp then update_currentApp (get_field payload "appId") w
                             else w in
                    match js_in "volume" payload with
                    | Some true => update_volume payload w
                    | _ => w
                    end
                | None => w
                end
              else w
          | None => w
          end
      end
  end.

Definition Math_round (x : Q) : Z := Qfloor (x + (1 # 2)).

Definition int16_range (v : Z) : bool := ((-32768 <=? v) && (v <=? 32767))%Z.

(** The two bytes a little-endian 16-bit write stores, low byte first. *)
Definition int16_bytes (v : Z) : list Z := [v mod 256; (v / 256) mod 256]%Z.

(** Reading them back as a signed 16-bit integer. *)
Definition int16_value (lo hi : Z) : Z :=
  let u := (lo + 256 * hi)%Z in
  if (u <? 32768)%Z then u else (u - 65536)%Z.

Section Runtime.

(** The handshake manifest of [types.ts], an object literal. *)
Variable LG_HANDSHAKE_PAYLOAD : list (string * json).

(** Whether [Buffer.writeInt16LE] validates its argument (it then throws
    ERR_OUT_OF_RANGE) or stores the low 16 bits of whatever it is given. *)
Variable buffer_range_check : bool.

Definition writeInt16LE (value : Z) : option (list Z) :=
  if int16_range value || negb buffer_range_check
  then Some (int16_bytes value) else None.

Definition moveMouse (dx dy : Q) (w : World) : World :=
  match pointerWs (tv w) with
  | Some sock =>
      if is_open (Some sock) w then
        match writeInt16LE (Math_round dx), writeInt16LE (Math_round dy) with
        | Some bx, Some by_ => emit (SendBytes sock (1 :: 0 :: bx ++ by_)%Z) w
        | _, _ => emit (CommandThrew "ERR_OUT_OF_RANGE") w
        end
      else w
  | None => w
  end.

Definition sendButton (key : string) (w : World) : World :=
  match status (tv w) with
  | ready =>
      sendMain [("type", JStr "request");
                ("uri", JStr "ssap://com.webos.service.networkinput/sendButton");
                ("payload", JObj [("name", JStr key)])] await_command w
  | _ => emit (CommandThrew "Not connected") w
  end.

Definition sendInput (text : string) (w : World) : World :=
  match status (tv w) with
  | ready =>
      sendMain [("type", JStr "request");
                ("uri", JStr "ssap://com.webos.service.ime/sendText");
                ("payload", JObj [("text", JStr text); ("replace", JNum 0)])]
        await_command w
  | _ => emit (CommandThrew "Not connected") w
  end.

(** The payload register() sends. *)
Definition handshake_payload (c : TVConnection) : list (string * json) :=
  match nonempty (clientKey c) with
  | Some key => obj_set "client-key" (JStr key) LG_HANDSHAKE_PAYLOAD
  | None => LG_HANDSHAKE_PAYLOAD
  end.

(** register(), called from the onopen of [sock], up to the return of its
    promise; a [send] that throws inside the executor rejects it. *)
Definition register (sock : nat) (w : World) : World :=
  let payload := handshake_payload (tv w) in
  let '(id, w) := nextId w in
  let w := upd_tv (set_registrationRequestId (Some id)) w in
  let w := pending_set id (H_register id sock) w in
  match send_main (JObj [("id", JStr id); ("type", JStr "register");
                         ("payload", JObj payload)]) w with
  | inl w => setTimeout (T_register id sock) w
  | inr message => fail sock message (emit (RegisterRejected id message) w)
  end.

Definition disconnect (w : World) : World :=
  let w := ws_close (mainWs (tv w)) w in
  let w := ws_close (pointerWs (tv w)) w in
  let w := upd_tv (set_mainWs None) w in
  let w := upd_tv (set_pointerWs None) w in
  let w := setStatus disconnected w in
  let w := upd_tv (set_currentApp JNull) w in
  let w := upd_tv (set_volume JNull) w in
  let w := upd_tv (set_muted JNull) w in
  let w := upd_tv (set_pendingRequests ∅) w in
  let w := upd_tv (set_subscriptionIds ∅) w in
  upd_tv (set_registrationRequestId None) w.

(** connect(ip) up to [await this.loadConfig()]. *)
Definition connect (addr : string) (w : World) : World :=
  let w := match mainWs (tv w) with Some _ => disconnect w | None => w end in
  let w := upd_tv (set_tvIp (Some addr)) w in
  let w := setStatus connecting w in
  set_calls (calls w ++ [mkConnectCall addr [] Loading]) w.

(** connect() call [c] after loadConfig returned what is on disk. *)
Definition connect_loaded (c : nat) (w : World) : World :=
  match calls w !! c with
  | Some call =>
      match phase call with
      | Loading =>
          let w :=
            match disk w with
            | Some config =>
                if String.eqb (TVConfig.tvIp config) (ip call)
                then upd_tv (set_clientKey (Some (TVConfig.clientKey config))) w
                else w
            | None => w
            end in
          connect_loop c call (wsUrls (ip call)) w
      | _ => w
      end
  | None => w
  end.

(** The four callbacks connectWebSocket installs on the main socket. *)
Definition main_onopen (sock : nat) (w : World) : World :=
  let w := clearTimeout (T_connect sock) w in
  let w := setStatus pairing w in
  register sock w.

Definition main_onerror (sock : nat) (s : WebSocket) (details : string) (w : World)
  : World :=
  fail sock ("WebSocket connection failed at " ++ url s ++ ": " ++ details) w.

Definition main_onclose (sock : nat) (s : WebSocket) (w : World) : World :=
  let w := ws_close (pointerWs (tv w)) w in
  let w := upd_tv (set_pointerWs None) w in
  match kind s with
  | MainSocket _ false => fail sock ("Socket closed at " ++ url s) w
  | _ => setStatus disconnected w
  end.

(** The callbacks of [setTimeout]. *)
Definition run_timer (t : Timer) (w : World) : World :=
  match t with
  | T_connect sock =>
      match sockets w !! sock with
      | Some s => fail sock ("Connection timed out at " ++ url s) w
      | None => w
      end
  | T_register id sock =>
      match pendingRequests (tv w) !! id with
      | Some _ =>
          let w := pending_delete id w in
          let w := upd_tv (set_registrationRequestId None) w in
          let message := "Registration timed out - check TV for pairing prompt" in
          fail sock message (emit (RegisterRejected id message) w)
      | None => w
      end
  | T_request id =>
      match pendingRequests (tv w) !! id with
      | Some _ =>
          let w := pending_delete id w in
          emit (RequestRejected id ("Request " ++ id ++ " timed out")) w
      | None => w
      end
  end.

(** ** The event loop *)

Inductive Event : Type :=
| EvSetStatusCallback (cb : nat)
| EvConnect (addr : string)
| EvConfigLoaded (call : nat)
| EvDisconnect
| EvSendButton (key : string)
| EvSendInput (text : string)
| EvMoveMouse (dx dy : Q)
| EvOpen (sock : nat)
| EvMessage (sock : nat) (parsed : option json)
| EvError (sock : nat) (details : string)
| EvClose (sock : nat)
| EvTimer (n : nat)
| EvWriteDone (n : nat) (ok : bool).

Definition set_socket (n : nat) (s : WebSocket) (w : World) : World :=
  set_sockets (<[n := s]> (sockets w)) w.

Definition step (ev : Event) (w : World) : World :=
  match ev with
  | EvSetStatusCallback cb => setStatusCallback cb w
  | EvConnect addr => connect addr w
  | EvConfigLoaded c => connect_loaded c w
  | EvDisconnect => disconnect w
  | EvSendButton key => sendButton key w
  | EvSendInput text => sendInput text w
  | EvMoveMouse dx dy => moveMouse dx dy w
  | EvOpen sock =>
      match sockets w !! sock with
      | Some s =>
          match readyState s with
          | CONNECTING =>
              let w := set_socket sock (with_readyState OPEN s) w in
              match kind s with
              | MainSocket _ _ => main_onopen sock w
              | PointerSocket => w
              end
          | _ => w
          end
      | None => w
      end
  | EvMessage sock parsed =>
      match sockets w !! sock with
      | Some s =>
          match readyState s, kind s with
          | OPEN, MainSocket _ _ => handleMainMessage parsed w
          | _, _ => w
          end
      | None => w
      end
  | EvError sock details =>
      match sockets w !! sock with
      | Some s =>
          match kind s with
          | MainSocket _ _ => main_onerror sock s details w
          | PointerSocket => w
          end
      | None => w
      end
  | EvClose sock =>
      match sockets w !! sock with
      | Some s =>
          match readyState s with
          | CLOSED => w
          | _ =>
              let w := set_socket sock (with_readyState CLOSED s) w in
              match kind s with
              | MainSocket _ _ => main_onclose sock s w
              | PointerSocket => upd_tv (set_pointerWs None) w
              end
          end
      | None => w
      end
  | EvTimer n =>
      match timers w !! n with
      | Some t => run_timer t (set_timers (delete n (timers w)) w)
      | None => w
      end
  | EvWriteDone n ok =>
      match writes w !! n with
      | Some config =>
          let w := set_writes (delete n (writes w)) w in
          if ok then set_disk (Some config) w else w
      | None => w
      end
  end.

Definition run (evs : list Event) (w : World) : World :=
  foldl (fun w ev => step ev w) w evs.

Inductive reachable : World -> Prop :=
| reachable_new disk0 : reachable (new_World disk0)
| reachable_step w ev : reachable w -> reachable (step ev w).

End Runtime.

(** * Specification vocabulary *)

Inductive EffectKind : Type :=
| KNotify | KSend | KSendBytes | KWriteFile | KRequestRefused | KRequestResolved
| KRequestRejected | KRegisterResolved | KRegisterRejected | KCommandThrew
| KConnectReturned | KConnectThrew.

Definition kind_of (e : Effect) : EffectKind :=
  match e with
  | Notify _ _ => KNotify | Send _ _ => KSend | SendBytes _ _ => KSendBytes
  | WriteFile _ => KWriteFile | RequestRefused _ => KRequestRefused
  | RequestResolved _ _ => KRequestResolved | RequestRejected _ _ => KRequestRejected
  | RegisterResolved _ => KRegisterResolved | RegisterRejected _ _ => KRegisterRejected
  | CommandThrew _ => KCommandThrew | ConnectReturned _ => KConnectReturned
  | ConnectThrew _ _ => KConnectThrew
  end.

(** [emits ks w0 w]: [w] continues the trace of [w0] with effects of the
    kinds [ks] only. *)
Definition emits (ks : list EffectKind) (w0 w : World) : Prop :=
  ∃ l, trace w = (trace w0 ++ l)%list ∧ Forall (fun e => kind_of e ∈ ks) l.

(** The parts of the state a callback may write. *)
Inductive Comp : Type :=
| CmainWs | CpointerWs | Cstatus | CtvIp | CclientKey | CmsgId | Cpending | Csubs
| Creg | CcurrentApp | Cvolume | Cmuted | Clistener
| Csockets | Ccalls | Ctimers | Cwrites | Cdisk.

(** [frame F w0 w]: outside the footprint [F], [w] is [w0] (the trace
    apart, which [emits] describes). *)
Definition frame (F : list Comp) (w0 w : World) : Prop :=
  (CmainWs ∈ F ∨ mainWs (tv w0) = mainWs (tv w))
  ∧ (CpointerWs ∈ F ∨ pointerWs (tv w0) = pointerWs (tv w))
  ∧ (Cstatus ∈ F ∨ status (tv w0) = status (tv w))
  ∧ (CtvIp ∈ F ∨ tvIp (tv w0) = tvIp (tv w))
  ∧ (CclientKey ∈ F ∨ clientKey (tv w0) = clientKey (tv w))
  ∧ (CmsgId ∈ F ∨ msgId (tv w0) = msgId (tv w))
  ∧ (Cpending ∈ F ∨ pendingRequests (tv w0) = pendingRequests (tv w))
  ∧ (Csubs ∈ F ∨ subscriptionIds (tv w0) = subscriptionIds (tv w))
  ∧ (Creg ∈ F ∨ registrationRequestId (tv w0) = registrationRequestId (tv w))
  ∧ (CcurrentApp ∈ F ∨ currentApp (tv w0) = currentApp (tv w))
  ∧ (Cvolume ∈ F ∨ volume (tv w0) = volume (tv w))
  ∧ (Cmuted ∈ F ∨ muted (tv w0) = muted (tv w))
  ∧ (Clistener ∈ F ∨ onStatusChange (tv w0) = onStatusChange (tv w))
  ∧ (Csockets ∈ F ∨ sockets w0 = sockets w)
  ∧ (Ccalls ∈ F ∨ calls w0 = calls w)
  ∧ (Ctimers ∈ F ∨ timers w0 = timers w)
  ∧ (Cwrites ∈ F ∨ writes w0 = writes w)
  ∧ (Cdisk ∈ F ∨ disk w0 = disk w).

#[global] Instance Comp_eq_dec : EqDecision Comp.
Proof. solve_decision. Defined.

#[global] Instance EffectKind_eq_dec : EqDecision EffectKind.
Proof. solve_decision. Defined.

Definition fp_connect_loop : list Comp :=
  [CmainWs; Cstatus; Csockets; Ccalls; Ctimers].

Definition fp_fail : list Comp :=
  [CmainWs; CpointerWs; Cstatus; Csockets; Ccalls; Ctimers].

Definition ks_register_handler : list EffectKind :=
  [KNotify; KSend; KWriteFile; KRequestRefused; KRegisterResolved; KRegisterRejected;
   KConnectReturned; KConnectThrew].

Definition fp_register_handler : list Comp :=
  [CmainWs; CpointerWs; Cstatus; CclientKey; CmsgId; Cpending; Csubs;
   Csockets; Ccalls; Ctimers; Cwrites].

Definition ks_invoke : list EffectKind := KRequestResolved :: ks_register_handler.

Definition fp_invoke : list Comp :=
  [CcurrentApp; Cvolume; Cmuted] ++ fp_register_handler.

Definition fp_handleMainMessage : list Comp := Creg :: fp_invoke.

Definition ks_register : list EffectKind :=
  [KNotify; KSend; KRegisterRejected; KConnectThrew].

Definition fp_register : list Comp := [CmsgId; Cpending; Creg] ++ fp_fail.

Definition fp_disconnect : list Comp :=
  [CmainWs; CpointerWs; Cstatus; Cpending; Csubs; Creg; CcurrentApp; Cvolume; Cmuted;
   Csockets].

Definition ks_run_timer : list EffectKind :=
  [KNotify; KConnectThrew; KRegisterRejected; KRequestRejected].

Definition fp_run_timer : list Comp := [Cpending; Creg] ++ fp_fail.

Definition settles (id : string) (e : Effect) : bool :=
  match e with
  | RequestResolved i _ | RequestRejected i _ => String.eqb i id
  | _ => false
  end.

Fixpoint settle_count (id : string) (l : list Effect) : nat :=
  match l with
  | [] => 0
  | e :: rest => (if settles id e then 1 else 0) + settle_count id rest
  end.

Definition known (w : World) (id : string) : Prop :=
  ∃ k, (k ≤ msgId (tv w))%nat ∧ id = msg_id k.

Record CoreInv (gone : gset string) (w : World) : Prop := mkCoreInv {
  ci_pending : ∀ key h, pendingRequests (tv w) !! key = Some h →
    known w key ∧ (settle_count key (trace w) = 0)%nat ∧ (key ∉ gone)
    ∧ (∀ id a, h = H_resolve id a →
        id = key ∧ (key ∉ subscriptionIds (tv w)) ∧ registrationRequestId (tv w) ≠ Some key)
    ∧ (key ∈ subscriptionIds (tv w) → h = H_foreground ∨ h = H_volume);
  ci_subs : ∀ id, id ∈ subscriptionIds (tv w) → known w id;
  ci_reg : ∀ id, registrationRequestId (tv w) = Some id →
    known w id ∧ (id ∉ subscriptionIds (tv w));
  ci_settled : ∀ id, settle_count id (trace w) ≠ 0 → known w id;
  ci_once : ∀ id, (settle_count id (trace w) ≤ 1)%nat;
  ci_gone : ∀ id, id ∈ gone → known w id }.

Definition quiet : list EffectKind :=
  [KNotify; KSend; KSendBytes; KWriteFile; KRequestRefused; KRegisterResolved;
   KRegisterRejected; KCommandThrew; KConnectReturned; KConnectThrew].

Definition outside_core : list Comp :=
  [CmainWs; CpointerWs; Cstatus; CtvIp; CclientKey; CcurrentApp; Cvolume; Cmuted;
   Clistener; Csockets; Ccalls; Ctimers; Cwrites; Cdisk].

Definition settles_id (id : string) (e : Effect) : Prop :=
  (∃ resp, e = RequestResolved id resp) ∨ (∃ m, e = RequestRejected id m).

(** Whether handleMainMessage removes the entry it dispatches to. *)
Definition removes (resp : json) (id : string) (w : World) : bool :=
  let isSubscription := bool_decide (id ∈ subscriptionIds (tv w)) in
  let isRegistration := bool_decide (registrationRequestId (tv w) = Some id) in
  let registrationDone :=
    type_is resp "registered" || type_is resp "error"
    || is_string (opt_field (get_field resp "payload") "client-key") in
  negb isSubscription && negb isRegistration || isRegistration && registrationDone.

(** A message that matches no pending entry only feeds the status. *)
Definition unsolicited (resp : json) (w : World) : World :=
  match get_field resp "payload" with
  | Some payload =>
      if truthy (Some payload) then
        match js_in "appId" payload with
        | Some hasApp =>
            let w := if hasApp then update_currentApp (get_field payload "appId") w
                     else w in
            match js_in "volume" payload with
            | Some true => update_volume payload w
            | _ => w
            end
        | None => w
        end
      else w
  | None => w
  end.

Definition handler_for (resp : json) (w : World) : option (string * Handler) :=
  match get_field resp "id" with
  | Some (JStr id) => pair id <$> pendingRequests (tv w) !! id
  | _ => None
  end.

(** One entry of the aggregated error of connect(). *)
Definition attempt_entry (a : string * string) : string := a.1 ++ " -> " ++ a.2.

Definition aggregated (errs : list string) : string :=
  "Failed to connect to TV. Attempts: " ++ join " | " errs.

(** What a connect() call has recorded, by the await it is suspended at:
    [tried] pairs each endpoint already given up with its failure. *)
Definition call_ok (call : ConnectCall) : Prop :=
  match phase call with
  | Loading => errors call = []
  | Trying wsUrl rest =>
      ∃ tried, wsUrls (ip call) = (tried.*1 ++ wsUrl :: rest)%list
               ∧ errors call = attempt_entry <$> tried
  | Returned => True
  | Threw message =>
      ∃ tried, wsUrls (ip call) = tried.*1
               ∧ errors call = attempt_entry <$> tried
               ∧ message = aggregated (errors call)
  end.

Definition CallInv (w : World) : Prop :=
  ∀ c call, calls w !! c = Some call → call_ok call.

Definition nothrow : list EffectKind :=
  [KNotify; KSend; KSendBytes; KWriteFile; KRequestRefused; KRequestResolved;
   KRequestRejected; KRegisterResolved; KRegisterRejected; KCommandThrew;
   KConnectReturned].

(** [rejects w0 w]: a connect() promise rejected between [w0] and [w] leaves
    the session disconnected and its call finished with that error. *)
Definition rejects (w0 w : World) : Prop :=
  ∃ l, trace w = (trace w0 ++ l)%list
       ∧ ∀ c m, ConnectThrew c m ∈ l →
           status (tv w) = disconnected
           ∧ ∃ call, calls w !! c = Some call ∧ phase call = Threw m.

Definition outside_calls : list Comp :=
  [CmainWs; CpointerWs; Cstatus; CtvIp; CclientKey; CmsgId; Cpending; Csubs; Creg;
   CcurrentApp; Cvolume; Cmuted; Clistener; Csockets; Ctimers; Cwrites; Cdisk].

(** The effects of one callback: what [w] added to the trace of [w0]. *)
Definition emitted (w0 w : World) : list Effect := drop (length (trace w0)) (trace w).

Definition sample_manifest : list (string * json) :=
  [("forcePairing", JBool false); ("pairingType", JStr "PROMPT")].

Definition response_to (id type : string) (payload : list (string * json)) : json :=
  JObj [("id", JStr id); ("type", JStr type); ("payload", JObj payload)].

(** A listener is registered, the stored credential for 10.0.0.5 is used and
    accepted, the device answers the pointer-socket request and both
    subscriptions, and the pointer socket opens. *)
Definition ready_session : World :=
  run sample_manifest true
    [EvSetStatusCallback 0; EvConnect "10.0.0.5"; EvConfigLoaded 0; EvOpen 0;
     EvMessage 0 (Some (response_to "msg_1" "registered" [("client-key", JStr "abc123")]));
     EvMessage 0 (Some (response_to "msg_2" "response"
                          [("socketPath", JStr "wss://10.0.0.5:3001/pointer")]));
     EvOpen 1;
     EvMessage 0 (Some (response_to "msg_3" "response" [("appId", JStr "netflix")]));
     EvMessage 0 (Some (response_to "msg_4" "response"
                          [("volume", JNum 10); ("muted", JBool false)]))]
    (new_World (Some (TVConfig.mk "10.0.0.5" "abc123"))).

Definition is_byte (b : Z) : Prop := (0 <= b < 256)%Z.

(** What the spec promises of an open channel: exactly one frame goes out,
    six bytes long, carrying round(dx) and round(dy) as little-endian signed
    16-bit integers at offsets 2 and 4. *)
Definition sends_int16_frame (chk : bool) (dx dy : Q) (w : World) : Prop :=
  ∃ sock xlo xhi ylo yhi,
    emitted w (moveMouse chk dx dy w) = [SendBytes sock [1; 0; xlo; xhi; ylo; yhi]%Z]
    ∧ is_byte xlo ∧ is_byte xhi ∧ is_byte ylo ∧ is_byte yhi
    ∧ int16_value xlo xhi = Math_round dx
    ∧ int16_value ylo yhi = Math_round dy.

(** [payload.muted ?? this.muted] *)
Definition muted_after (p : list (string * json)) (prior : json) : json :=
  match assoc "muted" p with
  | None | Some JNull => prior
  | Some m => m
  end.

Definition present (k : string) (p : list (string * json)) : bool :=
  bool_decide (is_Some (assoc k p)).

(** What the spec promises: a notification tells the listener of a status
    that differs from the one held before the message. *)
Definition notifies_only_on_change (w w' : World) : Prop :=
  ∀ cb snapshot, Notify cb snapshot ∈ emitted w w' → snapshot ≠ getStatus (tv w).

Definition volume_again : json :=
  response_to "msg_4" "response" [("volume", JNum 10); ("muted", JBool false)].

(** The success test of the handler in register(). *)
Definition accepted (resp : json) : bool :=
  type_is resp "registered"
  || (type_is resp "response"
      && bool_decide (is_Some (nonempty_string
                                 (opt_field (get_field resp "payload") "client-key")))).

(** [resp.error || "Registration failed"], as the message of the Error. *)
Definition rejection_message (resp : json) : string :=
  match get_field resp "error" with
  | Some e => if truthy (Some e) then js_toString e else "Registration failed"
  | None => "Registration failed"
  end.

(** The state the handler leaves before it calls [resolve]. *)
Definition with_returned_key (resp : json) (w : World) : World :=
  match nonempty_string (opt_field (get_field resp "payload") "client-key") with
  | Some key => upd_tv (set_clientKey (Some key)) w
  | None => w
  end.

Definition after_handshake : list Comp :=
  [CmsgId; Cpending; Csubs; Ctimers; Csockets; Ccalls].

(** The world in which handleMainMessage calls the registration handler. *)
Definition registration_dispatch (resp : json) (id : string) (w : World) : World :=
  if type_is resp "registered" || type_is resp "error"
     || is_string (opt_field (get_field resp "payload") "client-key")
  then upd_tv (set_registrationRequestId None) (pending_delete id w)
  else w.

Definition pairing_session : World :=
  run sample_manifest true
    [EvSetStatusCallback 0; EvConnect "10.0.0.5"; EvConfigLoaded 0; EvOpen 0]
    (new_World None).

Definition all_but_disk : list Comp :=
  [CmainWs; CpointerWs; Cstatus; CtvIp; CclientKey; CmsgId; Cpending; Csubs; Creg;
   CcurrentApp; Cvolume; Cmuted; Clistener; Csockets; Ccalls; Ctimers; Cwrites].

Definition nowrite : list EffectKind :=
  [KNotify; KSend; KSendBytes; KRequestRefused; KRequestResolved; KRequestRejected;
   KRegisterResolved; KRegisterRejected; KCommandThrew; KConnectReturned; KConnectThrew].

Definition registered_without_key : json :=
  JObj [("id", JStr "msg_1"); ("type", JStr "registered")].

(** The events of the failing run: the credential stored for 10.0.0.5 is
    used there, then the same process connects to 10.0.0.9. *)
Definition two_addresses : list Event :=
  [EvConnect "10.0.0.5"; EvConfigLoaded 0; EvOpen 0;
   EvMessage 0 (Some (response_to "msg_1" "registered" [("client-key", JStr "abc123")]));
   EvConnect "10.0.0.9"; EvConfigLoaded 1; EvOpen 1].

(** A request sent from a ready session, whose timer is the third one armed. *)
Definition request_sent : World :=
  run sample_manifest true [EvSendButton "HOME"] ready_session.

(** What the spec promises of a dispatched response: unless its identifier
    is a subscription, the entry is gone afterwards. *)
Definition removed_unless_subscription (resp : json) (id : string) (w : World) : Prop :=
  get_field resp "id" = Some (JStr id) →
  is_Some (pendingRequests (tv w) !! id) →
  id ∉ subscriptionIds (tv w) →
  pendingRequests (tv (handleMainMessage (Some resp) w)) !! id = None.

(** The device's first answer to a registration that needs approval on
    screen. *)
Definition pairing_prompt : json :=
  response_to "msg_1" "response" [("pairingType", JStr "PROMPT"); ("returnValue", JBool true)].

(** A run in which no endpoint of 10.0.0.5 can be reached: the first two
    sockets report an error, the third runs into the connection timeout. *)
Definition unreachable_session : World :=
  run sample_manifest true
    [EvConnect "10.0.0.5"; EvConfigLoaded 0; EvError 0 "ECONNREFUSED"; EvError 1 "ECONNREFUSED"]
    (new_World None).

(** ** Further vocabulary and methods of the session client *)

(** [id] is held by the correlator or was settled before. *)
Definition in_use (w : World) (id : string) : Prop :=
  is_Some (pendingRequests (tv w) !! id)
  ∨ id ∈ subscriptionIds (tv w)
  ∨ registrationRequestId (tv w) = Some id
  ∨ settle_count id (trace w) ≠ 0%nat.

Definition button_request (key : string) : list (string * json) :=
  [("type", JStr "request");
   ("uri", JStr "ssap://com.webos.service.networkinput/sendButton");
   ("payload", JObj [("name", JStr key)])].

Definition text_request (text : string) : list (string * json) :=
  [("type", JStr "request");
   ("uri", JStr "ssap://com.webos.service.ime/sendText");
   ("payload", JObj [("text", JStr text); ("replace", JNum 0)])].

(** What a command that awaits sendMain(msg) does, by the state it is
    called in. *)
Definition command_outcome (msg : list (string * json)) (w w' : World) : Prop :=
  let id := msg_id (S (msgId (tv w))) in
  match status (tv w) with
  | ready =>
      match mainWs (tv w) with
      | Some sock =>
          if is_open (Some sock) w then
            emitted w w' = [Send sock (JObj (msg ++ [("id", JStr id)])%list)]
            ∧ msgId (tv w') = S (msgId (tv w))
            ∧ pendingRequests (tv w') = <[id := H_resolve id await_command]> (pendingRequests (tv w))
            ∧ timers w' = (timers w ++ [T_request id])%list
          else
            w' = emit (RequestRefused "Main WebSocket not connected") w
      | None => w' = emit (RequestRefused "Main WebSocket not connected") w
      end
  | _ => w' = emit (CommandThrew "Not connected") w
  end.

(** The promise made for [sock] can no longer be settled through it: there
    is no such socket, it is the pointer socket, or its [settled] flag is
    set. *)
Definition settled_socket (sock : nat) (w : World) : Prop :=
  ∀ s c, sockets w !! sock = Some s → kind s ≠ MainSocket c false.

(** Sockets are never removed and keep their role. *)
Definition keeps_sockets (w0 w : World) : Prop :=
  ∀ sock s, sockets w0 !! sock = Some s →
    ∃ s', sockets w !! sock = Some s' ∧ kind s' = kind s ∧ url s' = url s.

Definition all_but_key : list Comp :=
  [CmainWs; CpointerWs; Cstatus; CtvIp; CmsgId; Cpending; Csubs; Creg;
   CcurrentApp; Cvolume; Cmuted; Clistener; Csockets; Ccalls; Ctimers; Cwrites; Cdisk].

(** How one step of the event loop may change [clientKey]: not at all, to
    the key on disk when connect() finds it stored for the address it was
    called with, or to the non-empty key an accepted handshake returns. *)
Definition key_step (ev : Event) (w w' : World) : Prop :=
  clientKey (tv w') = clientKey (tv w)
  ∨ (∃ c call cfg, ev = EvConfigLoaded c ∧ calls w !! c = Some call
       ∧ disk w = Some cfg ∧ TVConfig.tvIp cfg = ip call
       ∧ clientKey (tv w') = Some (TVConfig.clientKey cfg))
  ∨ (∃ sock resp key, ev = EvMessage sock (Some resp) ∧ accepted resp = true
       ∧ nonempty_string (opt_field (get_field resp "payload") "client-key") = Some key
       ∧ clientKey (tv w') = Some key).

(** [if (this.clientKey)] of register(): a key is held when it is a
    non-empty string. *)
Definition holds_key (w : World) : Prop := is_Some (nonempty (clientKey (tv w))).

(** What the listener is told, and what is left of the previous session,
    when connect(addr) is called. *)
Definition connect_start (addr : string) (cb : nat) (w w' : World) : Prop :=
  match mainWs (tv w) with
  | Some _ =>
      emitted w w' =
        [Notify cb (TVStatus.mk disconnected (tvIp (tv w)) (currentApp (tv w))
                      (volume (tv w)) (muted (tv w)));
         Notify cb (TVStatus.mk connecting (Some addr) JNull JNull JNull)]
      ∧ pendingRequests (tv w') = ∅
      ∧ subscriptionIds (tv w') = ∅
      ∧ registrationRequestId (tv w') = None
      ∧ mainWs (tv w') = None ∧ pointerWs (tv w') = None
  | None =>
      emitted w w' =
        [Notify cb (TVStatus.mk connecting (Some addr) (currentApp (tv w))
                      (volume (tv w)) (muted (tv w)))]
      ∧ pendingRequests (tv w') = pendingRequests (tv w)
      ∧ subscriptionIds (tv w') = subscriptionIds (tv w)
      ∧ registrationRequestId (tv w') = registrationRequestId (tv w)
      ∧ mainWs (tv w') = None ∧ pointerWs (tv w') = pointerWs (tv w)
  end.

(** The callback click() hands to [setTimeout] for 50 ms later. *)
Inductive PointerTimer : Type := T_release.

(** click(): nothing without an open pointer socket; otherwise the
    button-down frame is sent and the release is scheduled. *)
Definition click (w : World) : World * option PointerTimer :=
  match pointerWs (tv w) with
  | Some sock =>
      if is_open (Some sock) w
      then (emit (SendBytes sock [2; 1; 0; 0]%Z) w, Some T_release)
      else (w, None)
  | None => (w, None)
  end.

(** [this.pointerWs?.send(up)] when the timer fires: on whatever socket the
    field holds by then; [send] throws while that socket is still
    connecting, and nothing catches it. *)
Definition run_pointer_timer (t : PointerTimer) (w : World) : World + string :=
  match t with
  | T_release =>
      match pointerWs (tv w) with
      | Some sock =>
          match sockets w !! sock with
          | Some s =>
              match readyState s with
              | CONNECTING => inr InvalidStateError
              | OPEN => inl (emit (SendBytes sock [3; 1; 0; 0]%Z) w)
              | _ => inl w
              end
          | None => inl w
          end
      | None => inl w
      end
  end.

Definition registration_timeout : string :=
  "Registration timed out - check TV for pairing prompt".

(** Where connect() call [c] stands after its attempt on [u] failed with
    [message] and [rest] is still to try. *)
Definition after_failed_attempt (c : nat) (call : ConnectCall) (u : string)
    (rest : list string) (message : string) (w w' : World) : Prop :=
  let errs := app (errors call) [u ++ " -> " ++ message] in
  match rest with
  | next :: rest' =>
      calls w' !! c = Some (mkConnectCall (ip call) errs (Trying next rest'))
      ∧ status (tv w') = connecting
      ∧ mainWs (tv w') = Some (length (sockets w))
      ∧ sockets w' !! length (sockets w)
        = Some (mkWebSocket next CONNECTING (MainSocket c false))
  | [] =>
      calls w' !! c
        = Some (mkConnectCall (ip call) errs
                  (Threw ("Failed to connect to TV. Attempts: " ++ join " | " errs)))
      ∧ status (tv w') = disconnected
      ∧ mainWs (tv w') = None
      ∧ length (sockets w') = length (sockets w)
  end.

(** connect("10.0.0.5") has loaded an empty configuration and waits on its
    first socket. *)
Definition first_attempt : World :=
  run sample_manifest true [EvConnect "10.0.0.5"; EvConfigLoaded 0] (new_World None).

(** How the transport of an attempt fails: the socket reports an error, it
    closes, or the 12-second timer of connectWebSocket fires first. *)
Inductive Failure : Type :=
| F_error (details : string)
| F_close
| F_timeout.

(** The message [fail] is called with, for the attempt on [wsUrl]. *)
Definition failure_reason (f : Failure) (wsUrl : string) : string :=
  match f with
  | F_error details => "WebSocket connection failed at " ++ wsUrl ++ ": " ++ details
  | F_close => "Socket closed at " ++ wsUrl
  | F_timeout => "Connection timed out at " ++ wsUrl
  end.

(** The event that delivers the failure to socket [sock], whose connection
    timer is the timer armed last. *)
Definition failure_event (f : Failure) (sock : nat) (w : World) : Event :=
  match f with
  | F_error details => EvError sock details
  | F_close => EvClose sock
  | F_timeout => EvTimer (pred (length (timers w)))
  end.

(** connect() call [c] waits on socket [sock], the newest one, for its
    attempt on [u]; [rest] is still to try. *)
Definition Attempt (c : nat) (call : ConnectCall) (u : string) (rest : list string)
    (sock : nat) (w : World) : Prop :=
  calls w !! c = Some call
  ∧ phase call = Trying u rest
  ∧ (∃ s, sockets w !! sock = Some s ∧ url s = u ∧ kind s = MainSocket c false
          ∧ readyState s ≠ CLOSED)
  ∧ length (sockets w) = S sock
  ∧ last (timers w) = Some (T_connect sock).

(** [regMsg] of register(). *)
Definition register_message (LG : list (string * json)) (c : TVConnection) (id : string)
  : json :=
  JObj [("id", JStr id); ("type", JStr "register");
        ("payload", JObj (handshake_payload LG c))].

Definition is_notification (e : Effect) : Prop := kind_of e = KNotify.

(** The device refuses the pairing of [pairing_session]. *)
Definition pairing_refused : json :=
  JObj [("id", JStr "msg_1"); ("type", JStr "error"); ("error", JStr "rejected")].

(** The messages among the effects, with the socket each went out on. *)
Definition sends (l : list Effect) : list (nat * json) :=
  omap (fun e => match e with Send n m => Some (n, m) | _ => None end) l.

Definition pointer_request (id : string) : json :=
  JObj [("type", JStr "request");
        ("uri", JStr "ssap://com.webos.service.networkinput/getPointerInputSocket");
        ("id", JStr id)].

Definition foreground_subscription (id : string) : json :=
  JObj [("id", JStr id); ("type", JStr "subscribe");
        ("uri", JStr "ssap://com.webos.applicationManager/getForegroundAppInfo")].

Definition volume_subscription (id : string) : json :=
  JObj [("id", JStr id); ("type", JStr "subscribe"); ("uri", JStr "ssap://audio/getVolume")].

(** The correlator as seen from a state [w0] on: the open main socket, the
    counter, the messages sent since [w0], the two tables and the timers. *)
Record Correlator (w0 : World) (m n : nat) (out : list (nat * json))
    (pending : gmap string Handler) (subs : gset string) (tm : list Timer)
    (w : World) : Prop := mkCorrelator {
  co_main : mainWs (tv w) = Some m;
  co_open : is_open (Some m) w = true;
  co_msgId : msgId (tv w) = n;
  co_out : ∃ l, trace w = (trace w0 ++ l)%list ∧ sends l = out;
  co_pending : pendingRequests (tv w) = pending;
  co_subs : subscriptionIds (tv w) = subs;
  co_timers : timers w = tm }.

(** * The static file server of [src/server.ts] *)

(** [s.slice(n)] for [0 <= n].  A string is the sequence of its encoded
    characters: the code searches for ".", ":", "/" and line breaks and
    compares against its own constants, which comes to the same on the
    characters and on their encoding. *)
Fixpoint string_drop (n : nat) (s : string) : string :=
  match n, s with
  | O, _ => s
  | S n', String _ rest => string_drop n' rest
  | S _, EmptyString => EmptyString
  end.

(** [s.slice(start)]; a negative [start] counts from the end. *)
Definition slice (s : string) (start : Z) : string :=
  let len := Z.of_nat (String.length s) in
  let from := if (start <? 0)%Z then Z.max (len + start) 0 else Z.min start len in
  string_drop (Z.to_nat from) s.

Definition dot : Ascii.ascii := Ascii.ascii_of_nat 46.

(** [s.lastIndexOf(c)] for a one-character [c]: [-1] when there is none. *)
Fixpoint lastIndexOf (c : Ascii.ascii) (s : string) : Z :=
  match s with
  | EmptyString => (-1)%Z
  | String a rest =>
      let i := lastIndexOf c rest in
      if (0 <=? i)%Z then (i + 1)%Z
      else if Ascii.eqb a c then 0%Z else (-1)%Z
  end.

(** [s.endsWith(suffix)] *)
Fixpoint endsWith (suffix s : string) : bool :=
  String.eqb s suffix
  || match s with
     | EmptyString => false
     | String _ rest => endsWith suffix rest
     end.

(** [s.includes(part)] *)
Fixpoint includes (part s : string) : bool :=
  String.prefix part s
  || match s with
     | EmptyString => false
     | String _ rest => includes part rest
     end.

Fixpoint lookup_string (k : string) (table : list (string * string)) : option string :=
  match table with
  | [] => None
  | (k', v) :: rest => if String.eqb k k' then Some v else lookup_string k rest
  end.

Definition MIME_TYPES : list (string * string) :=
  [(".html", "text/html"); (".css", "text/css"); (".js", "text/javascript");
   (".ts", "text/javascript"); (".json", "application/json"); (".png", "image/png");
   (".svg", "image/svg+xml")].

(** getMimeType.  [MIME_TYPES[ext]] only ever sees an [ext] that starts with
    a dot, is one character or is empty, so nothing inherited from
    [Object.prototype] can answer the lookup. *)
Definition getMimeType (path : string) : string :=
  let ext := slice path (lastIndexOf dot path) in
  default "application/octet-stream" (lookup_string ext MIME_TYPES).

(** What [new Response(body, init)] was given. *)
Inductive Body : Type :=
| BodyText (text : string)
| BodyFile (path : string).

Record Response : Type := mkResponse {
  body : Body;
  http_status : nat;
  content_type : option string }.

Section Files.

(** The file system as [Bun.file] shows it, and [Bun.Transpiler]. *)
Variable file_exists : string -> bool.
Variable file_text : string -> string.
Variable transformSync : string -> string.

Definition serveStaticFile (filePath : string) : Response :=
  if file_exists filePath then
    if endsWith ".ts" filePath && negb (includes "src/" filePath) then
      mkResponse (BodyText (transformSync (file_text filePath))) 200
        (Some "text/javascript")
    else
      mkResponse (BodyFile filePath) 200 (Some (getMimeType filePath))
  else mkResponse (BodyText "Not Found") 404 None.

End Files.

Definition no_dot (s : string) : Prop := lastIndexOf dot s = (-1)%Z.

(** * Discovery: [discover/discover.ts] *)

Definition CR : Ascii.ascii := Ascii.ascii_of_nat 13.

Definition LF : Ascii.ascii := Ascii.ascii_of_nat 10.

Definition colon : Ascii.ascii := Ascii.ascii_of_nat 58.

Definition CRLF : string := String CR (String LF EmptyString).

Definition dquote : string := String (Ascii.ascii_of_nat 34) EmptyString.

Definition SSDP_ADDR : string := "239.255.255.250".

Definition SSDP_PORT : nat := 1900.

Definition SEARCH_TARGETS : list string :=
  ["urn:lge-com:service:webOSSecondScreen:1"; "urn:dial-multiscreen-org:service:dial:1";
   "ssdp:all"].

Definition buildMSearch (st : string) : string :=
  join CRLF
    ["M-SEARCH * HTTP/1.1";
     "HOST: " ++ SSDP_ADDR ++ ":" ++ pretty SSDP_PORT;
     "MAN: " ++ dquote ++ "ssdp:discover" ++ dquote;
     "MX: 5";
     "ST: " ++ st;
     EmptyString;
     EmptyString].

(** [raw.split("\r\n")] *)
Fixpoint split_crlf (s : string) : list string :=
  match s with
  | EmptyString => [EmptyString]
  | String a rest =>
      match rest with
      | String b rest' =>
          if Ascii.eqb a CR && Ascii.eqb b LF then EmptyString :: split_crlf rest'
          else match split_crlf rest with
               | line :: lines => String a line :: lines
               | [] => [String a EmptyString]
               end
      | EmptyString => [String a EmptyString]
      end
  end.

(** [s.indexOf(c)] for a one-character [c]: [-1] when there is none. *)
Fixpoint indexOf (c : Ascii.ascii) (s : string) : Z :=
  match s with
  | EmptyString => (-1)%Z
  | String a rest =>
      if Ascii.eqb a c then 0%Z
      else let i := indexOf c rest in if (0 <=? i)%Z then (i + 1)%Z else (-1)%Z
  end.

(** [s.slice(0, n)] for [0 <= n]. *)
Fixpoint string_take (n : nat) (s : string) : string :=
  match n, s with
  | S n', String a rest => String a (string_take n' rest)
  | _, _ => EmptyString
  end.

Section Discover.

(** [String.prototype.trim] and [String.prototype.toLowerCase]. *)
Variable trim : string -> string.
Variable toLowerCase : string -> string.

(** The header a line contributes: [idx > 0] asks for a colon that is not
    the first character. *)
Definition header_of_line (line : string) : option (string * string) :=
  let idx := indexOf colon line in
  if (0 <? idx)%Z
  then Some (toLowerCase (trim (string_take (Z.to_nat idx) line)),
             trim (string_drop (Z.to_nat (idx + 1)) line))
  else None.

(** [headers[key] = value] on an object literal: assigning a string to
    ["__proto__"] goes to the inherited setter, which ignores it. *)
Definition set_header (headers : gmap string string) (line : string)
  : gmap string string :=
  match header_of_line line with
  | Some (key, value) =>
      if String.eqb key "__proto__" then headers else <[key := value]> headers
  | None => headers
  end.

Definition parseHeaders (raw : string) : gmap string string :=
  foldl set_header ∅ (split_crlf raw).

Definition isLGWebOS (raw : string) : bool :=
  let lc := toLowerCase raw in
  includes "webos" lc || includes "lge" lc || includes "lg " lc.

(** [new URL(location).hostname], [None] when the constructor throws. *)
Variable hostname : string -> option string.

Definition extractIpFromLocation (location : string) : option string :=
  hostname location.

(** An entry of [found] as the message handler makes it; its name is
    filled in later by fetchDeviceName. *)
Record DiscoveredTV : Type := mkDiscoveredTV { tv_ip : string; uuid : string }.

Definition found_has (ip : string) (found : list (string * DiscoveredTV)) : bool :=
  bool_decide (ip ∈ found.*1).

(** The "message" handler of discoverTVs on a datagram [raw] from
    [address]; [found] is the Map in insertion order. *)
Definition on_message (found : list (string * DiscoveredTV)) (datagram : string * string)
  : list (string * DiscoveredTV) :=
  let '(raw, address) := datagram in
  if negb (isLGWebOS raw) then found
  else
    let headers := parseHeaders raw in
    let location := headers !! "location" in
    let usn :=
      match headers !! "usn" with
      | Some u => if String.eqb u EmptyString then address else u
      | None => address
      end in
    let ip :=
      match location with
      | Some l => if String.eqb l EmptyString then Some address
                  else extractIpFromLocation l
      | None => Some address
      end in
    match ip with
    | Some ip =>
        if String.eqb ip EmptyString || found_has ip found then found
        else found ++ [(ip, mkDiscoveredTV ip usn)]
    | None => found
    end.

End Discover.

(** Seven-bit text, on which the two string methods are plain: *)
Fixpoint is_ascii (s : string) : bool :=
  match s with
  | EmptyString => true
  | String a rest => (Ascii.nat_of_ascii a <? 128)%nat && is_ascii rest
  end.

(** lower-casing moves A..Z to a..z, *)
Definition ascii_lower_char (a : Ascii.ascii) : Ascii.ascii :=
  let n := Ascii.nat_of_ascii a in
  if (65 <=? n)%nat && (n <=? 90)%nat then Ascii.ascii_of_nat (n + 32) else a.

Fixpoint ascii_lower (s : string) : string :=
  match s with
  | EmptyString => EmptyString
  | String a rest => String (ascii_lower_char a) (ascii_lower rest)
  end.

(** and trimming removes tab, line feed, vertical tab, form feed, carriage
    return and space from both ends. *)
Definition ascii_space (a : Ascii.ascii) : bool :=
  let n := Ascii.nat_of_ascii a in
  ((9 <=? n)%nat && (n <=? 13)%nat) || (n =? 32)%nat.

Fixpoint trim_start (s : string) : string :=
  match s with
  | EmptyString => EmptyString
  | String a rest => if ascii_space a then trim_start rest else s
  end.

Fixpoint trim_end (s : string) : string :=
  match s with
  | EmptyString => EmptyString
  | String a rest =>
      match trim_end rest with
      | EmptyString => if ascii_space a then EmptyString else String a EmptyString
      | rest' => String a rest'
      end
  end.

Definition ascii_trim (s : string) : string := trim_end (trim_start s).

(** The values a header name is given, line after line. *)
Definition header_values (trim toLowerCase : string → string) (name raw : string)
  : list string :=
  omap (fun line =>
          match header_of_line trim toLowerCase line with
          | Some (key, value) => if String.eqb key name then Some value else None
          | None => None
          end)
       (split_crlf raw).

Definition no_crlf (s : string) : Prop := includes CRLF s = false.

(** What the handler keeps true of [found]. *)
Definition found_ok (found : list (string * DiscoveredTV)) : Prop :=
  NoDup found.*1
  ∧ Forall (fun entry => tv_ip entry.2 = entry.1 ∧ entry.1 ≠ EmptyString) found.

(** * Proofs *)

Set Warnings "-clear-no-such-hyp".

(** ** What a callback may emit *)

Create HintDb emits discriminated.
Create HintDb frame discriminated.
#[global] Hint Constants Opaque : emits.
#[global] Hint Constants Opaque : frame.

Ltac side := solve [ assumption | compute_done | set_solver ].
#[global] Hint Extern 1 (_ ∈ _) => side : emits frame.
#[global] Hint Extern 1 (_ ⊆ _) => side : emits frame.

Section Emits.
Context (ks : list EffectKind) (w0 : World).

Lemma emits_refl : emits ks w0 w0.
Proof. exists []. split; [by rewrite app_nil_r | constructor]. Qed.

Lemma emits_same w w' : trace w' = trace w → emits ks w0 w → emits ks w0 w'.
Proof. intros E (l & E1 & F1). exists l. by rewrite E. Qed.

Lemma emits_emit e w : kind_of e ∈ ks → emits ks w0 w → emits ks w0 (emit e w).
Proof.
  intros K (l & E & F). exists (l ++ [e])%list. simpl.
  split; [by rewrite E, app_assoc | apply Forall_app; split; [done | by constructor]].
Qed.

Lemma emits_upd_tv f w : emits ks w0 w → emits ks w0 (upd_tv f w).
Proof. by apply emits_same. Qed.
Lemma emits_set_sockets v w : emits ks w0 w → emits ks w0 (set_sockets v w).
Proof. by apply emits_same. Qed.
Lemma emits_set_calls v w : emits ks w0 w → emits ks w0 (set_calls v w).
Proof. by apply emits_same. Qed.
Lemma emits_set_timers v w : emits ks w0 w → emits ks w0 (set_timers v w).
Proof. by apply emits_same. Qed.
Lemma emits_set_writes v w : emits ks w0 w → emits ks w0 (set_writes v w).
Proof. by apply emits_same. Qed.
Lemma emits_set_disk v w : emits ks w0 w → emits ks w0 (set_disk v w).
Proof. by apply emits_same. Qed.
End Emits.

Lemma emits_trans ks w0 w1 w2 : emits ks w0 w1 → emits ks w1 w2 → emits ks w0 w2.
Proof.
  intros (l1 & E1 & F1) (l2 & E2 & F2). exists (l1 ++ l2)%list.
  split; [by rewrite E2, E1, app_assoc | by apply Forall_app].
Qed.

Lemma emits_weaken ks ks' w0 w : ks ⊆ ks' → emits ks w0 w → emits ks' w0 w.
Proof.
  intros S (l & E & F). exists l. split; [done |].
  eapply Forall_impl; [exact F |]. intros e He. by apply S.
Qed.

#[global] Hint Resolve emits_refl emits_emit emits_upd_tv emits_set_sockets
  emits_set_calls emits_set_timers emits_set_writes emits_set_disk : emits.

Lemma send_main_inl msg w w' :
  send_main msg w = inl w' → w' = w ∨ ∃ n, w' = emit (Send n msg) w.
Proof.
  unfold send_main, ws_send. intros H. repeat case_match; simplify_eq; eauto.
Qed.

Ltac sent :=
  repeat match goal with
    | H : send_main _ _ = inl _ |- _ => apply send_main_inl in H as [-> | [? ->]]
    end.

(** Unfold a callback, split on what it inspects, and let the hints follow
    its sequence of updates from the last one back. *)
Tactic Notation "follow" ident(db) :=
  cbv beta zeta; repeat (case_match; cbv beta iota zeta); simplify_eq; sent;
  eauto 40 with db.

Section Frame.
Context (F : list Comp) (w0 : World).

Lemma frame_refl : frame F w0 w0.
Proof. unfold frame. repeat split; by right. Qed.

Ltac setter :=
  unfold frame; simpl; intros; destruct_and!;
  repeat split; solve [ assumption | left; assumption ].

Lemma frame_set_mainWs v w : CmainWs ∈ F → frame F w0 w → frame F w0 (upd_tv (set_mainWs v) w).
Proof. setter. Qed.
Lemma frame_set_pointerWs v w : CpointerWs ∈ F → frame F w0 w → frame F w0 (upd_tv (set_pointerWs v) w).
Proof. setter. Qed.
Lemma frame_set_status v w : Cstatus ∈ F → frame F w0 w → frame F w0 (upd_tv (set_status v) w).
Proof. setter. Qed.
Lemma frame_set_tvIp v w : CtvIp ∈ F → frame F w0 w → frame F w0 (upd_tv (set_tvIp v) w).
Proof. setter. Qed.
Lemma frame_set_clientKey v w : CclientKey ∈ F → frame F w0 w → frame F w0 (upd_tv (set_clientKey v) w).
Proof. setter. Qed.
Lemma frame_set_msgId v w : CmsgId ∈ F → frame F w0 w → frame F w0 (upd_tv (set_msgId v) w).
Proof. setter. Qed.
Lemma frame_set_pendingRequests v w : Cpending ∈ F → frame F w0 w → frame F w0 (upd_tv (set_pendingRequests v) w).
Proof. setter. Qed.
Lemma frame_pending_set id h w : Cpending ∈ F → frame F w0 w → frame F w0 (pending_set id h w).
Proof. setter. Qed.
Lemma frame_pending_delete id w : Cpending ∈ F → frame F w0 w → frame F w0 (pending_delete id w).
Proof. setter. Qed.
Lemma frame_set_subscriptionIds v w : Csubs ∈ F → frame F w0 w → frame F w0 (upd_tv (set_subscriptionIds v) w).
Proof. setter. Qed.
Lemma frame_subscription_add id w : Csubs ∈ F → frame F w0 w → frame F w0 (subscription_add id w).
Proof. setter. Qed.
Lemma frame_set_registrationRequestId v w : Creg ∈ F → frame F w0 w → frame F w0 (upd_tv (set_registrationRequestId v) w).
Proof. setter. Qed.
Lemma frame_set_currentApp v w : CcurrentApp ∈ F → frame F w0 w → frame F w0 (upd_tv (set_currentApp v) w).
Proof. setter. Qed.
Lemma frame_set_volume v w : Cvolume ∈ F → frame F w0 w → frame F w0 (upd_tv (set_volume v) w).
Proof. setter. Qed.
Lemma frame_set_muted v w : Cmuted ∈ F → frame F w0 w → frame F w0 (upd_tv (set_muted v) w).
Proof. setter. Qed.
Lemma frame_set_onStatusChange v w : Clistener ∈ F → frame F w0 w → frame F w0 (upd_tv (set_onStatusChange v) w).
Proof. setter. Qed.
Lemma frame_set_sockets v w : Csockets ∈ F → frame F w0 w → frame F w0 (set_sockets v w).
Proof. setter. Qed.
Lemma frame_set_calls v w : Ccalls ∈ F → frame F w0 w → frame F w0 (set_calls v w).
Proof. setter. Qed.
Lemma frame_set_timers v w : Ctimers ∈ F → frame F w0 w → frame F w0 (set_timers v w).
Proof. setter. Qed.
Lemma frame_set_writes v w : Cwrites ∈ F → frame F w0 w → frame F w0 (set_writes v w).
Proof. setter. Qed.
Lemma frame_set_disk v w : Cdisk ∈ F → frame F w0 w → frame F w0 (set_disk v w).
Proof. setter. Qed.
Lemma frame_emit e w : frame F w0 w → frame F w0 (emit e w).
Proof. setter. Qed.
End Frame.

#[global] Hint Resolve frame_refl frame_set_mainWs frame_set_pointerWs frame_set_status
  frame_set_tvIp frame_set_clientKey frame_set_msgId frame_set_pendingRequests
  frame_pending_set frame_pending_delete frame_set_subscriptionIds
  frame_subscription_add frame_set_registrationRequestId frame_set_currentApp
  frame_set_volume frame_set_muted frame_set_onStatusChange frame_set_sockets
  frame_set_calls frame_set_timers frame_set_writes frame_set_disk frame_emit : frame.

Lemma emits_pending_set ks w0 id h w : emits ks w0 w → emits ks w0 (pending_set id h w).
Proof. by apply emits_same. Qed.
Lemma emits_pending_delete ks w0 id w : emits ks w0 w → emits ks w0 (pending_delete id w).
Proof. by apply emits_same. Qed.
Lemma emits_subscription_add ks w0 id w : emits ks w0 w → emits ks w0 (subscription_add id w).
Proof. by apply emits_same. Qed.
#[global] Hint Resolve emits_pending_set emits_pending_delete emits_subscription_add : emits.

(** *** The callbacks, one by one *)

Lemma emits_notify ks w0 w : KNotify ∈ ks → emits ks w0 w → emits ks w0 (notify w).
Proof. intros. unfold notify. follow emits. Qed.
Lemma frame_notify F w0 w : frame F w0 w → frame F w0 (notify w).
Proof. intros. unfold notify. follow frame. Qed.
#[global] Hint Resolve emits_notify : emits.
#[global] Hint Resolve frame_notify : frame.

Lemma emits_setStatus ks w0 s w : KNotify ∈ ks → emits ks w0 w → emits ks w0 (setStatus s w).
Proof. intros. unfold setStatus. follow emits. Qed.
Lemma frame_setStatus F w0 s w : Cstatus ∈ F → frame F w0 w → frame F w0 (setStatus s w).
Proof. intros. unfold setStatus. follow frame. Qed.
#[global] Hint Resolve emits_setStatus : emits.
#[global] Hint Resolve frame_setStatus : frame.

Lemma emits_saveConfig ks w0 w : KWriteFile ∈ ks → emits ks w0 w → emits ks w0 (saveConfig w).
Proof. intros. unfold saveConfig. follow emits. Qed.
Lemma frame_saveConfig F w0 w : Cwrites ∈ F → frame F w0 w → frame F w0 (saveConfig w).
Proof. intros. unfold saveConfig. follow frame. Qed.
#[global] Hint Resolve emits_saveConfig : emits.
#[global] Hint Resolve frame_saveConfig : frame.

Lemma emits_setTimeout ks w0 t w : emits ks w0 w → emits ks w0 (setTimeout t w).
Proof. intros. unfold setTimeout. follow emits. Qed.
Lemma frame_setTimeout F w0 t w : Ctimers ∈ F → frame F w0 w → frame F w0 (setTimeout t w).
Proof. intros. unfold setTimeout. follow frame. Qed.
Lemma emits_clearTimeout ks w0 t w : emits ks w0 w → emits ks w0 (clearTimeout t w).
Proof. intros. unfold clearTimeout. follow emits. Qed.
Lemma frame_clearTimeout F w0 t w : Ctimers ∈ F → frame F w0 w → frame F w0 (clearTimeout t w).
Proof. intros. unfold clearTimeout. follow frame. Qed.
#[global] Hint Resolve emits_setTimeout emits_clearTimeout : emits.
#[global] Hint Resolve frame_setTimeout frame_clearTimeout : frame.

Lemma emits_ws_close ks w0 h w : emits ks w0 w → emits ks w0 (ws_close h w).
Proof. intros. unfold ws_close. follow emits. Qed.
Lemma frame_ws_close F w0 h w : Csockets ∈ F → frame F w0 w → frame F w0 (ws_close h w).
Proof. intros. unfold ws_close. follow frame. Qed.
#[global] Hint Resolve emits_ws_close : emits.
#[global] Hint Resolve frame_ws_close : frame.

Lemma emits_sendMain ks w0 msg k w :
  [KSend; KRequestRefused] ⊆ ks → emits ks w0 w → emits ks w0 (sendMain msg k w).
Proof.
  intros. unfold sendMain, nextId. follow emits.
Qed.
Lemma frame_sendMain F w0 msg k w :
  [CmsgId; Cpending; Ctimers] ⊆ F → frame F w0 w → frame F w0 (sendMain msg k w).
Proof. intros. unfold sendMain, nextId. follow frame. Qed.
#[global] Hint Resolve emits_sendMain : emits.
#[global] Hint Resolve frame_sendMain : frame.

Lemma emits_connectWebSocket ks w0 c u w :
  emits ks w0 w → emits ks w0 (connectWebSocket c u w).
Proof. intros. unfold connectWebSocket. follow emits. Qed.
Lemma frame_connectWebSocket F w0 c u w :
  [CmainWs; Csockets; Ctimers] ⊆ F → frame F w0 w → frame F w0 (connectWebSocket c u w).
Proof. intros. unfold connectWebSocket. follow frame. Qed.
#[global] Hint Resolve emits_connectWebSocket : emits.
#[global] Hint Resolve frame_connectWebSocket : frame.

Lemma emits_set_call ks w0 c call w : emits ks w0 w → emits ks w0 (set_call c call w).
Proof. intros. unfold set_call. follow emits. Qed.
Lemma frame_set_call F w0 c call w :
  Ccalls ∈ F → frame F w0 w → frame F w0 (set_call c call w).
Proof. intros. unfold set_call. follow frame. Qed.
#[global] Hint Resolve emits_set_call : emits.
#[global] Hint Resolve frame_set_call : frame.

Lemma emits_connect_loop ks w0 c call urls w :
  [KNotify; KConnectThrew] ⊆ ks → emits ks w0 w → emits ks w0 (connect_loop c call urls w).
Proof. intros. unfold connect_loop. follow emits. Qed.
Lemma frame_connect_loop F w0 c call urls w :
  fp_connect_loop ⊆ F → frame F w0 w → frame F w0 (connect_loop c call urls w).
Proof. unfold fp_connect_loop. intros. unfold connect_loop. follow frame. Qed.
#[global] Hint Resolve emits_connect_loop : emits.
#[global] Hint Resolve frame_connect_loop : frame.

Lemma emits_connect_catch ks w0 c m w :
  [KNotify; KConnectThrew] ⊆ ks → emits ks w0 w → emits ks w0 (connect_catch c m w).
Proof. intros. unfold connect_catch. follow emits. Qed.
Lemma frame_connect_catch F w0 c m w :
  fp_fail ⊆ F → frame F w0 w → frame F w0 (connect_catch c m w).
Proof. unfold fp_fail. intros. unfold connect_catch. follow frame. Qed.
#[global] Hint Resolve emits_connect_catch : emits.
#[global] Hint Resolve frame_connect_catch : frame.

Lemma emits_connect_return ks w0 c w :
  KConnectReturned ∈ ks → emits ks w0 w → emits ks w0 (connect_return c w).
Proof. intros. unfold connect_return. follow emits. Qed.
Lemma frame_connect_return F w0 c w :
  Ccalls ∈ F → frame F w0 w → frame F w0 (connect_return c w).
Proof. intros. unfold connect_return. follow frame. Qed.
#[global] Hint Resolve emits_connect_return : emits.
#[global] Hint Resolve frame_connect_return : frame.

Lemma emits_fail ks w0 sock m w :
  [KNotify; KConnectThrew] ⊆ ks → emits ks w0 w → emits ks w0 (fail sock m w).
Proof. intros. unfold fail. follow emits. Qed.
Lemma frame_fail F w0 sock m w :
  fp_fail ⊆ F → frame F w0 w → frame F w0 (fail sock m w).
Proof. unfold fp_fail. intros. unfold fail. follow frame. Qed.
#[global] Hint Resolve emits_fail : emits.
#[global] Hint Resolve frame_fail : frame.

Lemma emits_registered_then ks w0 sock w :
  KConnectReturned ∈ ks → emits ks w0 w → emits ks w0 (registered_then sock w).
Proof. intros. unfold registered_then. follow emits. Qed.
Lemma frame_registered_then F w0 sock w :
  [Csockets; Ccalls] ⊆ F → frame F w0 w → frame F w0 (registered_then sock w).
Proof. intros. unfold registered_then. follow frame. Qed.
#[global] Hint Resolve emits_registered_then : emits.
#[global] Hint Resolve frame_registered_then : frame.

Lemma emits_subscribeToStatus ks w0 w :
  KSend ∈ ks → emits ks w0 w → emits ks w0 (subscribeToStatus w).
Proof. intros. unfold subscribeToStatus, nextId. follow emits. Qed.
Lemma frame_subscribeToStatus F w0 w :
  [CmsgId; Cpending; Csubs] ⊆ F → frame F w0 w → frame F w0 (subscribeToStatus w).
Proof. intros. unfold subscribeToStatus, nextId. follow frame. Qed.
#[global] Hint Resolve emits_subscribeToStatus : emits.
#[global] Hint Resolve frame_subscribeToStatus : frame.

Lemma emits_setupPointerSocket ks w0 w :
  [KSend; KRequestRefused] ⊆ ks → emits ks w0 w → emits ks w0 (setupPointerSocket w).
Proof. intros. unfold setupPointerSocket. follow emits. Qed.
Lemma frame_setupPointerSocket F w0 w :
  [CmsgId; Cpending; Ctimers] ⊆ F → frame F w0 w → frame F w0 (setupPointerSocket w).
Proof. intros. unfold setupPointerSocket. follow frame. Qed.
#[global] Hint Resolve emits_setupPointerSocket : emits.
#[global] Hint Resolve frame_setupPointerSocket : frame.

Lemma emits_setupPointerSocket_resume ks w0 resp w :
  emits ks w0 w → emits ks w0 (setupPointerSocket_resume resp w).
Proof. intros. unfold setupPointerSocket_resume. follow emits. Qed.
Lemma frame_setupPointerSocket_resume F w0 resp w :
  [CpointerWs; Csockets] ⊆ F → frame F w0 w → frame F w0 (setupPointerSocket_resume resp w).
Proof. intros. unfold setupPointerSocket_resume. follow frame. Qed.
#[global] Hint Resolve emits_setupPointerSocket_resume : emits.
#[global] Hint Resolve frame_setupPointerSocket_resume : frame.

Lemma emits_update_volume ks w0 p w :
  KNotify ∈ ks → emits ks w0 w → emits ks w0 (update_volume p w).
Proof. intros. unfold update_volume. follow emits. Qed.
Lemma frame_update_volume F w0 p w :
  [Cvolume; Cmuted] ⊆ F → frame F w0 w → frame F w0 (update_volume p w).
Proof. intros. unfold update_volume. follow frame. Qed.
Lemma emits_update_currentApp ks w0 a w :
  KNotify ∈ ks → emits ks w0 w → emits ks w0 (update_currentApp a w).
Proof. intros. unfold update_currentApp. follow emits. Qed.
Lemma frame_update_currentApp F w0 a w :
  CcurrentApp ∈ F → frame F w0 w → frame F w0 (update_currentApp a w).
Proof. intros. unfold update_currentApp. follow frame. Qed.
#[global] Hint Resolve emits_update_volume emits_update_currentApp : emits.
#[global] Hint Resolve frame_update_volume frame_update_currentApp : frame.

Lemma emits_foreground_handler ks w0 resp w :
  KNotify ∈ ks → emits ks w0 w → emits ks w0 (foreground_handler resp w).
Proof. intros. unfold foreground_handler. follow emits. Qed.
Lemma frame_foreground_handler F w0 resp w :
  CcurrentApp ∈ F → frame F w0 w → frame F w0 (foreground_handler resp w).
Proof. intros. unfold foreground_handler. follow frame. Qed.
Lemma emits_volume_handler ks w0 resp w :
  KNotify ∈ ks → emits ks w0 w → emits ks w0 (volume_handler resp w).
Proof. intros. unfold volume_handler. follow emits. Qed.
Lemma frame_volume_handler F w0 resp w :
  [Cvolume; Cmuted] ⊆ F → frame F w0 w → frame F w0 (volume_handler resp w).
Proof. intros. unfold volume_handler. follow frame. Qed.
#[global] Hint Resolve emits_foreground_handler emits_volume_handler : emits.
#[global] Hint Resolve frame_foreground_handler frame_volume_handler : frame.

Lemma emits_register_handler ks w0 id sock resp w :
  ks_register_handler ⊆ ks → emits ks w0 w → emits ks w0 (register_handler id sock resp w).
Proof. unfold ks_register_handler. intros. unfold register_handler. follow emits. Qed.
Lemma frame_register_handler F w0 id sock resp w :
  fp_register_handler ⊆ F → frame F w0 w → frame F w0 (register_handler id sock resp w).
Proof.
  unfold fp_register_handler. intros. unfold register_handler.
  pose proof fp_fail. unfold fp_fail. follow frame.
Qed.
#[global] Hint Resolve emits_register_handler : emits.
#[global] Hint Resolve frame_register_handler : frame.

Lemma emits_invoke ks w0 h resp w :
  ks_invoke ⊆ ks → emits ks w0 w → emits ks w0 (invoke h resp w).
Proof.
  unfold ks_invoke, ks_register_handler. intros. unfold invoke. follow emits.
Qed.
Lemma frame_invoke F w0 h resp w :
  fp_invoke ⊆ F → frame F w0 w → frame F w0 (invoke h resp w).
Proof.
  unfold fp_invoke. simpl. intros. unfold invoke.
  assert (fp_register_handler ⊆ F) by (unfold fp_register_handler; set_solver).
  follow frame.
Qed.
#[global] Hint Resolve emits_invoke : emits.
#[global] Hint Resolve frame_invoke : frame.

Lemma emits_handleMainMessage ks w0 parsed w :
  ks_invoke ⊆ ks → emits ks w0 w → emits ks w0 (handleMainMessage parsed w).
Proof.
  intros. assert (KNotify ∈ ks) by (apply H; unfold ks_invoke, ks_register_handler; set_solver).
  unfold handleMainMessage. follow emits.
Qed.
Lemma frame_handleMainMessage F w0 parsed w :
  fp_handleMainMessage ⊆ F → frame F w0 w → frame F w0 (handleMainMessage parsed w).
Proof.
  unfold fp_handleMainMessage. intros.
  assert (fp_invoke ⊆ F) by set_solver.
  assert ([Creg; Cpending; CcurrentApp; Cvolume; Cmuted] ⊆ F)
    by (revert H; unfold fp_invoke, fp_register_handler; simpl; set_solver).
  unfold handleMainMessage. follow frame.
Qed.
#[global] Hint Resolve emits_handleMainMessage : emits.
#[global] Hint Resolve frame_handleMainMessage : frame.

Section RuntimeFrames.
Context (LG : list (string * json)) (chk : bool).

Lemma emits_moveMouse ks w0 dx dy w :
  [KSendBytes; KCommandThrew] ⊆ ks → emits ks w0 w → emits ks w0 (moveMouse chk dx dy w).
Proof. intros. unfold moveMouse. follow emits. Qed.
Lemma frame_moveMouse F w0 dx dy w :
  frame F w0 w → frame F w0 (moveMouse chk dx dy w).
Proof. intros. unfold moveMouse. follow frame. Qed.

Lemma emits_sendButton ks w0 key w :
  [KSend; KRequestRefused; KCommandThrew] ⊆ ks → emits ks w0 w → emits ks w0 (sendButton key w).
Proof. intros. unfold sendButton. follow emits. Qed.
Lemma frame_sendButton F w0 key w :
  [CmsgId; Cpending; Ctimers] ⊆ F → frame F w0 w → frame F w0 (sendButton key w).
Proof. intros. unfold sendButton. follow frame. Qed.
Lemma emits_sendInput ks w0 text w :
  [KSend; KRequestRefused; KCommandThrew] ⊆ ks → emits ks w0 w → emits ks w0 (sendInput text w).
Proof. intros. unfold sendInput. follow emits. Qed.
Lemma frame_sendInput F w0 text w :
  [CmsgId; Cpending; Ctimers] ⊆ F → frame F w0 w → frame F w0 (sendInput text w).
Proof. intros. unfold sendInput. follow frame. Qed.

Lemma emits_register ks w0 sock w :
  ks_register ⊆ ks → emits ks w0 w → emits ks w0 (register LG sock w).
Proof. unfold ks_register. intros. unfold register, nextId. follow emits. Qed.
Lemma frame_register F w0 sock w :
  fp_register ⊆ F → frame F w0 w → frame F w0 (register LG sock w).
Proof.
  unfold fp_register. simpl. intros.
  assert (fp_fail ⊆ F) by (unfold fp_fail; set_solver).
  unfold register, nextId. follow frame.
Qed.

Lemma emits_disconnect ks w0 w :
  KNotify ∈ ks → emits ks w0 w → emits ks w0 (disconnect w).
Proof. intros. unfold disconnect. follow emits. Qed.
Lemma frame_disconnect F w0 w :
  fp_disconnect ⊆ F → frame F w0 w → frame F w0 (disconnect w).
Proof. unfold fp_disconnect. intros. unfold disconnect. follow frame. Qed.

Hint Resolve emits_disconnect emits_register : emits.
Hint Resolve frame_disconnect frame_register : frame.

Lemma emits_connect ks w0 addr w :
  KNotify ∈ ks → emits ks w0 w → emits ks w0 (connect addr w).
Proof. intros. unfold connect. follow emits. Qed.
Lemma frame_connect F w0 addr w :
  CtvIp :: Ccalls :: fp_disconnect ⊆ F → frame F w0 w → frame F w0 (connect addr w).
Proof.
  intros. assert (fp_disconnect ⊆ F) by set_solver.
  assert ([CtvIp; Ccalls; Cstatus] ⊆ F) by (revert H; unfold fp_disconnect; set_solver).
  unfold connect. follow frame.
Qed.

Lemma emits_connect_loaded ks w0 c w :
  [KNotify; KConnectThrew] ⊆ ks → emits ks w0 w → emits ks w0 (connect_loaded c w).
Proof. intros. unfold connect_loaded. follow emits. Qed.
Lemma frame_connect_loaded F w0 c w :
  CclientKey :: fp_connect_loop ⊆ F → frame F w0 w → frame F w0 (connect_loaded c w).
Proof.
  intros. assert (fp_connect_loop ⊆ F) by set_solver.
  unfold connect_loaded. follow frame.
Qed.

Lemma emits_main_onopen ks w0 sock w :
  ks_register ⊆ ks → emits ks w0 w → emits ks w0 (main_onopen LG sock w).
Proof.
  intros. assert (KNotify ∈ ks) by (revert H; unfold ks_register; set_solver).
  unfold main_onopen. follow emits.
Qed.
Lemma frame_main_onopen F w0 sock w :
  fp_register ⊆ F → frame F w0 w → frame F w0 (main_onopen LG sock w).
Proof.
  intros. assert ([Cstatus; Ctimers] ⊆ F) by (revert H; unfold fp_register, fp_fail; set_solver).
  unfold main_onopen. follow frame.
Qed.

Lemma emits_main_onerror ks w0 sock s d w :
  [KNotify; KConnectThrew] ⊆ ks → emits ks w0 w → emits ks w0 (main_onerror sock s d w).
Proof. intros. unfold main_onerror. follow emits. Qed.
Lemma frame_main_onerror F w0 sock s d w :
  fp_fail ⊆ F → frame F w0 w → frame F w0 (main_onerror sock s d w).
Proof. intros. unfold main_onerror. follow frame. Qed.

Lemma emits_main_onclose ks w0 sock s w :
  [KNotify; KConnectThrew] ⊆ ks → emits ks w0 w → emits ks w0 (main_onclose sock s w).
Proof. intros. unfold main_onclose. follow emits. Qed.
Lemma frame_main_onclose F w0 sock s w :
  fp_fail ⊆ F → frame F w0 w → frame F w0 (main_onclose sock s w).
Proof.
  intros. assert ([CpointerWs; Csockets; Cstatus] ⊆ F) by (revert H; unfold fp_fail; set_solver).
  unfold main_onclose. follow frame.
Qed.

Lemma emits_run_timer ks w0 t w :
  ks_run_timer ⊆ ks → emits ks w0 w → emits ks w0 (run_timer t w).
Proof. unfold ks_run_timer. intros. unfold run_timer. follow emits. Qed.
Lemma frame_run_timer F w0 t w :
  fp_run_timer ⊆ F → frame F w0 w → frame F w0 (run_timer t w).
Proof.
  unfold fp_run_timer. simpl. intros. assert (fp_fail ⊆ F) by (unfold fp_fail; set_solver).
  unfold run_timer. follow frame.
Qed.

End RuntimeFrames.

#[global] Hint Resolve emits_moveMouse emits_sendButton emits_sendInput emits_register
  emits_disconnect emits_connect emits_connect_loaded emits_main_onopen
  emits_main_onerror emits_main_onclose emits_run_timer : emits.
#[global] Hint Resolve frame_moveMouse frame_sendButton frame_sendInput frame_register
  frame_disconnect frame_connect frame_connect_loaded frame_main_onopen
  frame_main_onerror frame_main_onclose frame_run_timer : frame.

Lemma msg_id_inj a b : msg_id a = msg_id b → a = b.
Proof.
  unfold msg_id. intros H. apply String.app_inj in H. by apply pretty_nat_inj in H.
Qed.

Lemma settle_count_app id l1 l2 :
  settle_count id (l1 ++ l2) = settle_count id l1 + settle_count id l2.
Proof. induction l1 as [|e l1 IH]; simpl; [done | rewrite IH; lia]. Qed.

Lemma settle_count_quiet id l :
  Forall (fun e => kind_of e ∈ quiet) l → settle_count id l = 0.
Proof.
  induction 1 as [|e l He _ IH]; simpl; [done |].
  rewrite IH. apply list_elem_of_In in He.
  destruct e; simpl in *; try done; intuition discriminate.
Qed.

Lemma emits_quiet_count id w0 w :
  emits quiet w0 w → settle_count id (trace w) = settle_count id (trace w0).
Proof.
  intros (l & -> & Hl). rewrite settle_count_app, (settle_count_quiet _ _ Hl). lia.
Qed.

Section FrameUse.
Context (F : list Comp) (w0 w : World).

Ltac pick := unfold frame; intros H ?; destruct_and!;
  match goal with Hx : _ ∨ ?a = ?b |- ?a = ?b => by destruct Hx end.

Lemma frame_msgId : frame F w0 w → CmsgId ∉ F → msgId (tv w0) = msgId (tv w).
Proof. pick. Qed.
Lemma frame_pendingRequests : frame F w0 w → Cpending ∉ F → pendingRequests (tv w0) = pendingRequests (tv w).
Proof. pick. Qed.
Lemma frame_subscriptionIds : frame F w0 w → Csubs ∉ F → subscriptionIds (tv w0) = subscriptionIds (tv w).
Proof. pick. Qed.
Lemma frame_registrationRequestId : frame F w0 w → Creg ∉ F → registrationRequestId (tv w0) = registrationRequestId (tv w).
Proof. pick. Qed.
Lemma frame_status : frame F w0 w → Cstatus ∉ F → status (tv w0) = status (tv w).
Proof. pick. Qed.
Lemma frame_clientKey : frame F w0 w → CclientKey ∉ F → clientKey (tv w0) = clientKey (tv w).
Proof. pick. Qed.
Lemma frame_tvIp : frame F w0 w → CtvIp ∉ F → tvIp (tv w0) = tvIp (tv w).
Proof. pick. Qed.
Lemma frame_mainWs : frame F w0 w → CmainWs ∉ F → mainWs (tv w0) = mainWs (tv w).
Proof. pick. Qed.
Lemma frame_onStatusChange :
  frame F w0 w → Clistener ∉ F → onStatusChange (tv w0) = onStatusChange (tv w).
Proof. pick. Qed.
Lemma frame_calls : frame F w0 w → Ccalls ∉ F → calls w0 = calls w.
Proof. pick. Qed.
Lemma frame_writes : frame F w0 w → Cwrites ∉ F → writes w0 = writes w.
Proof. pick. Qed.
Lemma frame_disk : frame F w0 w → Cdisk ∉ F → disk w0 = disk w.
Proof. pick. Qed.
End FrameUse.

Lemma frame_outside_core w0 w :
  frame outside_core w0 w →
  msgId (tv w0) = msgId (tv w) ∧ pendingRequests (tv w0) = pendingRequests (tv w)
  ∧ subscriptionIds (tv w0) = subscriptionIds (tv w)
  ∧ registrationRequestId (tv w0) = registrationRequestId (tv w).
Proof.
  intros H. repeat split;
    [ eapply frame_msgId | eapply frame_pendingRequests | eapply frame_subscriptionIds
    | eapply frame_registrationRequestId ]; first [ exact H | compute_done ].
Qed.

(** The invariant only reads the identifiers in use and the settlements in
    the trace. *)
Lemma coreinv_eq gone w0 w :
  msgId (tv w0) = msgId (tv w) → pendingRequests (tv w0) = pendingRequests (tv w) →
  subscriptionIds (tv w0) = subscriptionIds (tv w) →
  registrationRequestId (tv w0) = registrationRequestId (tv w) →
  (∀ id, settle_count id (trace w) = settle_count id (trace w0)) →
  CoreInv gone w0 → CoreInv gone w.
Proof.
  intros Em Ep Es Er Et [I1 I2 I3 I4 I5 I6].
  unfold known in *.
  split; unfold known; rewrite <- ?Em, <- ?Ep, <- ?Es, <- ?Er;
    intros; rewrite ?Et in *; eauto.
Qed.

Lemma coreinv_benign gone w0 w :
  frame outside_core w0 w → emits quiet w0 w → CoreInv gone w0 → CoreInv gone w.
Proof.
  intros Hf He. apply frame_outside_core in Hf as (? & ? & ? & ?).
  apply coreinv_eq; auto. intros. by apply emits_quiet_count.
Qed.

Lemma coreinv_weaken gone gone' w : gone ⊆ gone' → CoreInv gone' w → CoreInv gone w.
Proof.
  intros Hs [I1 I2 I3 I4 I5 I6]. split; auto.
  intros key h Hk. destruct (I1 key h Hk) as (? & ? & ? & ? & ?).
  split; [done |]. split; [done |]. split; [set_solver | by split].
Qed.

Lemma known_mono w w' id : (msgId (tv w) ≤ msgId (tv w'))%nat → known w id → known w' id.
Proof. intros Hle (k & Hk & ->). exists k. split; [lia | done]. Qed.

Lemma fresh_unknown w : ¬ known w (msg_id (S (msgId (tv w)))).
Proof. intros (k & Hk & E). apply msg_id_inj in E. lia. Qed.

(** A handler stored under the identifier [nextId] has just returned. *)
Lemma coreinv_fresh gone w w' h :
  let id := msg_id (S (msgId (tv w))) in
  CoreInv gone w →
  msgId (tv w') = S (msgId (tv w)) →
  pendingRequests (tv w') = <[id := h]> (pendingRequests (tv w)) →
  (subscriptionIds (tv w') = subscriptionIds (tv w)
   ∨ subscriptionIds (tv w') = {[id]} ∪ subscriptionIds (tv w)
     ∧ (h = H_foreground ∨ h = H_volume)
     ∧ registrationRequestId (tv w') = registrationRequestId (tv w)) →
  (registrationRequestId (tv w') = registrationRequestId (tv w)
   ∨ registrationRequestId (tv w') = Some id ∧ ∀ i a, h ≠ H_resolve i a) →
  (∀ i a, h = H_resolve i a → i = id) →
  emits quiet w w' →
  CoreInv gone w'.
Proof.
  intros id [I1 I2 I3 I4 I5 I6] Em Ep Es Er Eh Et.
  pose proof (fresh_unknown w) as Hfresh. fold id in Hfresh.
  assert (Hmono : ∀ i, known w i → known w' i)
    by (intros i; apply known_mono; lia).
  assert (Hcount : ∀ i, settle_count i (trace w') = settle_count i (trace w))
    by (intros i; by apply emits_quiet_count).
  assert (Hnew : known w' id) by (exists (S (msgId (tv w))); split; [lia | done]).
  assert (Hsub : ∀ i, i ∈ subscriptionIds (tv w') → i = id ∨ i ∈ subscriptionIds (tv w)).
  { intros i. destruct Es as [-> | (-> & _)]; [by auto |].
    rewrite elem_of_union, elem_of_singleton. tauto. }
  assert (Hreg : ∀ i, registrationRequestId (tv w') = Some i →
                      i = id ∨ registrationRequestId (tv w) = Some i).
  { intros i. destruct Er as [-> | (-> & _)]; [by auto |]. intros [= <-]. by left. }
  split.
  - intros key h0. rewrite Ep, lookup_insert. case_decide as Hkey.
    + subst key. intros [= <-].
      split; [done |]. split.
      { rewrite Hcount. destruct (settle_count id (trace w)) eqn:E; [done |].
        exfalso. apply Hfresh, I4. lia. }
      split; [by intros Hg; apply Hfresh, I6 |]. split.
      * intros i a ->. split; [by eapply Eh |].
        destruct Es as [Es | (_ & [? | ?] & _)]; [ | done | done ].
        destruct Er as [Er | (_ & Hn)]; [ | by edestruct Hn ].
        rewrite Es, Er. split.
        -- intros Hin. by apply Hfresh, I2.
        -- intros Hin. by apply Hfresh, I3.
      * intros Hin. destruct Es as [Es | (_ & Hh & _)]; [ | done ].
        rewrite Es in Hin. exfalso. by apply Hfresh, I2.
    + intros Hk. destruct (I1 key h0 Hk) as (Kn & Kc & Kg & Kr & Ks).
      split; [by auto |]. split; [by rewrite Hcount |]. split; [done |]. split.
      * intros i a ->. destruct (Kr i a eq_refl) as (Ki & Ksub & Kreg).
        split; [done |]. split.
        -- intros Hin. apply Hsub in Hin as [? | ?]; done.
        -- intros Hin. apply Hreg in Hin as [? | ?]; congruence.
      * intros Hin. apply Hsub in Hin as [? | ?]; [done | by auto].
  - intros i Hin. apply Hsub in Hin as [-> | ?]; auto.
  - intros i Hi. destruct Er as [Er | (Er & _)]; rewrite Er in Hi.
    + destruct (I3 i Hi) as (Kn & Ks). split; [by auto |].
      intros Hs. apply Hsub in Hs as [-> | ?]; [by apply Hfresh | done].
    + injection Hi as <-. split; [done |].
      destruct Es as [Es | (_ & _ & Er')].
      * rewrite Es. intros Hin. by apply Hfresh, I2.
      * exfalso. apply Hfresh. rewrite Er' in Er. by destruct (I3 _ Er).
  - intros i. rewrite Hcount. auto.
  - intros i. rewrite Hcount. auto.
  - auto.
Qed.

(** An entry leaves the map without being settled. *)
Lemma coreinv_delete gone w w' id :
  CoreInv gone w →
  is_Some (pendingRequests (tv w) !! id) →
  msgId (tv w') = msgId (tv w) →
  pendingRequests (tv w') = delete id (pendingRequests (tv w)) →
  subscriptionIds (tv w') = subscriptionIds (tv w) →
  (registrationRequestId (tv w') = registrationRequestId (tv w)
   ∨ registrationRequestId (tv w') = None) →
  emits quiet w w' →
  CoreInv ({[id]} ∪ gone) w'.
Proof.
  intros [I1 I2 I3 I4 I5 I6] [h0 Hid] Em Ep Es Er Et.
  assert (Hcount : ∀ i, settle_count i (trace w') = settle_count i (trace w))
    by (intros i; by apply emits_quiet_count).
  assert (Hk : ∀ i, known w' i ↔ known w i) by (unfold known; by rewrite Em).
  split.
  - intros key h. rewrite Ep, lookup_delete. case_decide; [done |].
    intros Hkey. destruct (I1 key h Hkey) as (Kn & Kc & Kg & Kr & Kf).
    rewrite Hk, Hcount, Es. split; [done |]. split; [done |]. split; [set_solver |].
    split; [ | done ].
    intros i a ->. destruct (Kr i a eq_refl) as (Ki & Ks & Kreg).
    split; [done |]. split; [done |]. destruct Er as [-> | ->]; done.
  - intros i. rewrite Es, Hk. auto.
  - intros i. rewrite Hk, Es. destruct Er as [-> | ->]; [auto | done].
  - intros i. rewrite Hcount, Hk. auto.
  - intros i. rewrite Hcount. auto.
  - intros i. rewrite Hk, elem_of_union, elem_of_singleton. intros [-> | Hi]; [ | by auto ].
    by destruct (I1 id h0 Hid).
Qed.

Lemma settles_id_other id key e : settles_id id e → key ≠ id → settles key e = false.
Proof.
  intros [[r ->] | [m ->]] Hne; simpl; by apply String.eqb_neq.
Qed.

Lemma settles_id_self id e : settles_id id e → settles id e = true.
Proof. intros [[r ->] | [m ->]]; simpl; by apply String.eqb_eq. Qed.

(** An entry leaves the map as its promise is settled. *)
Lemma coreinv_settle gone w w' id e :
  CoreInv gone w →
  is_Some (pendingRequests (tv w) !! id) →
  settles_id id e →
  msgId (tv w') = msgId (tv w) →
  pendingRequests (tv w') = delete id (pendingRequests (tv w)) →
  subscriptionIds (tv w') = subscriptionIds (tv w) →
  registrationRequestId (tv w') = registrationRequestId (tv w) →
  trace w' = (trace w ++ [e])%list →
  CoreInv ({[id]} ∪ gone) w'.
Proof.
  intros [I1 I2 I3 I4 I5 I6] [h0 Hid] He Em Ep Es Er Et.
  assert (Hother : ∀ i, i ≠ id → settle_count i (trace w') = settle_count i (trace w)).
  { intros i Hi. rewrite Et, settle_count_app. simpl.
    rewrite (settles_id_other id i e He Hi). lia. }
  assert (Hself : settle_count id (trace w') = 1).
  { rewrite Et, settle_count_app. simpl. rewrite (settles_id_self id e He).
    destruct (I1 id h0 Hid) as (_ & -> & _). done. }
  assert (Hk : ∀ i, known w' i ↔ known w i) by (unfold known; by rewrite Em).
  split.
  - intros key h. rewrite Ep, lookup_delete. case_decide as Hkey; [done |].
    intros Hl. destruct (I1 key h Hl) as (Kn & Kc & Kg & Kr & Kf).
    rewrite Hk, Es, Er, Hother by done. split; [done |]. split; [done |].
    split; [set_solver | done].
  - intros i. rewrite Es, Hk. auto.
  - intros i. rewrite Er, Hk, Es. auto.
  - intros i. rewrite Hk. destruct (decide (i = id)) as [-> | Hi].
    + intros _. by destruct (I1 id h0 Hid).
    + rewrite Hother by done. auto.
  - intros i. destruct (decide (i = id)) as [-> | Hi]; [lia |].
    rewrite Hother by done. auto.
  - intros i. rewrite Hk, elem_of_union, elem_of_singleton. intros [-> | Hi]; [ | by auto ].
    by destruct (I1 id h0 Hid).
Qed.

(** disconnect() empties the maps. *)
Lemma coreinv_clear gone w w' :
  CoreInv gone w →
  msgId (tv w') = msgId (tv w) →
  pendingRequests (tv w') = ∅ →
  subscriptionIds (tv w') = ∅ →
  registrationRequestId (tv w') = None →
  emits quiet w w' →
  CoreInv gone w'.
Proof.
  intros [I1 I2 I3 I4 I5 I6] Em Ep Es Er Et.
  assert (Hcount : ∀ i, settle_count i (trace w') = settle_count i (trace w))
    by (intros i; by apply emits_quiet_count).
  assert (Hk : ∀ i, known w' i ↔ known w i) by (unfold known; by rewrite Em).
  split.
  - intros key h. by rewrite Ep, lookup_empty.
  - intros i. rewrite Es. set_solver.
  - intros i. by rewrite Er.
  - intros i. rewrite Hcount, Hk. auto.
  - intros i. rewrite Hcount. auto.
  - intros i. rewrite Hk. auto.
Qed.

Create HintDb coreinv discriminated.
#[global] Hint Constants Opaque : coreinv.

Ltac benign :=
  intros; eapply coreinv_benign; [ | | eassumption ];
  [ unfold outside_core; eauto 10 with frame | unfold quiet; eauto 10 with emits ].

Section CoreInvBenign.
Context (gone : gset string).
Implicit Types w : World.

Lemma coreinv_upd_status v w : CoreInv gone w → CoreInv gone (upd_tv (set_status v) w).
Proof. benign. Qed.
Lemma coreinv_upd_clientKey v w : CoreInv gone w → CoreInv gone (upd_tv (set_clientKey v) w).
Proof. benign. Qed.
Lemma coreinv_upd_tvIp v w : CoreInv gone w → CoreInv gone (upd_tv (set_tvIp v) w).
Proof. benign. Qed.
Lemma coreinv_upd_pointerWs v w : CoreInv gone w → CoreInv gone (upd_tv (set_pointerWs v) w).
Proof. benign. Qed.
Lemma coreinv_upd_onStatusChange v w :
  CoreInv gone w → CoreInv gone (upd_tv (set_onStatusChange v) w).
Proof. benign. Qed.
Lemma coreinv_set_sockets v w : CoreInv gone w → CoreInv gone (set_sockets v w).
Proof. benign. Qed.
Lemma coreinv_set_calls v w : CoreInv gone w → CoreInv gone (set_calls v w).
Proof. benign. Qed.
Lemma coreinv_set_timers v w : CoreInv gone w → CoreInv gone (set_timers v w).
Proof. benign. Qed.
Lemma coreinv_set_writes v w : CoreInv gone w → CoreInv gone (set_writes v w).
Proof. benign. Qed.
Lemma coreinv_set_disk v w : CoreInv gone w → CoreInv gone (set_disk v w).
Proof. benign. Qed.
Lemma coreinv_emit e w :
  bool_decide (kind_of e ∈ quiet) = true → CoreInv gone w → CoreInv gone (emit e w).
Proof. intros H%bool_decide_eq_true. benign. Qed.
Lemma coreinv_setStatus s w : CoreInv gone w → CoreInv gone (setStatus s w).
Proof. benign. Qed.
Lemma coreinv_saveConfig w : CoreInv gone w → CoreInv gone (saveConfig w).
Proof. benign. Qed.
Lemma coreinv_setTimeout t w : CoreInv gone w → CoreInv gone (setTimeout t w).
Proof. benign. Qed.
Lemma coreinv_clearTimeout t w : CoreInv gone w → CoreInv gone (clearTimeout t w).
Proof. benign. Qed.
Lemma coreinv_ws_close h w : CoreInv gone w → CoreInv gone (ws_close h w).
Proof. benign. Qed.
Lemma coreinv_connect_loop c call urls w :
  CoreInv gone w → CoreInv gone (connect_loop c call urls w).
Proof. benign. Qed.
Lemma coreinv_fail sock m w : CoreInv gone w → CoreInv gone (fail sock m w).
Proof. benign. Qed.
Lemma coreinv_registered_then sock w : CoreInv gone w → CoreInv gone (registered_then sock w).
Proof. benign. Qed.
Lemma coreinv_setupPointerSocket_resume resp w :
  CoreInv gone w → CoreInv gone (setupPointerSocket_resume resp w).
Proof. benign. Qed.
Lemma coreinv_foreground_handler resp w :
  CoreInv gone w → CoreInv gone (foreground_handler resp w).
Proof. benign. Qed.
Lemma coreinv_volume_handler resp w : CoreInv gone w → CoreInv gone (volume_handler resp w).
Proof. benign. Qed.
Lemma coreinv_update_volume p w : CoreInv gone w → CoreInv gone (update_volume p w).
Proof. benign. Qed.
Lemma coreinv_update_currentApp a w : CoreInv gone w → CoreInv gone (update_currentApp a w).
Proof. benign. Qed.
Lemma coreinv_moveMouse chk dx dy w : CoreInv gone w → CoreInv gone (moveMouse chk dx dy w).
Proof. benign. Qed.
Lemma coreinv_connect_loaded c w : CoreInv gone w → CoreInv gone (connect_loaded c w).
Proof. benign. Qed.
Lemma coreinv_main_onerror sock s d w : CoreInv gone w → CoreInv gone (main_onerror sock s d w).
Proof. benign. Qed.
Lemma coreinv_main_onclose sock s w : CoreInv gone w → CoreInv gone (main_onclose sock s w).
Proof. benign. Qed.
Lemma coreinv_set_socket n s w : CoreInv gone w → CoreInv gone (set_socket n s w).
Proof. unfold set_socket. benign. Qed.
Lemma coreinv_setStatusCallback cb w : CoreInv gone w → CoreInv gone (setStatusCallback cb w).
Proof. unfold setStatusCallback. benign. Qed.
End CoreInvBenign.

#[global] Hint Resolve coreinv_upd_status coreinv_upd_clientKey coreinv_upd_tvIp
  coreinv_upd_pointerWs coreinv_upd_onStatusChange coreinv_set_sockets coreinv_set_calls
  coreinv_set_timers coreinv_set_writes coreinv_set_disk coreinv_emit coreinv_setStatus
  coreinv_saveConfig coreinv_setTimeout coreinv_clearTimeout coreinv_ws_close
  coreinv_connect_loop coreinv_fail coreinv_registered_then
  coreinv_setupPointerSocket_resume coreinv_foreground_handler coreinv_volume_handler
  coreinv_update_volume coreinv_update_currentApp coreinv_moveMouse
  coreinv_connect_loaded coreinv_main_onerror coreinv_main_onclose coreinv_set_socket
  coreinv_setStatusCallback : coreinv.
#[global] Hint Extern 1 (bool_decide _ = true) => reflexivity : coreinv.

Lemma send_main_quiet msg w w' : send_main msg w = inl w' → emits quiet w w' ∧ frame [] w w'.
Proof.
  intros H. apply send_main_inl in H as [-> | [n ->]]; split;
    unfold quiet; eauto with emits frame.
Qed.

Lemma coreinv_send_main gone msg w w' :
  send_main msg w = inl w' → CoreInv gone w → CoreInv gone w'.
Proof.
  intros H. apply send_main_inl in H as [-> | [n ->]]; eauto with coreinv.
Qed.

Lemma coreinv_sendMain gone msg a w :
  nonempty_string (assoc "id" msg) = None →
  CoreInv gone w → CoreInv gone (sendMain msg a w).
Proof.
  intros Hmsg I. unfold sendMain. rewrite Hmsg. unfold nextId.
  destruct (is_open _ _); [ | by eauto with coreinv ]. cbv beta iota zeta.
  eapply (coreinv_fresh gone w); try exact I; try reflexivity.
  - repeat case_match; sent; reflexivity.
  - repeat case_match; sent; reflexivity.
  - left. repeat case_match; sent; reflexivity.
  - left. repeat case_match; sent; reflexivity.
  - by intros i a0 [= <- _].
  - unfold quiet. follow emits.
Qed.
#[global] Hint Resolve coreinv_sendMain : coreinv.
#[global] Hint Extern 1 (nonempty_string (assoc _ _) = None) => reflexivity : coreinv.

Lemma coreinv_setupPointerSocket gone w :
  CoreInv gone w → CoreInv gone (setupPointerSocket w).
Proof. intros. unfold setupPointerSocket. eauto with coreinv. Qed.

Lemma coreinv_subscribeToStatus gone w :
  CoreInv gone w → CoreInv gone (subscribeToStatus w).
Proof.
  intros I. unfold subscribeToStatus, nextId. cbv beta iota zeta.
  match goal with
  | |- context [send_main ?m ?w1] =>
      assert (I1 : CoreInv gone w1);
      [ | destruct (send_main m w1) as [w1' | ?] eqn:E1; [ | exact I1 ];
          apply (coreinv_send_main gone) in E1; [ | exact I1 ]; clear I1 ]
  end.
  { eapply (coreinv_fresh gone w); try exact I; try reflexivity.
    - right. split; [reflexivity | by auto].
    - by left.
    - done.
    - unfold quiet. eauto with emits. }
  match goal with
  | |- context [send_main ?m ?w2] =>
      assert (I2 : CoreInv gone w2);
      [ | destruct (send_main m w2) as [w2' | ?] eqn:E2; [ | exact I2 ];
          by apply (coreinv_send_main gone) in E2 ]
  end.
  eapply (coreinv_fresh gone w1'); try exact E1; try reflexivity.
  - right. split; [reflexivity | by auto].
  - by left.
  - done.
  - unfold quiet. eauto with emits.
Qed.
#[global] Hint Resolve coreinv_setupPointerSocket coreinv_subscribeToStatus : coreinv.

Lemma coreinv_register_handler gone id sock resp w :
  CoreInv gone w → CoreInv gone (register_handler id sock resp w).
Proof. intros. unfold register_handler. follow coreinv. Qed.
#[global] Hint Resolve coreinv_register_handler : coreinv.

Lemma coreinv_invoke_other gone h resp w :
  (∀ i a, h ≠ H_resolve i a) → CoreInv gone w → CoreInv gone (invoke h resp w).
Proof.
  intros Hh I. destruct h; simpl; [by edestruct Hh | eauto with coreinv ..].
Qed.

Lemma coreinv_sendButton gone key w : CoreInv gone w → CoreInv gone (sendButton key w).
Proof. intros. unfold sendButton. follow coreinv. Qed.
Lemma coreinv_sendInput gone text w : CoreInv gone w → CoreInv gone (sendInput text w).
Proof. intros. unfold sendInput. follow coreinv. Qed.

Lemma tv_ws_close h w : tv (ws_close h w) = tv w.
Proof. by destruct h. Qed.
Lemma tv_notify w : tv (notify w) = tv w.
Proof. unfold notify. by case_match. Qed.
Lemma tv_setStatus s w : tv (setStatus s w) = set_status s (tv w).
Proof. unfold setStatus. by rewrite tv_notify. Qed.

Lemma tv_disconnect w :
  tv (disconnect w) =
  mkTVConnection None None disconnected (tvIp (tv w)) (clientKey (tv w)) (msgId (tv w))
    ∅ ∅ None JNull JNull JNull (onStatusChange (tv w)).
Proof.
  unfold disconnect. cbv zeta. simpl. rewrite tv_setStatus. simpl.
  by rewrite !tv_ws_close.
Qed.

Lemma coreinv_disconnect gone w : CoreInv gone w → CoreInv gone (disconnect w).
Proof.
  intros I. eapply (coreinv_clear gone w); try exact I;
    try (by rewrite tv_disconnect).
  unfold disconnect, quiet. follow emits.
Qed.
#[global] Hint Resolve coreinv_sendButton coreinv_sendInput coreinv_disconnect : coreinv.

Lemma coreinv_connect gone addr w : CoreInv gone w → CoreInv gone (connect addr w).
Proof. intros. unfold connect. follow coreinv. Qed.

Lemma coreinv_register gone LG sock w : CoreInv gone w → CoreInv gone (register LG sock w).
Proof.
  intros I. unfold register, nextId. cbv beta iota zeta.
  match goal with
  | |- context [send_main ?m ?w1] =>
      assert (I1 : CoreInv gone w1);
      [ | destruct (send_main m w1) as [w1' | ?] eqn:E1;
          [ apply (coreinv_send_main gone) in E1 | ]; eauto with coreinv ]
  end.
  eapply (coreinv_fresh gone w); try exact I; try reflexivity.
  - by left.
  - right. split; [reflexivity | done].
  - done.
  - unfold quiet. eauto with emits.
Qed.
#[global] Hint Resolve coreinv_connect coreinv_register : coreinv.

Lemma coreinv_main_onopen gone LG sock w :
  CoreInv gone w → CoreInv gone (main_onopen LG sock w).
Proof. intros. unfold main_onopen. follow coreinv. Qed.

Lemma coreinv_run_timer gone t w : CoreInv gone w → CoreInv gone (run_timer t w).
Proof.
  intros I. destruct t as [sock | id sock | id]; simpl.
  - follow coreinv.
  - destruct (pendingRequests (tv w) !! id) eqn:E; [ | done ].
    apply coreinv_fail, coreinv_emit; [done |].
    apply (coreinv_weaken gone ({[id]} ∪ gone)); [set_solver |].
    eapply (coreinv_delete gone w); try exact I; try reflexivity; eauto.
    unfold quiet; eauto with emits.
  - destruct (pendingRequests (tv w) !! id) eqn:E; [ | done ].
    apply (coreinv_weaken gone ({[id]} ∪ gone)); [set_solver |].
    eapply (coreinv_settle gone w); try exact I; try reflexivity; eauto.
    right. eauto.
Qed.
#[global] Hint Resolve coreinv_main_onopen coreinv_run_timer : coreinv.

Lemma coreinv_dispatch gone resp id h w :
  CoreInv gone w →
  get_field resp "id" = Some (JStr id) →
  pendingRequests (tv w) !! id = Some h →
  CoreInv (if removes resp id w then {[id]} ∪ gone else gone)
    (handleMainMessage (Some resp) w).
Proof.
  intros I Hid Hh. unfold handleMainMessage, removes.
  assert (resp ≠ JNull) by (intros ->; done).
  destruct resp; try done. rewrite Hid, Hh. simpl fmap. cbv beta iota zeta.
  set (isSub := bool_decide (id ∈ subscriptionIds (tv w))).
  set (isReg := bool_decide (registrationRequestId (tv w) = Some id)).
  set (done_ := _ || _ || _).
  destruct (ci_pending gone w I id h Hh) as (Kn & Kc & Kg & Kr & Kf).
  assert (Hcase : (∃ i a, h = H_resolve i a) ∨ ∀ i a, h ≠ H_resolve i a)
    by (destruct h; eauto).
  destruct Hcase as [(i & a & ->) | Hn'].
  - destruct (Kr i a eq_refl) as (-> & Ks & Kreg).
    assert (isSub = false) as -> by (by apply bool_decide_eq_false).
    assert (isReg = false) as -> by (by apply bool_decide_eq_false).
    simpl. destruct a; [ | apply coreinv_setupPointerSocket_resume ];
      (eapply (coreinv_settle gone w); try exact I; try reflexivity; eauto;
       left; eauto).
  - apply coreinv_invoke_other; [done |].
    destruct isSub, isReg, done_; simpl; try exact I;
      (eapply (coreinv_delete gone w); try exact I; try reflexivity; eauto;
       unfold quiet; eauto with emits).
Qed.

Lemma handleMainMessage_found resp id h w :
  get_field resp "id" = Some (JStr id) →
  pendingRequests (tv w) !! id = Some h →
  handleMainMessage (Some resp) w =
  invoke h resp
    (if negb (bool_decide (id ∈ subscriptionIds (tv w)))
        && negb (bool_decide (registrationRequestId (tv w) = Some id))
     then pending_delete id w
     else if bool_decide (registrationRequestId (tv w) = Some id)
             && (type_is resp "registered" || type_is resp "error"
                 || is_string (opt_field (get_field resp "payload") "client-key"))
          then upd_tv (set_registrationRequestId None) (pending_delete id w)
          else w).
Proof.
  intros Hid Hh. unfold handleMainMessage.
  destruct resp; try done. by rewrite Hid, Hh.
Qed.

Lemma handleMainMessage_unsolicited resp w :
  handler_for resp w = None → handleMainMessage (Some resp) w = unsolicited resp w.
Proof.
  unfold handleMainMessage, handler_for, unsolicited. intros ->.
  destruct resp; try done.
Qed.

Lemma handler_for_Some resp w id h :
  handler_for resp w = Some (id, h) →
  get_field resp "id" = Some (JStr id) ∧ pendingRequests (tv w) !! id = Some h.
Proof.
  unfold handler_for. repeat case_match; try done.
  destruct (pendingRequests (tv w) !! _) eqn:E; simpl; [ | done ].
  by intros [= <- <-].
Qed.

Lemma coreinv_unsolicited gone resp w : CoreInv gone w → CoreInv gone (unsolicited resp w).
Proof. intros. unfold unsolicited. follow coreinv. Qed.

Lemma coreinv_handleMainMessage gone parsed w :
  CoreInv gone w → CoreInv gone (handleMainMessage parsed w).
Proof.
  intros I. destruct parsed as [resp|]; [ | done ].
  destruct (handler_for resp w) as [[id h]|] eqn:E.
  - apply handler_for_Some in E as [Hid Hh].
    pose proof (coreinv_dispatch gone resp id h w I Hid Hh) as D.
    destruct (removes resp id w); [ | done ].
    eapply coreinv_weaken; [ | exact D ]. set_solver.
  - rewrite handleMainMessage_unsolicited by done. by apply coreinv_unsolicited.
Qed.
#[global] Hint Resolve coreinv_handleMainMessage : coreinv.

Lemma coreinv_step gone LG chk ev w : CoreInv gone w → CoreInv gone (step LG chk ev w).
Proof. intros I. destruct ev; simpl; follow coreinv. Qed.

Lemma coreinv_new d : CoreInv ∅ (new_World d).
Proof. split; simpl; try done; intros; lia. Qed.

Lemma coreinv_reachable LG chk w : reachable LG chk w → CoreInv ∅ w.
Proof. induction 1; [apply coreinv_new | by apply coreinv_step]. Qed.

Create HintDb callinv discriminated.
#[global] Hint Constants Opaque : callinv.

Lemma callinv_benign w0 w : frame outside_calls w0 w → CallInv w0 → CallInv w.
Proof.
  intros Hf I. unfold CallInv. rewrite <- (frame_calls _ _ _ Hf); [done | compute_done].
Qed.

Ltac calm :=
  intros; eapply callinv_benign; [ | eassumption ];
  unfold outside_calls; eauto 10 with frame.

Section CallInvBenign.
Implicit Types w : World.

Lemma callinv_upd_tv f w : CallInv w → CallInv (upd_tv f w).
Proof. done. Qed.
Lemma callinv_set_sockets v w : CallInv w → CallInv (set_sockets v w).
Proof. done. Qed.
Lemma callinv_set_timers v w : CallInv w → CallInv (set_timers v w).
Proof. done. Qed.
Lemma callinv_set_writes v w : CallInv w → CallInv (set_writes v w).
Proof. done. Qed.
Lemma callinv_set_disk v w : CallInv w → CallInv (set_disk v w).
Proof. done. Qed.
Lemma callinv_emit e w : CallInv w → CallInv (emit e w).
Proof. done. Qed.
Lemma callinv_pending_set id h w : CallInv w → CallInv (pending_set id h w).
Proof. done. Qed.
Lemma callinv_pending_delete id w : CallInv w → CallInv (pending_delete id w).
Proof. done. Qed.
Lemma callinv_set_socket n s w : CallInv w → CallInv (set_socket n s w).
Proof. done. Qed.
Lemma callinv_setStatusCallback cb w : CallInv w → CallInv (setStatusCallback cb w).
Proof. done. Qed.
Lemma callinv_setStatus s w : CallInv w → CallInv (setStatus s w).
Proof. calm. Qed.
Lemma callinv_saveConfig w : CallInv w → CallInv (saveConfig w).
Proof. calm. Qed.
Lemma callinv_setTimeout t w : CallInv w → CallInv (setTimeout t w).
Proof. calm. Qed.
Lemma callinv_clearTimeout t w : CallInv w → CallInv (clearTimeout t w).
Proof. calm. Qed.
Lemma callinv_ws_close h w : CallInv w → CallInv (ws_close h w).
Proof. calm. Qed.
Lemma callinv_sendMain msg a w : CallInv w → CallInv (sendMain msg a w).
Proof. calm. Qed.
Lemma callinv_connectWebSocket c u w : CallInv w → CallInv (connectWebSocket c u w).
Proof. calm. Qed.
Lemma callinv_subscribeToStatus w : CallInv w → CallInv (subscribeToStatus w).
Proof. calm. Qed.
Lemma callinv_setupPointerSocket w : CallInv w → CallInv (setupPointerSocket w).
Proof. calm. Qed.
Lemma callinv_setupPointerSocket_resume resp w :
  CallInv w → CallInv (setupPointerSocket_resume resp w).
Proof. calm. Qed.
Lemma callinv_foreground_handler resp w : CallInv w → CallInv (foreground_handler resp w).
Proof. calm. Qed.
Lemma callinv_volume_handler resp w : CallInv w → CallInv (volume_handler resp w).
Proof. calm. Qed.
Lemma callinv_update_volume p w : CallInv w → CallInv (update_volume p w).
Proof. calm. Qed.
Lemma callinv_update_currentApp a w : CallInv w → CallInv (update_currentApp a w).
Proof. calm. Qed.
Lemma callinv_moveMouse chk dx dy w : CallInv w → CallInv (moveMouse chk dx dy w).
Proof. calm. Qed.
Lemma callinv_sendButton key w : CallInv w → CallInv (sendButton key w).
Proof. calm. Qed.
Lemma callinv_sendInput text w : CallInv w → CallInv (sendInput text w).
Proof. calm. Qed.
Lemma callinv_disconnect w : CallInv w → CallInv (disconnect w).
Proof. calm. Qed.
End CallInvBenign.

#[global] Hint Resolve callinv_upd_tv callinv_set_sockets callinv_set_timers
  callinv_set_writes callinv_set_disk callinv_emit callinv_pending_set
  callinv_pending_delete callinv_set_socket callinv_setStatusCallback callinv_setStatus
  callinv_saveConfig callinv_setTimeout callinv_clearTimeout callinv_ws_close
  callinv_sendMain callinv_connectWebSocket callinv_subscribeToStatus
  callinv_setupPointerSocket callinv_setupPointerSocket_resume
  callinv_foreground_handler callinv_volume_handler callinv_update_volume
  callinv_update_currentApp callinv_moveMouse callinv_sendButton callinv_sendInput
  callinv_disconnect : callinv.

Lemma callinv_set_call c call w : call_ok call → CallInv w → CallInv (set_call c call w).
Proof.
  intros Hok I c' call'. unfold set_call. simpl.
  destruct (decide (c = c')) as [<- | Hne].
  - destruct (decide (c < length (calls w))%nat).
    + rewrite list_lookup_insert_eq by done. by intros [= <-].
    + rewrite list_insert_ge by lia. apply I.
  - rewrite list_lookup_insert_ne by done. apply I.
Qed.

Lemma callinv_connect_loop c call urls w :
  (∃ tried, wsUrls (ip call) = (tried.*1 ++ urls)%list
            ∧ errors call = attempt_entry <$> tried) →
  CallInv w → CallInv (connect_loop c call urls w).
Proof.
  intros (tried & Hu & He) I. unfold connect_loop. destruct urls as [|u rest].
  - apply callinv_emit, callinv_set_call; [ | by apply callinv_setStatus ].
    exists tried. simpl. by rewrite app_nil_r in Hu.
  - apply callinv_connectWebSocket, callinv_set_call; [ | by apply callinv_setStatus ].
    by exists tried.
Qed.

Lemma callinv_connect_catch c m w : CallInv w → CallInv (connect_catch c m w).
Proof.
  intros I. unfold connect_catch.
  destruct (calls w !! c) as [call|] eqn:E; [ | done ].
  destruct (phase call) as [ | wsUrl rest | | ] eqn:P; try done.
  pose proof (I c call E) as Hok. unfold call_ok in Hok. rewrite P in Hok.
  destruct Hok as (tried & Hu & He).
  apply callinv_connect_loop; [ | by eauto with callinv ].
  exists (tried ++ [(wsUrl, m)])%list. simpl.
  rewrite fmap_app, <- app_assoc. split; [done |].
  by rewrite fmap_app, He.
Qed.

Lemma callinv_connect_return c w : CallInv w → CallInv (connect_return c w).
Proof.
  intros I. unfold connect_return. case_match; [ | done ].
  by apply callinv_emit, callinv_set_call.
Qed.
#[global] Hint Resolve callinv_connect_catch callinv_connect_return : callinv.

Lemma callinv_fail sock m w : CallInv w → CallInv (fail sock m w).
Proof. intros. unfold fail. follow callinv. Qed.
Lemma callinv_registered_then sock w : CallInv w → CallInv (registered_then sock w).
Proof. intros. unfold registered_then. follow callinv. Qed.
#[global] Hint Resolve callinv_fail callinv_registered_then : callinv.

Lemma callinv_register_handler id sock resp w :
  CallInv w → CallInv (register_handler id sock resp w).
Proof. intros. unfold register_handler. follow callinv. Qed.
#[global] Hint Resolve callinv_register_handler : callinv.

Lemma callinv_invoke h resp w : CallInv w → CallInv (invoke h resp w).
Proof. intros. unfold invoke. follow callinv. Qed.
#[global] Hint Resolve callinv_invoke : callinv.

Lemma callinv_handleMainMessage parsed w : CallInv w → CallInv (handleMainMessage parsed w).
Proof.
  intros. unfold handleMainMessage.
  cbv beta zeta; repeat (case_match; cbv beta iota zeta); simplify_eq;
    eauto 40 with callinv.
Qed.

Lemma callinv_register LG sock w : CallInv w → CallInv (register LG sock w).
Proof. intros. unfold register, nextId. follow callinv. Qed.
#[global] Hint Resolve callinv_handleMainMessage callinv_register : callinv.

Lemma callinv_connect addr w : CallInv w → CallInv (connect addr w).
Proof.
  intros I. unfold connect. cbv zeta. intros c call. simpl.
  rewrite lookup_app_Some. intros [Hc | [_ Hc]].
  - revert c call Hc. change (CallInv (setStatus connecting
      (upd_tv (set_tvIp (Some addr))
         match mainWs (tv w) with Some _ => disconnect w | None => w end))).
    follow callinv.
  - apply list_lookup_singleton_Some in Hc as [_ <-]. done.
Qed.

Lemma callinv_connect_loaded c w : CallInv w → CallInv (connect_loaded c w).
Proof.
  intros I. unfold connect_loaded.
  destruct (calls w !! c) as [call|] eqn:E; [ | done ].
  destruct (phase call) eqn:P; try done.
  pose proof (I c call E) as Hok. unfold call_ok in Hok. rewrite P in Hok.
  apply callinv_connect_loop; [ by exists [] | ].
  follow callinv.
Qed.

Lemma callinv_main_onopen LG sock w : CallInv w → CallInv (main_onopen LG sock w).
Proof. intros. unfold main_onopen. follow callinv. Qed.
Lemma callinv_main_onerror sock s d w : CallInv w → CallInv (main_onerror sock s d w).
Proof. intros. unfold main_onerror. follow callinv. Qed.
Lemma callinv_main_onclose sock s w : CallInv w → CallInv (main_onclose sock s w).
Proof. intros. unfold main_onclose. follow callinv. Qed.
Lemma callinv_run_timer t w : CallInv w → CallInv (run_timer t w).
Proof. intros. unfold run_timer. follow callinv. Qed.
#[global] Hint Resolve callinv_connect callinv_connect_loaded callinv_main_onopen
  callinv_main_onerror callinv_main_onclose callinv_run_timer : callinv.

Lemma callinv_step LG chk ev w : CallInv w → CallInv (step LG chk ev w).
Proof. intros I. destruct ev; simpl; follow callinv. Qed.

Lemma callinv_reachable LG chk w : reachable LG chk w → CallInv w.
Proof.
  induction 1; [ | by apply callinv_step ]. intros c call. simpl. by rewrite lookup_nil.
Qed.

Create HintDb rejects discriminated.
#[global] Hint Constants Opaque : rejects.

Lemma rejects_quiet w0 w : emits nothrow w0 w → rejects w0 w.
Proof.
  intros (l & E & Hl). exists l. split; [done |]. intros c m Hin.
  rewrite Forall_forall in Hl. apply Hl in Hin. simpl in Hin.
  apply list_elem_of_In in Hin. simpl in Hin. intuition discriminate.
Qed.

Lemma calls_ws_close h w : calls (ws_close h w) = calls w.
Proof. by destruct h. Qed.
Lemma calls_notify w : calls (notify w) = calls w.
Proof. unfold notify. by case_match. Qed.
Lemma calls_setStatus s w : calls (setStatus s w) = calls w.
Proof. unfold setStatus. by rewrite calls_notify. Qed.

Lemma rejects_connect_loop c call urls w0 w :
  (c < length (calls w))%nat →
  emits nothrow w0 w → rejects w0 (connect_loop c call urls w).
Proof.
  intros Hc He. unfold connect_loop. destruct urls as [|u rest].
  - destruct He as (l & E & Hl).
    assert (Hn : emits [KNotify] w (setStatus disconnected w)) by eauto with emits.
    destruct Hn as (ln & En & Hln).
    eexists (l ++ ln ++ [ConnectThrew c _])%list. split.
    { simpl. rewrite En, E. by rewrite <- !app_assoc. }
    intros c' m'. rewrite !elem_of_app, list_elem_of_singleton.
    intros [Hin | [Hin | Heq]].
    + rewrite Forall_forall in Hl. apply Hl in Hin. simpl in Hin.
      apply list_elem_of_In in Hin. simpl in Hin. intuition discriminate.
    + rewrite Forall_forall in Hln. apply Hln in Hin. simpl in Hin.
      apply list_elem_of_In in Hin. simpl in Hin. intuition discriminate.
    + injection Heq as -> ->. simpl. rewrite tv_setStatus. split; [done |].
      eexists. rewrite list_lookup_insert_eq by (by rewrite calls_setStatus).
      by split.
  - apply rejects_quiet. unfold nothrow. eauto 10 with emits.
Qed.

Lemma rejects_connect_catch c m w0 w :
  emits nothrow w0 w → rejects w0 (connect_catch c m w).
Proof.
  intros He. unfold connect_catch.
  destruct (calls w !! c) as [call|] eqn:E; [ | by apply rejects_quiet ].
  destruct (phase call); try by apply rejects_quiet.
  apply rejects_connect_loop.
  - repeat first [ rewrite calls_ws_close | progress simpl ]. by eapply lookup_lt_Some.
  - unfold nothrow. eauto 10 with emits.
Qed.

Lemma rejects_fail sock m w0 w : emits nothrow w0 w → rejects w0 (fail sock m w).
Proof.
  intros He. unfold fail. repeat case_match; try by apply rejects_quiet.
  apply rejects_connect_catch. unfold nothrow. eauto 10 with emits.
Qed.

Lemma rejects_connect_loaded c w0 w :
  emits nothrow w0 w → rejects w0 (connect_loaded c w).
Proof.
  intros He. unfold connect_loaded.
  destruct (calls w !! c) as [call|] eqn:E; [ | by apply rejects_quiet ].
  destruct (phase call); try by apply rejects_quiet.
  apply rejects_connect_loop.
  - apply lookup_lt_Some in E. by repeat case_match.
  - unfold nothrow. follow emits.
Qed.

#[global] Hint Resolve rejects_fail rejects_connect_loaded | 0 : rejects.
#[global] Hint Resolve rejects_quiet | 20 : rejects.
#[global] Hint Extern 1 (emits nothrow _ _) => (unfold nothrow; eauto 40 with emits) : rejects.

Tactic Notation "tail" :=
  cbv beta zeta; repeat (case_match; cbv beta iota zeta); simplify_eq; sent;
  eauto 10 with rejects.

Lemma rejects_register_handler id sock resp w0 w :
  emits nothrow w0 w → rejects w0 (register_handler id sock resp w).
Proof. intros. unfold register_handler. tail. Qed.
#[global] Hint Resolve rejects_register_handler | 0 : rejects.

Lemma rejects_invoke h resp w0 w : emits nothrow w0 w → rejects w0 (invoke h resp w).
Proof. intros. unfold invoke. tail. Qed.
#[global] Hint Resolve rejects_invoke | 0 : rejects.

Lemma rejects_handleMainMessage parsed w0 w :
  emits nothrow w0 w → rejects w0 (handleMainMessage parsed w).
Proof. intros. unfold handleMainMessage. tail. Qed.

Lemma rejects_register LG sock w0 w :
  emits nothrow w0 w → rejects w0 (register LG sock w).
Proof. intros. unfold register, nextId. tail. Qed.
#[global] Hint Resolve rejects_handleMainMessage rejects_register | 0 : rejects.

Lemma rejects_main_onopen LG sock w0 w :
  emits nothrow w0 w → rejects w0 (main_onopen LG sock w).
Proof. intros. unfold main_onopen. tail. Qed.
Lemma rejects_main_onerror sock s d w0 w :
  emits nothrow w0 w → rejects w0 (main_onerror sock s d w).
Proof. intros. unfold main_onerror. tail. Qed.
Lemma rejects_main_onclose sock s w0 w :
  emits nothrow w0 w → rejects w0 (main_onclose sock s w).
Proof. intros. unfold main_onclose. tail. Qed.
Lemma rejects_run_timer t w0 w : emits nothrow w0 w → rejects w0 (run_timer t w).
Proof. intros. unfold run_timer. tail. Qed.
#[global] Hint Resolve rejects_main_onopen rejects_main_onerror rejects_main_onclose
  rejects_run_timer | 0 : rejects.

Lemma rejects_step LG chk ev w : rejects w (step LG chk ev w).
Proof.
  pose proof (emits_refl nothrow w). destruct ev; simpl; tail.
Qed.

Lemma emitted_app w0 w l : trace w = (trace w0 ++ l)%list → emitted w0 w = l.
Proof. intros E. unfold emitted. by rewrite E, drop_app_length. Qed.

Lemma emits_emitted ks w0 w :
  emits ks w0 w → ∀ e, e ∈ emitted w0 w → kind_of e ∈ ks.
Proof.
  intros (l & E & Hl) e. rewrite (emitted_app _ _ _ E).
  rewrite Forall_forall in Hl. apply Hl.
Qed.

(** ** C10 *)

(** C10: the notification that disconnect() emits reports 'disconnected'
    together with the app, volume and mute values of the session being torn
    down, because the fields are reset after the listener has been called;
    tvIp is not reset at all, so getStatus() keeps reporting the last
    address. *)
Theorem disconnect_notifies_before_reset (w : World) (cb : nat) :
  onStatusChange (tv w) = Some cb →
  emitted w (disconnect w) =
    [Notify cb (TVStatus.mk disconnected (tvIp (tv w)) (currentApp (tv w))
                  (volume (tv w)) (muted (tv w)))]
  ∧ getStatus (tv (disconnect w)) =
      TVStatus.mk disconnected (tvIp (tv w)) JNull JNull JNull.
Proof.
  intros Hcb. split; [ | by rewrite tv_disconnect ].
  apply emitted_app. unfold disconnect, setStatus, notify. cbv zeta. simpl.
  rewrite !tv_ws_close, Hcb. simpl. by destruct (mainWs (tv w)), (pointerWs (tv w)).
Qed.

(** ** Sample sessions *)

Lemma disconnect_notifies_before_reset_witness :
  onStatusChange (tv ready_session) = Some 0
  ∧ emitted ready_session (disconnect ready_session) =
      [Notify 0 (TVStatus.mk disconnected (Some "10.0.0.5") (JStr "netflix")
                   (JNum 10) (JBool false))]
  ∧ getStatus (tv (disconnect ready_session)) =
      TVStatus.mk disconnected (Some "10.0.0.5") JNull JNull JNull.
Proof.
  split; [reflexivity |].
  apply (disconnect_notifies_before_reset ready_session 0). reflexivity.
Defined.

(** ** C8 *)

Lemma sockets_notify w : sockets (notify w) = sockets w.
Proof. unfold notify. by case_match. Qed.

Lemma disconnect_rest w :
  sockets (disconnect w) =
    sockets (ws_close (pointerWs (tv w)) (ws_close (mainWs (tv w)) w))
  ∧ calls (disconnect w) = calls w ∧ timers (disconnect w) = timers w
  ∧ writes (disconnect w) = writes w ∧ disk (disconnect w) = disk w.
Proof.
  unfold disconnect, setStatus, notify. cbv zeta. simpl. rewrite !tv_ws_close.
  destruct (onStatusChange (tv w)), (mainWs (tv w)), (pointerWs (tv w)); done.
Qed.

Lemma tv_disconnect_again w : tv (disconnect (disconnect w)) = tv (disconnect w).
Proof. rewrite (tv_disconnect (disconnect w)). by rewrite !(tv_disconnect w). Qed.

Lemma sockets_disconnect_again w :
  sockets (disconnect (disconnect w)) = sockets (disconnect w).
Proof.
  destruct (disconnect_rest (disconnect w)) as (-> & _).
  by rewrite (tv_disconnect w).
Qed.

Lemma disconnect_again_fields w :
  getStatus (tv (disconnect (disconnect w))) =
    TVStatus.mk disconnected (tvIp (tv w)) JNull JNull JNull
  ∧ pendingRequests (tv (disconnect (disconnect w))) = ∅
  ∧ subscriptionIds (tv (disconnect (disconnect w))) = ∅
  ∧ mainWs (tv (disconnect (disconnect w))) = None
  ∧ pointerWs (tv (disconnect (disconnect w))) = None.
Proof.
  rewrite tv_disconnect_again, (tv_disconnect w).
  do 4 (split; [reflexivity |]). reflexivity.
Qed.

Lemma disconnect_only_notifies w :
  Forall (fun e => kind_of e = KNotify) (emitted w (disconnect w)).
Proof.
  assert (He : emits [KNotify] w (disconnect w))
    by (apply emits_disconnect; eauto with emits).
  destruct He as (l & E & Hl). rewrite (emitted_app _ _ _ E).
  eapply Forall_impl; [exact Hl |]. intros e He. simpl in He.
  by apply list_elem_of_singleton in He.
Qed.

(** C8: a second disconnect() in a row changes nothing: the object, the
    sockets, the timers and the calls are as the first one left them, with
    the session 'disconnected', both maps empty, both transports null and
    app, volume and mute cleared; all it does is notify the listener again,
    and no error is raised. *)
Theorem disconnect_idempotent (w : World) :
  (tv (disconnect (disconnect w)) = tv (disconnect w)
   ∧ sockets (disconnect (disconnect w)) = sockets (disconnect w)
   ∧ calls (disconnect (disconnect w)) = calls (disconnect w)
   ∧ timers (disconnect (disconnect w)) = timers (disconnect w)
   ∧ writes (disconnect (disconnect w)) = writes (disconnect w)
   ∧ disk (disconnect (disconnect w)) = disk (disconnect w))
  ∧ (getStatus (tv (disconnect (disconnect w))) =
       TVStatus.mk disconnected (tvIp (tv w)) JNull JNull JNull
     ∧ pendingRequests (tv (disconnect (disconnect w))) = ∅
     ∧ subscriptionIds (tv (disconnect (disconnect w))) = ∅
     ∧ mainWs (tv (disconnect (disconnect w))) = None
     ∧ pointerWs (tv (disconnect (disconnect w))) = None)
  ∧ Forall (fun e => kind_of e = KNotify)
      (emitted (disconnect w) (disconnect (disconnect w))).
Proof.
  split; [ | split; [apply disconnect_again_fields | apply disconnect_only_notifies] ].
  destruct (disconnect_rest (disconnect w)) as (_ & Hc & Ht & Hw & Hd).
  split; [apply tv_disconnect_again |]. split; [apply sockets_disconnect_again |].
  by repeat split.
Qed.

(** ** C9 *)

Lemma int16_bytes_value v :
  int16_range v = true →
  is_byte (v mod 256) ∧ is_byte ((v / 256) mod 256)
  ∧ int16_value (v mod 256) ((v / 256) mod 256) = v.
Proof.
  unfold int16_range, int16_value, is_byte. intros H.
  apply andb_prop in H as [Hlo Hhi].
  apply Z.leb_le in Hlo, Hhi.
  split; [apply Z.mod_pos_bound; lia |]. split; [apply Z.mod_pos_bound; lia |].
  case_match; [apply Z.ltb_lt in H | apply Z.ltb_ge in H];
    Z.to_euclidean_division_equations; lia.
Qed.

Lemma int16_value_range lo hi :
  is_byte lo → is_byte hi → int16_range (int16_value lo hi) = true.
Proof.
  unfold int16_range, int16_value, is_byte. intros Hlo Hhi.
  apply andb_true_intro. rewrite !Z.leb_le.
  case_match; [apply Z.ltb_lt in H | apply Z.ltb_ge in H]; lia.
Qed.

(** C9 (as the code has it): without an open pointer socket moveMouse does
    nothing, whatever dx and dy are; with one, and with both rounded deltas
    inside the signed 16-bit range, it sends exactly one frame of six
    bytes, 1 and 0 followed by the little-endian two's-complement bytes of
    round(dx) and round(dy), and raises nothing. *)
Theorem moveMouse_frame (chk : bool) (dx dy : Q) (w : World) :
  (is_open (pointerWs (tv w)) w = false → moveMouse chk dx dy w = w)
  ∧ ∀ sock, pointerWs (tv w) = Some sock → is_open (Some sock) w = true →
      int16_range (Math_round dx) = true → int16_range (Math_round dy) = true →
      moveMouse chk dx dy w =
        emit (SendBytes sock (1 :: 0 :: int16_bytes (Math_round dx)
                                ++ int16_bytes (Math_round dy))%Z) w
      ∧ sends_int16_frame chk dx dy w.
Proof.
  split.
  - unfold moveMouse. destruct (pointerWs (tv w)) as [sock|]; [ | done ].
    by intros ->.
  - intros sock Hp Ho Hx Hy.
    assert (E : moveMouse chk dx dy w =
                emit (SendBytes sock (1 :: 0 :: int16_bytes (Math_round dx)
                                        ++ int16_bytes (Math_round dy))%Z) w).
    { unfold moveMouse, writeInt16LE. by rewrite Hp, Ho, Hx, Hy. }
    split; [exact E |]. unfold sends_int16_frame. rewrite E.
    destruct (int16_bytes_value _ Hx) as (? & ? & ?).
    destruct (int16_bytes_value _ Hy) as (? & ? & ?).
    eexists sock, _, _, _, _. split; [by apply emitted_app |]. done.
Qed.

Lemma moveMouse_frame_witness :
  is_open (pointerWs (tv (new_World None))) (new_World None) = false
  ∧ moveMouse true (5 # 2) (-7 # 2) (new_World None) = new_World None
  ∧ pointerWs (tv ready_session) = Some 1
  ∧ is_open (Some 1) ready_session = true
  ∧ int16_range (Math_round (5 # 2)) = true
  ∧ int16_range (Math_round (-7 # 2)) = true
  ∧ moveMouse true (5 # 2) (-7 # 2) ready_session =
      emit (SendBytes 1 (1 :: 0 :: int16_bytes (Math_round (5 # 2))
                           ++ int16_bytes (Math_round (-7 # 2)))%Z) ready_session
  ∧ sends_int16_frame true (5 # 2) (-7 # 2) ready_session.
Proof.
  split; [reflexivity |].
  split; [apply (proj1 (moveMouse_frame true (5 # 2) (-7 # 2) (new_World None)));
          reflexivity |].
  do 4 (split; [reflexivity |]).
  apply (proj2 (moveMouse_frame true (5 # 2) (-7 # 2) ready_session) 1); reflexivity.
Defined.

Example moveMouse_rounds_half_up :
  emitted ready_session (moveMouse true (5 # 2) (-7 # 2) ready_session) =
    [SendBytes 1 [1; 0; 3; 0; 253; 255]%Z].
Proof. reflexivity. Qed.

(** C9 as stated fails outside the 16-bit range: at dx = 40000 a runtime
    whose Buffer validates throws and sends nothing, and one that does not
    sends the bytes of -25536; in neither case does a frame encoding 40000
    go out. *)
Lemma moveMouse_out_of_range :
  is_open (pointerWs (tv ready_session)) ready_session = true
  ∧ ¬ sends_int16_frame true 40000 0 ready_session
  ∧ ¬ sends_int16_frame false 40000 0 ready_session
  ∧ emitted ready_session (moveMouse true 40000 0 ready_session) =
      [CommandThrew "ERR_OUT_OF_RANGE"]
  ∧ emitted ready_session (moveMouse false 40000 0 ready_session) =
      [SendBytes 1 [1; 0; 64; 156; 0; 0]%Z].
Proof.
  assert (H : ∀ chk, ¬ sends_int16_frame chk 40000 0 ready_session).
  { intros chk (sock & xlo & xhi & ylo & yhi & _ & Hlo & Hhi & _ & _ & Hv & _).
    pose proof (int16_value_range xlo xhi Hlo Hhi) as Hr.
    rewrite Hv in Hr. discriminate Hr. }
  split; [reflexivity |]. split; [apply H |]. split; [apply H |]. split; reflexivity.
Qed.

(** ** C6 *)

Lemma trace_notify w cb :
  onStatusChange (tv w) = Some cb →
  trace (notify w) = (trace w ++ [Notify cb (getStatus (tv w))])%list.
Proof. intros H. unfold notify. by rewrite H. Qed.

Lemma update_volume_spec p v w cb :
  assoc "volume" p = Some v → onStatusChange (tv w) = Some cb →
  let w' := update_volume (JObj p) w in
  volume (tv w') = v ∧ muted (tv w') = muted_after p (muted (tv w))
  ∧ currentApp (tv w') = currentApp (tv w)
  ∧ onStatusChange (tv w') = Some cb
  ∧ trace w' = (trace w ++ [Notify cb (getStatus (tv w'))])%list.
Proof.
  intros Hv Hcb. unfold update_volume, muted_after. cbv zeta. simpl. rewrite Hv. simpl.
  rewrite tv_notify.
  destruct (assoc "muted" p) as [[]|]; simpl;
    (split_and!; try done; rewrite trace_notify with (cb := cb); done).
Qed.

Lemma update_currentApp_spec a w cb :
  onStatusChange (tv w) = Some cb →
  let w' := update_currentApp a w in
  currentApp (tv w') = default JNull a ∧ volume (tv w') = volume (tv w)
  ∧ muted (tv w') = muted (tv w) ∧ onStatusChange (tv w') = Some cb
  ∧ trace w' = (trace w ++ [Notify cb (getStatus (tv w'))])%list.
Proof.
  intros Hcb. unfold update_currentApp. cbv zeta. rewrite tv_notify. simpl.
  split_and!; try done. by rewrite trace_notify with (cb := cb).
Qed.

(** C6 (as the code has it): the listener is notified whenever the field is
    present in an object payload, whether or not its value differs from the
    stored one: the volume subscription and an unsolicited message on
    "volume" being present (mute is then taken from the payload unless it is
    absent or null), the foreground subscription on a truthy "appId", an
    unsolicited message on "appId" being present.  A payload without the field
    leaves the stored value as it was and emits no notification for it, and a
    payload that is no object changes nothing. *)
Theorem status_notified_on_presence (resp : json) (w : World) (cb : nat) :
  onStatusChange (tv w) = Some cb →
  (∀ p, get_field resp "payload" = Some (JObj p) →
     (match assoc "volume" p with
      | Some v =>
          let w' := volume_handler resp w in
          volume (tv w') = v ∧ muted (tv w') = muted_after p (muted (tv w))
          ∧ currentApp (tv w') = currentApp (tv w)
          ∧ emitted w w' = [Notify cb (getStatus (tv w'))]
      | None => volume_handler resp w = w
      end)
     ∧ (if truthy (assoc "appId" p)
        then
          let w' := foreground_handler resp w in
          currentApp (tv w') = default JNull (assoc "appId" p)
          ∧ volume (tv w') = volume (tv w) ∧ muted (tv w') = muted (tv w)
          ∧ emitted w w' = [Notify cb (getStatus (tv w'))]
        else foreground_handler resp w = w)
     ∧ (handler_for resp w = None →
        let w' := handleMainMessage (Some resp) w in
        currentApp (tv w') = default (currentApp (tv w)) (assoc "appId" p)
        ∧ volume (tv w') = default (volume (tv w)) (assoc "volume" p)
        ∧ muted (tv w') =
            (if present "volume" p then muted_after p (muted (tv w)) else muted (tv w))
        ∧ length (emitted w w') =
            ((if present "appId" p then 1 else 0)
             + (if present "volume" p then 1 else 0))%nat))
  ∧ ((∀ p, get_field resp "payload" ≠ Some (JObj p)) →
     volume_handler resp w = w ∧ foreground_handler resp w = w
     ∧ (handler_for resp w = None → handleMainMessage (Some resp) w = w)).
Proof.
  intros Hcb. split.
  - intros p Hp. split; [ | split ].
    + unfold volume_handler. rewrite Hp. simpl. unfold present.
      destruct (assoc "volume" p) as [v|] eqn:Hv; [ | done ].
      rewrite bool_decide_eq_true_2 by eauto.
      destruct (update_volume_spec p v w cb Hv Hcb) as (? & ? & ? & ? & Ht).
      split_and!; try done. by apply emitted_app.
    + unfold foreground_handler. rewrite Hp. simpl.
      destruct (truthy (assoc "appId" p)); [ | done ].
      destruct (update_currentApp_spec (assoc "appId" p) w cb Hcb) as (? & ? & ? & ? & Ht).
      split_and!; try done. by apply emitted_app.
    + intros Hn. rewrite handleMainMessage_unsolicited by done.
      unfold unsolicited. rewrite Hp. simpl. unfold present.
      destruct (assoc "appId" p) as [a|] eqn:Ha.
      * rewrite (bool_decide_eq_true_2 (is_Some (Some a))) by eauto.
        destruct (update_currentApp_spec (Some a) w cb Hcb) as (Ea & Ev & Em & Ecb & Ht).
        destruct (assoc "volume" p) as [v|] eqn:Hv.
        -- rewrite (bool_decide_eq_true_2 (is_Some (Some v))) by eauto.
           destruct (update_volume_spec p v _ cb Hv Ecb) as (Ev' & Em' & Ea' & _ & Ht').
           rewrite Ev', Em', Ea', Ea, Em. split_and!; try done.
           erewrite emitted_app; [ | rewrite Ht', Ht, <- app_assoc; reflexivity ]. done.
        -- rewrite (bool_decide_eq_false_2 (is_Some None)) by (by intros [? ?]).
           rewrite Ea, Ev, Em. split_and!; try done.
           erewrite emitted_app; [ | exact Ht ]. done.
      * rewrite (bool_decide_eq_false_2 (is_Some None)) by (by intros [? ?]).
        destruct (assoc "volume" p) as [v|] eqn:Hv.
        -- rewrite (bool_decide_eq_true_2 (is_Some (Some v))) by eauto.
           destruct (update_volume_spec p v w cb Hv Hcb) as (Ev' & Em' & Ea' & _ & Ht').
           rewrite Ev', Em', Ea'. split_and!; try done.
           erewrite emitted_app; [ | exact Ht' ]. done.
        -- split_and!; try done. unfold emitted. by rewrite drop_all.
  - intros Hp.
    assert (Hobj : ∀ p, get_field resp "payload" = Some (JObj p) → False)
      by (intros p E; by apply (Hp p)).
    split; [ | split ].
    + unfold volume_handler.
      destruct (get_field resp "payload") as [[]|]; simpl; repeat case_match;
        try done; by edestruct Hobj.
    + unfold foreground_handler.
      destruct (get_field resp "payload") as [[]|]; simpl; repeat case_match;
        try done; by edestruct Hobj.
    + intros Hn. rewrite handleMainMessage_unsolicited by done. unfold unsolicited.
      destruct (get_field resp "payload") as [[]|]; simpl; repeat case_match;
        try done; by edestruct Hobj.
Qed.

Lemma status_notified_on_presence_witness :
  onStatusChange (tv ready_session) = Some 0
  ∧ volume (tv (volume_handler volume_again ready_session)) = JNum 10
  ∧ emitted ready_session (volume_handler volume_again ready_session) =
      [Notify 0 (getStatus (tv (volume_handler volume_again ready_session)))].
Proof.
  split; [reflexivity |].
  pose proof (status_notified_on_presence volume_again ready_session 0 eq_refl) as [H _].
  destruct (H _ eq_refl) as [(Hv & _ & _ & He) _]. split; [exact Hv | exact He].
Defined.

(** C6 as stated fails: the volume subscription answers a second time with
    the volume and mute already stored, and the listener is notified again
    with an unchanged status. *)
Lemma notified_without_change :
  getStatus (tv (step sample_manifest true (EvMessage 0 (Some volume_again)) ready_session))
    = getStatus (tv ready_session)
  ∧ emitted ready_session
      (step sample_manifest true (EvMessage 0 (Some volume_again)) ready_session)
    = [Notify 0 (getStatus (tv ready_session))]
  ∧ ¬ notifies_only_on_change ready_session
        (step sample_manifest true (EvMessage 0 (Some volume_again)) ready_session).
Proof.
  assert (E : emitted ready_session
      (step sample_manifest true (EvMessage 0 (Some volume_again)) ready_session)
    = [Notify 0 (getStatus (tv ready_session))]) by (vm_compute; reflexivity).
  split; [vm_compute; reflexivity |]. split; [exact E |].
  intros H. apply (H 0 (getStatus (tv ready_session))); [ | reflexivity ].
  rewrite E. apply list_elem_of_singleton. reflexivity.
Qed.

(** ** The handler of register() *)

Lemma type_is_exclusive resp a b : a ≠ b → type_is resp a = true → type_is resp b = false.
Proof.
  unfold type_is. destruct (get_field resp "type") as [[]|]; try done.
  intros Hne Ha%String.eqb_eq. subst. by apply String.eqb_neq.
Qed.

Lemma accepted_not_error resp : type_is resp "error" = true → accepted resp = false.
Proof.
  intros H. unfold accepted.
  rewrite (type_is_exclusive resp "error" "registered"),
    (type_is_exclusive resp "error" "response"); done.
Qed.

Lemma register_handler_accepted id sock resp w :
  accepted resp = true →
  register_handler id sock resp w =
  registered_then sock
    (emit (RegisterResolved id)
       (subscribeToStatus
          (setupPointerSocket (setStatus ready (saveConfig (with_returned_key resp w)))))).
Proof. unfold accepted, register_handler, with_returned_key. by intros ->. Qed.

Lemma register_handler_error id sock resp w :
  type_is resp "error" = true →
  register_handler id sock resp w =
  fail sock (rejection_message resp)
    (emit (RegisterRejected id (rejection_message resp)) (setStatus disconnected w)).
Proof.
  intros H. pose proof (accepted_not_error resp H) as Ha.
  unfold accepted in Ha. unfold register_handler, rejection_message. by rewrite Ha, H.
Qed.

Lemma register_handler_ignored id sock resp w :
  accepted resp = false → type_is resp "error" = false →
  register_handler id sock resp w = w.
Proof. unfold accepted, register_handler. by intros -> ->. Qed.

Lemma status_connect_loop c call urls w :
  status (tv (connect_loop c call urls w)) =
  match urls with [] => disconnected | _ => connecting end.
Proof.
  unfold connect_loop. destruct urls; simpl; by rewrite tv_setStatus.
Qed.

Lemma status_fail sock m w :
  status (tv (fail sock m w)) = status (tv w)
  ∨ status (tv (fail sock m w)) = disconnected
  ∨ status (tv (fail sock m w)) = connecting.
Proof.
  unfold fail, connect_catch. repeat case_match; auto;
    rewrite status_connect_loop; case_match; auto.
Qed.

Lemma frame_after_handshake id sock w :
  frame after_handshake w
    (registered_then sock
       (emit (RegisterResolved id) (subscribeToStatus (setupPointerSocket w)))).
Proof. unfold after_handshake. eauto 10 with frame. Qed.

Lemma register_handler_accepted_state id sock resp w :
  accepted resp = true →
  let w' := register_handler id sock resp w in
  status (tv w') = ready
  ∧ clientKey (tv w') = clientKey (tv (with_returned_key resp w))
  ∧ tvIp (tv w') = tvIp (tv w)
  ∧ writes w' = writes (saveConfig (with_returned_key resp w))
  ∧ disk w' = disk w.
Proof.
  intros Ha. cbv zeta. rewrite register_handler_accepted by done.
  pose proof (frame_after_handshake id sock
                (setStatus ready (saveConfig (with_returned_key resp w)))) as F.
  rewrite <- (frame_status _ _ _ F), <- (frame_clientKey _ _ _ F),
    <- (frame_tvIp _ _ _ F), <- (frame_writes _ _ _ F), <- (frame_disk _ _ _ F)
    by compute_done.
  rewrite tv_setStatus. simpl.
  assert (Hs : ∀ x, tv (saveConfig x) = tv x ∧ disk (saveConfig x) = disk x)
    by (intros x; unfold saveConfig; by repeat case_match).
  assert (Hn : ∀ x, writes (notify x) = writes x ∧ disk (notify x) = disk x)
    by (intros x; unfold notify; by case_match).
  unfold setStatus. rewrite (proj1 (Hn _)), (proj2 (Hn _)). simpl.
  rewrite (proj1 (Hs _)), (proj2 (Hs _)).
  split_and!; try done; unfold with_returned_key; by case_match.
Qed.

Lemma emitted_between ks ks' e w w1 w2 :
  emits ks w w1 → emits ks' (emit e w1) w2 → e ∈ emitted w w2.
Proof.
  intros (l1 & E1 & _) (l2 & E2 & _). simpl in E2.
  rewrite (emitted_app w w2 (l1 ++ [e] ++ l2)).
  - rewrite !elem_of_app, list_elem_of_singleton. auto.
  - rewrite E2, E1. by rewrite <- !app_assoc.
Qed.

Lemma handleMainMessage_registration resp id sock w :
  get_field resp "id" = Some (JStr id) →
  registrationRequestId (tv w) = Some id →
  pendingRequests (tv w) !! id = Some (H_register id sock) →
  handleMainMessage (Some resp) w =
  register_handler id sock resp (registration_dispatch resp id w).
Proof.
  intros Hid Hreg Hh. rewrite (handleMainMessage_found resp id _ w Hid Hh).
  rewrite (bool_decide_eq_true_2 (registrationRequestId (tv w) = Some id)) by done.
  rewrite andb_false_r. simpl. reflexivity.
Qed.

Lemma registration_dispatch_same resp id w :
  trace (registration_dispatch resp id w) = trace w
  ∧ status (tv (registration_dispatch resp id w)) = status (tv w)
  ∧ clientKey (tv (registration_dispatch resp id w)) = clientKey (tv w)
  ∧ tvIp (tv (registration_dispatch resp id w)) = tvIp (tv w)
  ∧ writes (registration_dispatch resp id w) = writes w
  ∧ disk (registration_dispatch resp id w) = disk w.
Proof. unfold registration_dispatch. by case_match. Qed.

Lemma emits_registration_dispatch ks resp id w :
  emits ks w (registration_dispatch resp id w).
Proof. unfold registration_dispatch. case_match; eauto with emits. Qed.

Lemma accepted_is_done resp :
  accepted resp = true →
  type_is resp "registered" || type_is resp "error"
  || is_string (opt_field (get_field resp "payload") "client-key") = true.
Proof.
  unfold accepted, nonempty_string, is_string.
  destruct (type_is resp "registered"); [done |]. simpl.
  destruct (type_is resp "response"); [ | done ]. simpl.
  destruct (opt_field _ _) as [[]|]; simpl; try done.
  by rewrite orb_true_r.
Qed.

(** ** C7 *)

Lemma nowrite_emitted w w' cfg : emits nowrite w w' → WriteFile cfg ∉ emitted w w'.
Proof.
  intros He Hin. apply (emits_emitted _ _ _ He) in Hin. simpl in Hin.
  apply list_elem_of_In in Hin. simpl in Hin. intuition discriminate.
Qed.

Lemma nonempty_Some s k : nonempty s = Some k → s = Some k ∧ k ≠ EmptyString.
Proof.
  unfold nonempty. destruct s as [x|]; [ | done ].
  destruct (String.eqb x EmptyString) eqn:E; [done |]. intros [= <-].
  split; [done |]. by apply String.eqb_neq.
Qed.

Lemma saveConfig_trace w :
  saveConfig w = w ∧ (nonempty (tvIp (tv w)) = None ∨ nonempty (clientKey (tv w)) = None)
  ∨ ∃ a key, nonempty (tvIp (tv w)) = Some a ∧ nonempty (clientKey (tv w)) = Some key
             ∧ trace (saveConfig w) = (trace w ++ [WriteFile (TVConfig.mk a key)])%list.
Proof.
  unfold saveConfig.
  destruct (nonempty (tvIp (tv w))) as [a|]; [ | by auto ].
  destruct (nonempty (clientKey (tv w))) as [key|]; [ | by auto ].
  right. by exists a, key.
Qed.

(** A write is started only by the handler of register() on an accepted
    response, and then with the address and the non-empty key it holds. *)
Lemma register_handler_write id sock resp w cfg :
  WriteFile cfg ∈ emitted w (register_handler id sock resp w) →
  accepted resp = true
  ∧ status (tv (register_handler id sock resp w)) = ready
  ∧ tvIp (tv (register_handler id sock resp w)) = Some (TVConfig.tvIp cfg)
  ∧ clientKey (tv (register_handler id sock resp w)) = Some (TVConfig.clientKey cfg)
  ∧ TVConfig.tvIp cfg ≠ EmptyString ∧ TVConfig.clientKey cfg ≠ EmptyString.
Proof.
  intros Hin. destruct (accepted resp) eqn:Ha.
  - destruct (register_handler_accepted_state id sock resp w Ha) as (Hs & Hk & Hip & _).
    split; [done |]. split; [done |]. rewrite Hk, Hip.
    rewrite register_handler_accepted in Hin by done.
    set (x := with_returned_key resp w) in *.
    assert (Hx : trace x = trace w ∧ tvIp (tv x) = tvIp (tv w))
      by (unfold x, with_returned_key; by case_match).
    assert (Hrest : emits nowrite (saveConfig x)
              (registered_then sock
                 (emit (RegisterResolved id)
                    (subscribeToStatus (setupPointerSocket (setStatus ready (saveConfig x)))))))
      by (unfold nowrite; eauto 10 with emits).
    destruct Hrest as (l & El & Hl).
    destruct (saveConfig_trace x) as [[Es _] | (a & key & Ea & Ek & Et)].
    + exfalso. rewrite Es in El, Hin. rewrite (proj1 Hx) in El.
      rewrite (emitted_app _ _ _ El) in Hin.
      rewrite Forall_forall in Hl. apply Hl in Hin. simpl in Hin.
      apply list_elem_of_In in Hin. simpl in Hin. intuition discriminate.
    + rewrite Et, (proj1 Hx), <- app_assoc in El.
      rewrite (emitted_app _ _ _ El) in Hin. simpl in Hin.
      apply elem_of_cons in Hin as [[= ->] | Hin].
      * simpl. apply nonempty_Some in Ea as [Ea ?], Ek as [Ek ?].
        rewrite <- (proj2 Hx). by rewrite Ea, Ek.
      * exfalso. rewrite Forall_forall in Hl. apply Hl in Hin. simpl in Hin.
        apply list_elem_of_In in Hin. simpl in Hin. intuition discriminate.
  - exfalso. revert Hin. apply nowrite_emitted.
    destruct (type_is resp "error") eqn:He.
    + rewrite register_handler_error by done. unfold nowrite. eauto 10 with emits.
    + rewrite register_handler_ignored by done. apply emits_refl.
Qed.

Lemma emits_unsolicited ks resp w0 w :
  KNotify ∈ ks → emits ks w0 w → emits ks w0 (unsolicited resp w).
Proof. intros. unfold unsolicited. follow emits. Qed.

Lemma handleMainMessage_write parsed w cfg :
  WriteFile cfg ∈ emitted w (handleMainMessage parsed w) →
  (∃ resp, parsed = Some resp ∧ accepted resp = true)
  ∧ status (tv (handleMainMessage parsed w)) = ready
  ∧ tvIp (tv (handleMainMessage parsed w)) = Some (TVConfig.tvIp cfg)
  ∧ clientKey (tv (handleMainMessage parsed w)) = Some (TVConfig.clientKey cfg)
  ∧ TVConfig.tvIp cfg ≠ EmptyString ∧ TVConfig.clientKey cfg ≠ EmptyString.
Proof.
  destruct parsed as [resp|];
    [ | intros Hin; exfalso; revert Hin; apply nowrite_emitted, emits_refl ].
  destruct (handler_for resp w) as [[id h]|] eqn:E.
  - apply handler_for_Some in E as [Hid Hh].
    rewrite (handleMainMessage_found resp id h w Hid Hh).
    match goal with |- context [invoke h resp ?x] => set (w0 := x) end.
    assert (Ht : trace w0 = trace w) by (unfold w0; by repeat case_match).
    unfold emitted. rewrite <- Ht. fold (emitted w0 (invoke h resp w0)).
    destruct h as [i a | i sock | | ]; simpl.
    + intros Hin; exfalso; revert Hin; apply nowrite_emitted.
      unfold nowrite. follow emits.
    + intros Hin. destruct (register_handler_write i sock resp w0 cfg Hin) as (Ha & ?).
      split; [by exists resp | done].
    + intros Hin; exfalso; revert Hin; apply nowrite_emitted.
      unfold nowrite. eauto with emits.
    + intros Hin; exfalso; revert Hin; apply nowrite_emitted.
      unfold nowrite. eauto with emits.
  - rewrite handleMainMessage_unsolicited by done.
    intros Hin; exfalso; revert Hin; apply nowrite_emitted.
    unfold nowrite. apply emits_unsolicited; eauto with emits.
Qed.

Lemma step_write LG chk ev w cfg :
  WriteFile cfg ∈ emitted w (step LG chk ev w) →
  (∃ sock resp, ev = EvMessage sock (Some resp) ∧ accepted resp = true)
  ∧ status (tv (step LG chk ev w)) = ready
  ∧ tvIp (tv (step LG chk ev w)) = Some (TVConfig.tvIp cfg)
  ∧ clientKey (tv (step LG chk ev w)) = Some (TVConfig.clientKey cfg)
  ∧ TVConfig.tvIp cfg ≠ EmptyString ∧ TVConfig.clientKey cfg ≠ EmptyString.
Proof.
  pose proof (emits_refl nowrite w) as R.
  destruct ev; simpl;
    try solve [ intros Hin; exfalso; revert Hin; apply nowrite_emitted;
                unfold nowrite in *; follow emits ].
  repeat case_match;
    try solve [ intros Hin; exfalso; revert Hin; apply nowrite_emitted; exact R ].
  intros Hin. destruct (handleMainMessage_write parsed w cfg Hin) as ((resp & -> & Ha) & ?).
  split; [by exists sock, resp | done].
Qed.

Lemma frame_step_disk LG chk ev w :
  (∀ n ok, ev ≠ EvWriteDone n ok) → frame all_but_disk w (step LG chk ev w).
Proof.
  intros Hev. pose proof (frame_refl all_but_disk w) as R.
  assert (fp_handleMainMessage ⊆ all_but_disk) by compute_done.
  assert (fp_register ⊆ all_but_disk) by compute_done.
  assert (fp_fail ⊆ all_but_disk) by compute_done.
  assert (fp_run_timer ⊆ all_but_disk) by compute_done.
  assert (CtvIp :: Ccalls :: fp_disconnect ⊆ all_but_disk) by compute_done.
  assert (fp_disconnect ⊆ all_but_disk) by compute_done.
  assert (CclientKey :: fp_connect_loop ⊆ all_but_disk) by compute_done.
  assert ([CmsgId; Cpending; Ctimers] ⊆ all_but_disk) by compute_done.
  destruct ev; simpl; try (by edestruct Hev); unfold set_socket, setStatusCallback;
    unfold all_but_disk in *;
    [ apply frame_set_onStatusChange; [compute_done | exact R] | follow frame .. ].
Qed.



(** ** C1 *)

Lemma assoc_obj_set k v fields : assoc k (obj_set k v fields) = Some v.
Proof.
  induction fields as [|[k' v'] rest IH]; simpl.
  - by rewrite String.eqb_refl.
  - destruct (String.eqb k k') eqn:E; simpl; rewrite ?String.eqb_refl; [done |].
    by rewrite E.
Qed.

(** What connect() does to the credential held in memory once loadConfig has
    returned: it is replaced by the stored one when the stored address is
    the address being connected to, and is otherwise left as it was. *)
Lemma connect_loaded_clientKey c call w :
  calls w !! c = Some call → phase call = Loading →
  clientKey (tv (connect_loaded c w)) =
  match disk w with
  | Some config =>
      if String.eqb (TVConfig.tvIp config) (ip call)
      then Some (TVConfig.clientKey config) else clientKey (tv w)
  | None => clientKey (tv w)
  end.
Proof.
  intros Hc Hp. unfold connect_loaded. rewrite Hc, Hp.
  match goal with
  | |- clientKey (tv (connect_loop c call ?u ?x)) = _ =>
      rewrite <- (frame_clientKey fp_connect_loop x (connect_loop c call u x))
        by (first [ compute_done | apply frame_connect_loop; eauto with frame ])
  end.
  by repeat case_match.
Qed.

(** C1 (the code at the failing input): with a credential persisted for
    10.0.0.5 only, only that address on disk, the handshake that connect
    ("10.0.0.9") sends on its socket carries that credential as
    "client-key". *)
Theorem stale_credential_reaches_other_address (LG : list (string * json)) (chk : bool) :
  let w := run LG chk two_addresses (new_World (Some (TVConfig.mk "10.0.0.5" "abc123"))) in
  TVConfig.tvIp <$> disk w = Some "10.0.0.5"
  ∧ tvIp (tv w) = Some "10.0.0.9"
  ∧ url <$> sockets w !! 1 = Some "wss://10.0.0.9:3001"
  ∧ last (trace w) =
      Some (Send 1 (JObj [("id", JStr "msg_5"); ("type", JStr "register");
                          ("payload", JObj (obj_set "client-key" (JStr "abc123") LG))]))
  ∧ assoc "client-key" (obj_set "client-key" (JStr "abc123") LG) = Some (JStr "abc123").
Proof.
  cbv zeta. split_and!; try (vm_compute; reflexivity). apply assoc_obj_set.
Qed.

(** ** C2 *)

Lemma settle_count_elem id e l :
  e ∈ l → settles id e = true → (1 ≤ settle_count id l)%nat.
Proof.
  induction l as [|x l IH]; [by intros ?%elem_of_nil |].
  intros [-> | Hin]%elem_of_cons Hs; simpl.
  - rewrite Hs. lia.
  - specialize (IH Hin Hs). lia.
Qed.

Lemma settle_count_two id e1 e2 l :
  e1 ∈ l → e2 ∈ l → e1 ≠ e2 → settles id e1 = true → settles id e2 = true →
  (2 ≤ settle_count id l)%nat.
Proof.
  induction l as [|x l IH]; [by intros ?%elem_of_nil |].
  intros [-> | H1]%elem_of_cons [-> | H2]%elem_of_cons Hne S1 S2; simpl.
  - done.
  - rewrite S1. pose proof (settle_count_elem id e2 l H2 S2). lia.
  - rewrite S2. pose proof (settle_count_elem id e1 l H1 S1). lia.
  - specialize (IH H1 H2 Hne S1 S2). lia.
Qed.

Lemma step_message_unmatched LG chk sock resp w :
  handler_for resp w = None →
  emits [KNotify] w (step LG chk (EvMessage sock (Some resp)) w).
Proof.
  intros Hn. unfold step.
  destruct (sockets w !! sock) as [s|]; [ | apply emits_refl ].
  destruct (readyState s), (kind s); try apply emits_refl.
  rewrite handleMainMessage_unsolicited by done.
  apply emits_unsolicited; eauto with emits.
Qed.

Lemma settle_count_invoke gone id key h resp w w1 :
  CoreInv gone w →
  pendingRequests (tv w) !! key = Some h →
  key ≠ id →
  trace w1 = trace w →
  settle_count id (trace (invoke h resp w1)) = settle_count id (trace w).
Proof.
  intros I Hh Hne Ht.
  destruct (ci_pending gone w I key h Hh) as (_ & _ & _ & Kr & _).
  destruct h as [i a | i sock | | ]; simpl.
  - destruct (Kr i a eq_refl) as (-> & _).
    assert (E : settle_count id (trace (emit (RequestResolved key resp) w1))
                = settle_count id (trace w)).
    { simpl. rewrite Ht, settle_count_app. simpl.
      rewrite (proj2 (String.eqb_neq key id)) by done. lia. }
    destruct a; [done |]. rewrite <- E. apply emits_quiet_count.
    apply emits_setupPointerSocket_resume; unfold quiet; eauto with emits.
  - rewrite <- Ht. apply emits_quiet_count. unfold quiet. follow emits.
  - rewrite <- Ht. apply emits_quiet_count. unfold quiet. follow emits.
  - rewrite <- Ht. apply emits_quiet_count. unfold quiet. follow emits.
Qed.

Lemma settle_count_handleMainMessage gone id parsed w :
  CoreInv gone w →
  pendingRequests (tv w) !! id = None →
  settle_count id (trace (handleMainMessage parsed w)) = settle_count id (trace w).
Proof.
  intros I Hid. destruct parsed as [resp|]; [ | done ].
  destruct (handler_for resp w) as [[key h]|] eqn:E.
  - apply handler_for_Some in E as [Hk Hh].
    rewrite (handleMainMessage_found resp key h w Hk Hh).
    apply (settle_count_invoke gone id key h); try done.
    + intros ->. by rewrite Hid in Hh.
    + by repeat case_match.
  - rewrite handleMainMessage_unsolicited by done.
    apply emits_quiet_count. unfold unsolicited, quiet. follow emits.
Qed.

Lemma settle_count_run_timer id t w :
  pendingRequests (tv w) !! id = None →
  settle_count id (trace (run_timer t w)) = settle_count id (trace w).
Proof.
  intros Hid. destruct t as [sock | key sock | key]; simpl.
  - apply emits_quiet_count. unfold quiet. follow emits.
  - apply emits_quiet_count. unfold quiet. follow emits.
  - destruct (pendingRequests (tv w) !! key) eqn:E; [ | done ].
    simpl. rewrite settle_count_app. simpl.
    assert (key ≠ id) by (intros ->; by rewrite Hid in E).
    rewrite (proj2 (String.eqb_neq key id)) by done. lia.
Qed.

(** Only an entry of the pending map is ever settled: a step leaves the
    promise of every other identifier as it was. *)
Lemma settle_count_step LG chk gone id ev w :
  CoreInv gone w →
  pendingRequests (tv w) !! id = None →
  settle_count id (trace (step LG chk ev w)) = settle_count id (trace w).
Proof.
  intros I Hid.
  destruct ev as [cb|addr|c| |key|text|dx dy|sock|sock parsed|sock d|sock|n|n ok]; simpl.
  9: { repeat case_match; try done. by apply (settle_count_handleMainMessage gone). }
  11: { case_match; [ | done ]. by rewrite settle_count_run_timer. }
  all: apply emits_quiet_count; unfold quiet, set_socket, setStatusCallback; follow emits.
Qed.

Lemma known_disconnect w id : known w id → known (disconnect w) id.
Proof. unfold known. by rewrite tv_disconnect. Qed.

(** What disconnect() dropped from the pending map stays out of it and is
    never settled. *)
Lemma cleared_entry_never_settled LG chk gone id evs w :
  CoreInv gone w →
  is_Some (pendingRequests (tv w) !! id) →
  settle_count id (trace (run LG chk evs (disconnect w))) = 0
  ∧ pendingRequests (tv (run LG chk evs (disconnect w))) !! id = None.
Proof.
  intros I [h Hh].
  destruct (ci_pending gone w I id h Hh) as (Kn & Kc & _).
  assert (J : CoreInv {[id]} (disconnect w)).
  { pose proof (coreinv_disconnect gone w I) as [I1 I2 I3 I4 I5 I6].
    split; try done. intros i Hi. apply elem_of_singleton in Hi as ->.
    by apply known_disconnect. }
  assert (C : settle_count id (trace (disconnect w)) = 0).
  { rewrite <- Kc. apply emits_quiet_count. unfold disconnect, quiet. follow emits. }
  assert (P : pendingRequests (tv (disconnect w)) !! id = None)
    by (by rewrite tv_disconnect).
  revert J C P. generalize (disconnect w) as u. unfold run.
  induction evs as [|ev evs IH]; intros u J C P; simpl; [done |].
  apply IH.
  - by apply coreinv_step.
  - by rewrite (settle_count_step LG chk {[id]} id ev u J P).
  - destruct (pendingRequests (tv (step LG chk ev u)) !! id) as [h'|] eqn:E; [ | done ].
    destruct (ci_pending _ _ (coreinv_step {[id]} LG chk ev u J) id h' E) as (_ & _ & Hg & _).
    set_solver.
Qed.

(** C2 (as the code has it): when the timer of a request fires while its
    entry is still in the map, the promise is rejected with "Request <id>
    timed out" and the entry is removed; once a request has been rejected
    its entry is never there again and no response resolves it (a late
    message for its identifier only goes through the status update of
    unmatched messages); an entry that disconnect() clears from the map is
    never settled, whatever happens afterwards, and its identifier never
    enters the map again; and in every reachable state each request's
    promise has been settled, resolved or rejected, at most once. *)
Theorem request_settled_at_most_once
    (LG : list (string * json)) (chk : bool) (w : World) (id : string) :
  reachable LG chk w →
  (settle_count id (trace w) ≤ 1)%nat
  ∧ (∀ n, timers w !! n = Some (T_request id) →
       is_Some (pendingRequests (tv w) !! id) →
       emitted w (step LG chk (EvTimer n) w)
         = [RequestRejected id ("Request " ++ id ++ " timed out")]
       ∧ pendingRequests (tv (step LG chk (EvTimer n) w)) !! id = None
       ∧ status (tv (step LG chk (EvTimer n) w)) = status (tv w))
  ∧ (∀ m, RequestRejected id m ∈ trace w →
       pendingRequests (tv w) !! id = None
       ∧ (∀ resp, RequestResolved id resp ∉ trace w)
       ∧ ∀ sock resp, get_field resp "id" = Some (JStr id) →
           emits [KNotify] w (step LG chk (EvMessage sock (Some resp)) w))
  ∧ (∀ evs, is_Some (pendingRequests (tv w) !! id) →
       settle_count id (trace (run LG chk evs (disconnect w))) = 0%nat
       ∧ pendingRequests (tv (run LG chk evs (disconnect w))) !! id = None).
Proof.
  intros Hr. pose proof (coreinv_reachable LG chk w Hr) as I.
  split; [apply (ci_once _ _ I) |]. split; [ | split ].
  3: { intros evs Hp. by apply (cleared_entry_never_settled LG chk ∅). }
  - intros n Hn [h Hh]. simpl. rewrite Hn. simpl. rewrite Hh. simpl.
    split; [ | split; [apply lookup_delete_eq | done] ].
    by apply emitted_app.
  - intros m Hin.
    assert (Hc : (1 ≤ settle_count id (trace w))%nat).
    { eapply settle_count_elem; [exact Hin |]. simpl. apply String.eqb_refl. }
    assert (Hp : pendingRequests (tv w) !! id = None).
    { destruct (pendingRequests (tv w) !! id) as [h|] eqn:E; [ | done ].
      destruct (ci_pending _ _ I id h E) as (_ & Hz & _). lia. }
    split; [done |]. split.
    + intros resp Hres.
      assert ((2 ≤ settle_count id (trace w))%nat).
      { eapply (settle_count_two id _ _ _ Hin Hres); [done | | ]; simpl;
          apply String.eqb_refl. }
      pose proof (ci_once _ _ I id). lia.
    + intros sock resp Hid. apply step_message_unmatched.
      unfold handler_for. by rewrite Hid, Hp.
Qed.

Lemma request_settled_at_most_once_witness :
  reachable sample_manifest true request_sent
  ∧ timers request_sent !! 2 = Some (T_request "msg_5")
  ∧ is_Some (pendingRequests (tv request_sent) !! "msg_5")
  ∧ emitted request_sent (step sample_manifest true (EvTimer 2) request_sent)
      = [RequestRejected "msg_5" ("Request " ++ "msg_5" ++ " timed out")]
  ∧ pendingRequests (tv (step sample_manifest true (EvTimer 2) request_sent)) !! "msg_5"
      = None
  ∧ settle_count "msg_5"
      (trace (run sample_manifest true [EvTimer 2] (disconnect request_sent))) = 0%nat.
Proof.
  assert (Hr : reachable sample_manifest true request_sent).
  { unfold request_sent, ready_session. cbn [run foldl].
    repeat apply reachable_step. apply reachable_new. }
  assert (Ht : timers request_sent !! 2 = Some (T_request "msg_5"))
    by (vm_compute; reflexivity).
  assert (Hp : is_Some (pendingRequests (tv request_sent) !! "msg_5"))
    by (exists (H_resolve "msg_5" await_command); vm_compute; reflexivity).
  destruct (request_settled_at_most_once sample_manifest true request_sent "msg_5" Hr)
    as (_ & Htimer & _ & Hgone).
  destruct (Htimer 2 Ht Hp) as (He & Hd & _).
  destruct (Hgone [EvTimer 2] Hp) as (Hz & _).
  exact (conj Hr (conj Ht (conj Hp (conj He (conj Hd Hz))))).
Defined.

(** C2 as stated fails when disconnect() empties the map before the timer
    fires: the request was sent, no response ever came, its timer has fired
    and is gone, and its promise has been neither rejected nor resolved. *)
Lemma request_never_settled_after_disconnect :
  Send 0 (JObj [("type", JStr "request");
                ("uri", JStr "ssap://com.webos.service.networkinput/sendButton");
                ("payload", JObj [("name", JStr "HOME")]);
                ("id", JStr "msg_5")])
    ∈ trace (run sample_manifest true [EvDisconnect; EvTimer 2] request_sent)
  ∧ timers request_sent !! 2 = Some (T_request "msg_5")
  ∧ (T_request "msg_5"
       ∉ timers (run sample_manifest true [EvDisconnect; EvTimer 2] request_sent))
  ∧ ¬ (∃ m, RequestRejected "msg_5" m
              ∈ trace (run sample_manifest true [EvDisconnect; EvTimer 2] request_sent))
  ∧ settle_count "msg_5"
      (trace (run sample_manifest true [EvDisconnect; EvTimer 2] request_sent)) = 0%nat.
Proof.
  assert (Hc : settle_count "msg_5"
      (trace (run sample_manifest true [EvDisconnect; EvTimer 2] request_sent)) = 0%nat)
    by (vm_compute; reflexivity).
  split_and!; try exact Hc.
  - apply list_elem_of_In. vm_compute. tauto.
  - vm_compute. reflexivity.
  - intros Hin%list_elem_of_In. vm_compute in Hin. intuition discriminate.
  - intros [m Hin].
    pose proof (settle_count_elem "msg_5" _ _ Hin (String.eqb_refl _)) as H. rewrite Hc in H. lia.
Qed.

(** ** C5 *)

(** C5 (as the code has it): in every reachable state the identifier that
    nextId hands out next has no entry, so no outstanding resolver is ever
    overwritten; a dispatched response removes its entry when the identifier
    is neither a subscription nor the registration request, and when it is
    the registration request and the response is terminal (type "registered"
    or "error", or a string client-key); the entry of a subscription stays. *)
Theorem pending_entry_removed_on_dispatch
    (LG : list (string * json)) (chk : bool) (w : World)
    (resp : json) (id : string) (h : Handler) :
  reachable LG chk w →
  pendingRequests (tv w) !! (nextId w).1 = None
  ∧ (get_field resp "id" = Some (JStr id) →
     pendingRequests (tv w) !! id = Some h →
     (removes resp id w = true →
        pendingRequests (tv (handleMainMessage (Some resp) w)) !! id = None)
     ∧ (id ∉ subscriptionIds (tv w) → registrationRequestId (tv w) ≠ Some id →
        removes resp id w = true)
     ∧ (id ∈ subscriptionIds (tv w) →
        removes resp id w = false
        ∧ pendingRequests (tv (handleMainMessage (Some resp) w)) !! id = Some h)).
Proof.
  intros Hr. pose proof (coreinv_reachable LG chk w Hr) as I. split.
  - simpl. destruct (pendingRequests (tv w) !! _) as [h0|] eqn:E; [ | done ].
    destruct (ci_pending _ _ I _ h0 E) as (Hk & _). by apply fresh_unknown in Hk.
  - intros Hid Hh. split; [ | split ].
    + intros Hrem. pose proof (coreinv_dispatch ∅ resp id h w I Hid Hh) as D.
      rewrite Hrem in D.
      destruct (pendingRequests (tv (handleMainMessage (Some resp) w)) !! id) as [h'|] eqn:E;
        [ | done ].
      destruct (ci_pending _ _ D id h' E) as (_ & _ & Hg & _). set_solver.
    + intros Hs Hreg. unfold removes.
      rewrite (bool_decide_eq_false_2 (id ∈ subscriptionIds (tv w))) by done.
      by rewrite (bool_decide_eq_false_2 (registrationRequestId (tv w) = Some id)).
    + intros Hs. destruct (ci_pending _ _ I id h Hh) as (_ & _ & _ & _ & Hf).
      assert (Hreg : registrationRequestId (tv w) ≠ Some id).
      { intros Hreg. by destruct (ci_reg _ _ I id Hreg). }
      assert (Hrem : removes resp id w = false).
      { unfold removes. rewrite (bool_decide_eq_true_2 (id ∈ subscriptionIds (tv w))) by done.
        by rewrite (bool_decide_eq_false_2 (registrationRequestId (tv w) = Some id)). }
      split; [done |].
      rewrite (handleMainMessage_found resp id h w Hid Hh).
      rewrite (bool_decide_eq_true_2 (id ∈ subscriptionIds (tv w))) by done.
      rewrite (bool_decide_eq_false_2 (registrationRequestId (tv w) = Some id)) by done.
      simpl. destruct (Hf Hs) as [-> | ->]; simpl.
      * rewrite <- (frame_pendingRequests [CcurrentApp] w (foreground_handler resp w));
          [done | eauto with frame | compute_done].
      * rewrite <- (frame_pendingRequests [Cvolume; Cmuted] w (volume_handler resp w));
          [done | eauto with frame | compute_done].
Qed.

Lemma pending_entry_removed_on_dispatch_witness :
  reachable sample_manifest true ready_session
  ∧ get_field volume_again "id" = Some (JStr "msg_4")
  ∧ pendingRequests (tv ready_session) !! "msg_4" = Some H_volume
  ∧ "msg_4" ∈ subscriptionIds (tv ready_session)
  ∧ pendingRequests (tv ready_session) !! (nextId ready_session).1 = None
  ∧ removes volume_again "msg_4" ready_session = false
  ∧ pendingRequests (tv (handleMainMessage (Some volume_again) ready_session)) !! "msg_4"
    = Some H_volume.
Proof.
  assert (Hr : reachable sample_manifest true ready_session).
  { unfold ready_session. cbn [run foldl].
    repeat apply reachable_step. apply reachable_new. }
  assert (H1 : get_field volume_again "id" = Some (JStr "msg_4")) by reflexivity.
  assert (H2 : pendingRequests (tv ready_session) !! "msg_4" = Some H_volume)
    by (vm_compute; reflexivity).
  assert (H3 : "msg_4" ∈ subscriptionIds (tv ready_session))
    by (replace (subscriptionIds (tv ready_session)) with ({["msg_3"; "msg_4"]} : gset string)
          by (vm_compute; reflexivity); set_solver).
  destruct (pending_entry_removed_on_dispatch sample_manifest true ready_session
              volume_again "msg_4" H_volume Hr) as (Hf & Hd).
  destruct (Hd H1 H2) as (_ & _ & Hs). destruct (Hs H3) as (Hrem & Hk).
  exact (conj Hr (conj H1 (conj H2 (conj H3 (conj Hf (conj Hrem Hk)))))).
Defined.

(** C5 as stated fails for the registration request: the answer to the
    pairing prompt is dispatched to the registration handler, its identifier
    is no subscription, and the entry is still there afterwards. *)
Lemma registration_entry_survives_prompt :
  pendingRequests (tv pairing_session) !! "msg_1" = Some (H_register "msg_1" 0)
  ∧ ("msg_1" ∉ subscriptionIds (tv pairing_session))
  ∧ pendingRequests (tv (handleMainMessage (Some pairing_prompt) pairing_session)) !! "msg_1"
    = Some (H_register "msg_1" 0)
  ∧ ¬ removed_unless_subscription pairing_prompt "msg_1" pairing_session.
Proof.
  assert (H1 : pendingRequests (tv pairing_session) !! "msg_1" = Some (H_register "msg_1" 0))
    by (vm_compute; reflexivity).
  assert (H2 : "msg_1" ∉ subscriptionIds (tv pairing_session)).
  { replace (subscriptionIds (tv pairing_session)) with (∅ : gset string)
      by (vm_compute; reflexivity). set_solver. }
  assert (H3 : pendingRequests
                 (tv (handleMainMessage (Some pairing_prompt) pairing_session)) !! "msg_1"
               = Some (H_register "msg_1" 0)) by (vm_compute; reflexivity).
  refine (conj H1 (conj H2 (conj H3 _))).
  intros H. unfold removed_unless_subscription in H.
  assert (H4 : pendingRequests
                 (tv (handleMainMessage (Some pairing_prompt) pairing_session)) !! "msg_1"
               = None).
  { apply H; [reflexivity | exact (ex_intro _ _ H1) | exact H2]. }
  pose proof (eq_trans (eq_sym H3) H4) as E. discriminate E.
Qed.

(** ** The attempts a call has made *)

Lemma fmap_fst_three {A B} (tried : list (A * B)) (a1 a2 a3 : A) :
  tried.*1 = [a1; a2; a3] →
  ∃ b1 b2 b3, tried = [(a1, b1); (a2, b2); (a3, b3)].
Proof.
  destruct tried as [|[x1 b1] [|[x2 b2] [|[x3 b3] [|? ?]]]]; intros E; simplify_eq/=.
  by exists b1, b2, b3.
Qed.

(** ** Identifiers *)

(** X1: nextId: in every reachable state each identifier that has an entry,
    names a subscription, is the registration request or was settled before
    is "msg_k" for some k up to the counter, so the identifier handed out
    next, "msg_(counter+1)", is none of them. *)
Theorem next_identifier_unused
    (LG : list (string * json)) (chk : bool) (w : World) (id : string) :
  reachable LG chk w →
  in_use w id →
  (∃ k, (k ≤ msgId (tv w))%nat ∧ id = "msg_" ++ pretty k)
  ∧ id ≠ (nextId w).1
  ∧ msgId (tv (nextId w).2) = S (msgId (tv w)).
Proof.
  intros Hr Hu. pose proof (coreinv_reachable LG chk w Hr) as I.
  assert (Hk : known w id).
  { destruct Hu as [[h Hh] | [Hs | [Hg | Hc]]].
    - by destruct (ci_pending _ _ I id h Hh).
    - by apply (ci_subs _ _ I).
    - by destruct (ci_reg _ _ I id Hg).
    - by apply (ci_settled _ _ I). }
  split; [exact Hk |]. split; [ | done ].
  simpl. intros ->. by apply fresh_unknown in Hk.
Qed.

Lemma next_identifier_unused_witness :
  reachable sample_manifest true ready_session
  ∧ in_use ready_session "msg_4"
  ∧ "msg_4" ≠ (nextId ready_session).1.
Proof.
  assert (Hr : reachable sample_manifest true ready_session).
  { unfold ready_session. cbn [run foldl].
    repeat apply reachable_step. apply reachable_new. }
  assert (Hu : in_use ready_session "msg_4").
  { left. exists H_volume. vm_compute. reflexivity. }
  exact (conj Hr (conj Hu
           (proj1 (proj2 (next_identifier_unused sample_manifest true ready_session
                            "msg_4" Hr Hu))))).
Defined.

(** ** Commands on the main socket *)

Lemma sendMain_outcome msg w :
  assoc "id" msg = None →
  obj_set "id" (JStr (msg_id (S (msgId (tv w))))) msg
    = (msg ++ [("id", JStr (msg_id (S (msgId (tv w)))))])%list →
  status (tv w) = ready →
  command_outcome msg w (sendMain msg await_command w).
Proof.
  intros Hid Hset Hst. unfold command_outcome. rewrite Hst.
  unfold sendMain. rewrite Hid. simpl nonempty_string. cbv iota.
  destruct (mainWs (tv w)) as [sock|] eqn:Hm; [ | done ].
  destruct (is_open (Some sock) w) eqn:Ho; [ | done ].
  unfold nextId. cbv beta iota zeta. rewrite Hset.
  unfold send_main, ws_send. simpl. rewrite Hm.
  unfold is_open in Ho.
  destruct (sockets w !! sock) as [s|]; [ | done ].
  destruct (readyState s); try done.
  split_and!; try done. by apply emitted_app.
Qed.

Lemma command_sent_only_when_ready_aux key w :
  command_outcome (button_request key) w (sendButton key w).
Proof.
  destruct (status (tv w)) eqn:Hst;
    try (unfold command_outcome, sendButton; by rewrite Hst).
  unfold sendButton. rewrite Hst. by apply sendMain_outcome.
Qed.

(** X2: sendButton and sendInput: unless the session is ready the command throws
    "Not connected" and nothing else happens; when it is ready but the main
    socket is missing or not open, the request is refused without using up
    an identifier; otherwise exactly one message goes out on the main
    socket, the request with the next identifier appended as "id", its
    resolver is stored under that identifier and its timer is started. *)
Theorem command_sent_only_when_ready (key text : string) (w : World) :
  command_outcome (button_request key) w (sendButton key w)
  ∧ command_outcome (text_request text) w (sendInput text w).
Proof.
  split; [apply command_sent_only_when_ready_aux |].
  - destruct (status (tv w)) eqn:Hst;
      try (unfold command_outcome, sendInput; by rewrite Hst).
    unfold sendInput. rewrite Hst. by apply sendMain_outcome.
Qed.

(** X3: sendMain, handleMainMessage and the request timer together: in a
    reachable ready session a button request answered under its identifier is
    resolved with that answer and nothing else is emitted; the pending map is
    again what it was before the request; and the request's timer, whenever
    it fires afterwards, changes nothing. *)
Theorem answered_request_leaves_no_trace
    (LG : list (string * json)) (chk : bool) (key : string) (resp : json)
    (sock : nat) (w : World) :
  reachable LG chk w →
  status (tv w) = ready →
  mainWs (tv w) = Some sock →
  is_open (Some sock) w = true →
  get_field resp "id" = Some (JStr (nextId w).1) →
  let w1 := sendButton key w in
  let w2 := handleMainMessage (Some resp) w1 in
  emitted w1 w2 = [RequestResolved (nextId w).1 resp]
  ∧ pendingRequests (tv w2) = pendingRequests (tv w)
  ∧ run_timer (T_request (nextId w).1) w2 = w2.
Proof.
  intros Hr Hst Hm Ho Hid w1 w2. simpl in Hid. set (id := msg_id (S (msgId (tv w)))) in *.
  pose proof (coreinv_reachable LG chk w Hr) as I.
  assert (I1 : CoreInv ∅ w1) by (apply coreinv_sendButton; exact I).
  pose proof (command_sent_only_when_ready_aux key w) as Hc.
  unfold command_outcome in Hc. rewrite Hst, Hm, Ho in Hc. fold id in Hc.
  destruct Hc as (_ & _ & Hp & _).
  assert (Hh : pendingRequests (tv w1) !! id = Some (H_resolve id await_command)).
  { unfold w1. rewrite Hp. apply lookup_insert_eq. }
  destruct (ci_pending _ _ I1 id _ Hh) as (_ & _ & _ & Hres & _).
  destruct (Hres id await_command eq_refl) as (_ & Hns & Hnr).
  assert (Hfresh : pendingRequests (tv w) !! id = None).
  { destruct (pendingRequests (tv w) !! id) as [h0|] eqn:E; [ | done ].
    destruct (ci_pending _ _ I _ h0 E) as (Hk & _). by apply fresh_unknown in Hk. }
  assert (E2 : w2 = emit (RequestResolved id resp) (pending_delete id w1)).
  { unfold w2. rewrite (handleMainMessage_found resp id _ w1 Hid Hh).
    rewrite (bool_decide_eq_false_2 (id ∈ subscriptionIds (tv w1))) by done.
    by rewrite (bool_decide_eq_false_2 (registrationRequestId (tv w1) = Some id)). }
  assert (Hp2 : pendingRequests (tv w2) = pendingRequests (tv w)).
  { transitivity (delete id (pendingRequests (tv w1))); [by rewrite E2 |].
    unfold w1. rewrite Hp. by apply delete_insert_id. }
  split_and!.
  - rewrite E2. by apply emitted_app.
  - exact Hp2.
  - simpl. rewrite Hp2. fold id. by rewrite Hfresh.
Qed.

Lemma answered_request_leaves_no_trace_witness :
  reachable sample_manifest true ready_session
  ∧ status (tv ready_session) = ready
  ∧ mainWs (tv ready_session) = Some 0%nat
  ∧ is_open (Some 0%nat) ready_session = true
  ∧ run_timer (T_request "msg_5")
      (handleMainMessage (Some (response_to "msg_5" "response" [("returnValue", JBool true)]))
         (sendButton "HOME" ready_session))
    = handleMainMessage (Some (response_to "msg_5" "response" [("returnValue", JBool true)]))
        (sendButton "HOME" ready_session).
Proof.
  assert (Hr : reachable sample_manifest true ready_session).
  { unfold ready_session. cbn [run foldl].
    repeat apply reachable_step. apply reachable_new. }
  assert (H1 : status (tv ready_session) = ready) by (vm_compute; reflexivity).
  assert (H2 : mainWs (tv ready_session) = Some 0%nat) by (vm_compute; reflexivity).
  assert (H3 : is_open (Some 0%nat) ready_session = true) by (vm_compute; reflexivity).
  assert (H4 : get_field (response_to "msg_5" "response" [("returnValue", JBool true)]) "id"
               = Some (JStr (nextId ready_session).1)) by (vm_compute; reflexivity).
  exact (conj Hr (conj H1 (conj H2 (conj H3
           (proj2 (proj2 (answered_request_leaves_no_trace sample_manifest true "HOME"
                            (response_to "msg_5" "response" [("returnValue", JBool true)])
                            0%nat ready_session Hr H1 H2 H3 H4))))))).
Defined.

(** ** The promise of connectWebSocket *)

Lemma keeps_refl w : keeps_sockets w w.
Proof. intros sock s H. by exists s. Qed.

Lemma keeps_trans w0 w1 w2 : keeps_sockets w0 w1 → keeps_sockets w1 w2 → keeps_sockets w0 w2.
Proof.
  intros H1 H2 sock s H. destruct (H1 sock s H) as (s1 & E1 & K1 & U1).
  destruct (H2 sock s1 E1) as (s2 & E2 & K2 & U2). exists s2. by rewrite K2, U2.
Qed.

Lemma keeps_same w0 w : sockets w = sockets w0 → keeps_sockets w0 w.
Proof. intros E sock s H. exists s. by rewrite E. Qed.

Lemma kind_close_socket s : kind (close_socket s) = kind s ∧ url (close_socket s) = url s.
Proof. unfold close_socket. by destruct (readyState s). Qed.

Lemma keeps_ws_close h w : keeps_sockets w (ws_close h w).
Proof.
  destruct h as [n|]; [ | apply keeps_refl ]. intros sock s H. simpl.
  destruct (decide (sock = n)) as [-> | Hne].
  - exists (close_socket s). rewrite list_lookup_alter_eq, H.
    split; [done | apply kind_close_socket].
  - exists s. by rewrite list_lookup_alter_ne.
Qed.

Lemma keeps_connect_loop c call urls w : keeps_sockets w (connect_loop c call urls w).
Proof.
  destruct urls as [|u rest]; unfold connect_loop, connectWebSocket, setStatus, notify;
    simpl; destruct (onStatusChange (tv w)); simpl.
  1,2: by apply keeps_same.
  all: intros sock s H; exists s; simpl;
    by rewrite lookup_app_l by (by eapply lookup_lt_Some).
Qed.

Lemma keeps_connect_catch c m w : keeps_sockets w (connect_catch c m w).
Proof.
  unfold connect_catch. destruct (calls w !! c) as [call|]; [ | apply keeps_refl ].
  destruct (phase call); try apply keeps_refl.
  eapply keeps_trans; [ | apply keeps_connect_loop ].
  eapply keeps_trans; [ apply keeps_ws_close |].
  eapply keeps_trans; [ | apply keeps_same; reflexivity ].
  eapply keeps_trans; [ apply keeps_same; reflexivity |].
  apply (keeps_ws_close _ (upd_tv (set_mainWs None) (ws_close (mainWs (tv w)) w))).
Qed.

Lemma keeps_connect_return c w : keeps_sockets w (connect_return c w).
Proof. unfold connect_return. destruct (calls w !! c); by apply keeps_same. Qed.

Lemma settled_kept sock w0 w :
  keeps_sockets w0 w →
  (∃ s c, sockets w0 !! sock = Some s ∧ kind s = MainSocket c true) →
  settled_socket sock w.
Proof.
  intros Hk (s & c & Hs & Hkind) s' c' Hs'.
  destruct (Hk sock s Hs) as (s'' & E & K & _). simplify_eq. by rewrite K, Hkind.
Qed.

Lemma settle_now sock s c w :
  sockets w !! sock = Some s → kind s = MainSocket c false →
  ∃ s', alter with_settled sock (sockets w) !! sock = Some s' ∧ kind s' = MainSocket c true.
Proof.
  intros Hs Hk. exists (with_settled s). rewrite list_lookup_alter_eq, Hs.
  split; [done |]. unfold with_settled. by rewrite Hk.
Qed.

Lemma fail_settled sock m w : settled_socket sock w → fail sock m w = w.
Proof.
  intros H. unfold fail. destruct (sockets w !! sock) as [s|] eqn:E; [ | done ].
  destruct (kind s) as [c [|]|] eqn:K; try done. by destruct (H s c E).
Qed.

Lemma registered_then_settled sock w : settled_socket sock w → registered_then sock w = w.
Proof.
  intros H. unfold registered_then. destruct (sockets w !! sock) as [s|] eqn:E; [ | done ].
  destruct (kind s) as [c [|]|] eqn:K; try done. by destruct (H s c E).
Qed.

Lemma settled_after_fail sock m w : settled_socket sock (fail sock m w).
Proof.
  unfold fail. destruct (sockets w !! sock) as [s|] eqn:E.
  - destruct (kind s) as [c [|]|] eqn:K.
    + intros s' c' E'. simplify_eq. by rewrite K.
    + destruct (settle_now sock s c w E K) as (s1 & E1 & K1).
      eapply settled_kept; [ apply keeps_connect_catch |].
      exists s1, c. split; [exact E1 | exact K1].
    + intros s' c' E'. simplify_eq. by rewrite K.
  - intros s' c' E'. by rewrite E in E'.
Qed.

Lemma settled_after_registered_then sock w : settled_socket sock (registered_then sock w).
Proof.
  unfold registered_then. destruct (sockets w !! sock) as [s|] eqn:E.
  - destruct (kind s) as [c [|]|] eqn:K.
    + intros s' c' E'. simplify_eq. by rewrite K.
    + destruct (settle_now sock s c w E K) as (s1 & E1 & K1).
      eapply settled_kept; [ apply keeps_connect_return |].
      exists s1, c. split; [exact E1 | exact K1].
    + intros s' c' E'. simplify_eq. by rewrite K.
  - intros s' c' E'. by rewrite E in E'.
Qed.

Lemma notify_same w :
  calls (notify w) = calls w ∧ timers (notify w) = timers w
  ∧ sockets (notify w) = sockets w.
Proof. unfold notify. by case_match. Qed.

Lemma step_error_settled LG chk sock d w :
  settled_socket sock w → step LG chk (EvError sock d) w = w.
Proof.
  intros H. simpl. destruct (sockets w !! sock) as [s|]; [ | done ].
  destruct (kind s); [ | done ]. unfold main_onerror. by apply fail_settled.
Qed.

Lemma run_timer_settled sock w : settled_socket sock w → run_timer (T_connect sock) w = w.
Proof.
  intros H. simpl. destruct (sockets w !! sock) as [s|]; [ | done ].
  by apply fail_settled.
Qed.

Lemma step_close_settled LG chk sock s c w :
  sockets w !! sock = Some s → kind s = MainSocket c true → readyState s ≠ CLOSED →
  step LG chk (EvClose sock) w
  = setStatus disconnected
      (upd_tv (set_pointerWs None)
         (ws_close (pointerWs (tv w)) (set_socket sock (with_readyState CLOSED s) w))).
Proof.
  intros Hs Hk Hr. simpl. rewrite Hs. unfold main_onclose. rewrite Hk.
  by destruct (readyState s).
Qed.

(** X4: connectWebSocket's [settled] flag: once the promise made for a socket
    was rejected through fail() or resolved after register(), the socket is
    settled for good: fail() and the resolve reaction do nothing on it, so a
    later error of that socket and its connection timer leave the whole
    state as it is.  A later close of the settled main socket does not reach
    the promise or the connect() calls either, and emits nothing but the
    notification of the listener; it is the one callback that still acts: it
    closes and forgets the pointer socket and sets the status to
    'disconnected'. *)
Theorem connect_promise_settles_once
    (LG : list (string * json)) (chk : bool) (sock : nat) (m m' : string) (w : World) :
  fail sock m' (fail sock m w) = fail sock m w
  ∧ registered_then sock (fail sock m w) = fail sock m w
  ∧ fail sock m' (registered_then sock w) = registered_then sock w
  ∧ registered_then sock (registered_then sock w) = registered_then sock w
  ∧ settled_socket sock (fail sock m w)
  ∧ settled_socket sock (registered_then sock w)
  ∧ ∀ u, settled_socket sock u →
      fail sock m' u = u
      ∧ registered_then sock u = u
      ∧ (∀ details, step LG chk (EvError sock details) u = u)
      ∧ run_timer (T_connect sock) u = u
      ∧ (∀ n, timers u !! n = Some (T_connect sock) →
           step LG chk (EvTimer n) u = set_timers (delete n (timers u)) u)
      ∧ (∀ s c, sockets u !! sock = Some s → kind s = MainSocket c true →
           readyState s ≠ CLOSED →
           let u' := step LG chk (EvClose sock) u in
           u' = setStatus disconnected
                  (upd_tv (set_pointerWs None)
                     (ws_close (pointerWs (tv u))
                        (set_socket sock (with_readyState CLOSED s) u)))
           ∧ status (tv u') = disconnected
           ∧ pointerWs (tv u') = None
           ∧ calls u' = calls u
           ∧ timers u' = timers u
           ∧ settled_socket sock u'
           ∧ ∃ l, trace u' = (trace u ++ l)%list ∧ Forall (fun e => kind_of e = KNotify) l).
Proof.
  split_and!.
  - apply fail_settled, settled_after_fail.
  - apply registered_then_settled, settled_after_fail.
  - apply fail_settled, settled_after_registered_then.
  - apply registered_then_settled, settled_after_registered_then.
  - apply settled_after_fail.
  - apply settled_after_registered_then.
  - intros u Hu. split_and!.
    + by apply fail_settled.
    + by apply registered_then_settled.
    + intros d. by apply step_error_settled.
    + by apply run_timer_settled.
    + intros n Hn. cbn [step]. rewrite Hn. apply run_timer_settled.
      intros s c Hs. apply (Hu s c). exact Hs.
    + intros s c Hs Hk Hr. cbv zeta. rewrite (step_close_settled LG chk sock s c u Hs Hk Hr).
      set (u1 := ws_close (pointerWs (tv u)) (set_socket sock (with_readyState CLOSED s) u)).
      assert (Hsock : sockets (set_socket sock (with_readyState CLOSED s) u) !! sock
                      = Some (with_readyState CLOSED s)).
      { unfold set_socket. simpl. apply list_lookup_insert_eq. by eapply lookup_lt_Some. }
      destruct (keeps_ws_close (pointerWs (tv u)) _ sock _ Hsock) as (s' & E & K & _).
      fold u1 in E.
      unfold setStatus. rewrite tv_notify.
      destruct (notify_same (upd_tv (set_status disconnected) (upd_tv (set_pointerWs None) u1)))
        as (N1 & N2 & N3).
      rewrite N1, N2. split_and!; try done.
      * unfold u1. simpl. by destruct (pointerWs (tv u)).
      * unfold u1. simpl. by destruct (pointerWs (tv u)).
      * intros s0 c0 Hs0. rewrite N3 in Hs0. simpl in Hs0. rewrite E in Hs0.
        injection Hs0 as <-. rewrite K. simpl. rewrite Hk. done.
      * unfold notify. simpl.
        assert (Ht : trace u1 = trace u) by (unfold u1; by destruct (pointerWs (tv u))).
        destruct (onStatusChange (tv u1)) as [cb|]; simpl; rewrite Ht.
        -- eexists [_]. split; [reflexivity |]. by repeat constructor.
        -- exists []. split; [by rewrite app_nil_r | constructor].
Qed.

Lemma connect_promise_settles_once_witness :
  settled_socket 0 (fail 0 "Socket closed at wss://10.0.0.5:3001" pairing_session)
  ∧ step sample_manifest true (EvError 0 "ECONNRESET")
      (fail 0 "Socket closed at wss://10.0.0.5:3001" pairing_session)
    = fail 0 "Socket closed at wss://10.0.0.5:3001" pairing_session.
Proof.
  destruct (connect_promise_settles_once sample_manifest true 0
              "Socket closed at wss://10.0.0.5:3001" "late" pairing_session)
    as (_ & _ & _ & _ & H1 & _ & Hu).
  exact (conj H1 (proj1 (proj2 (proj2 (Hu _ H1))) "ECONNRESET")).
Defined.

(** ** The credential held in memory *)

Lemma frame_step_key LG chk ev w :
  (∀ c, ev ≠ EvConfigLoaded c) → (∀ sock parsed, ev ≠ EvMessage sock parsed) →
  frame all_but_key w (step LG chk ev w).
Proof.
  intros Hl Hm. pose proof (frame_refl all_but_key w) as R.
  assert (fp_register ⊆ all_but_key) by compute_done.
  assert (fp_fail ⊆ all_but_key) by compute_done.
  assert (fp_run_timer ⊆ all_but_key) by compute_done.
  assert (CtvIp :: Ccalls :: fp_disconnect ⊆ all_but_key) by compute_done.
  assert (fp_disconnect ⊆ all_but_key) by compute_done.
  assert ([CmsgId; Cpending; Ctimers] ⊆ all_but_key) by compute_done.
  destruct ev; simpl; try (by edestruct Hl); try (by edestruct Hm); clear Hl Hm.
  11: { destruct (writes w !! n) as [config|]; [ | exact R ].
        destruct ok; [ apply frame_set_disk; [compute_done |] | ];
          (apply frame_set_writes; [compute_done | exact R]). }
  1: { unfold setStatusCallback. apply frame_set_onStatusChange; [compute_done | exact R]. }
  all: unfold set_socket; unfold all_but_key in *; follow frame.
Qed.

Lemma key_connect_loop c call urls w :
  clientKey (tv (connect_loop c call urls w)) = clientKey (tv w).
Proof.
  symmetry. apply (frame_clientKey fp_connect_loop); [ | compute_done ].
  apply frame_connect_loop; [done | apply frame_refl].
Qed.

Lemma key_fail sock m w : clientKey (tv (fail sock m w)) = clientKey (tv w).
Proof.
  symmetry. apply (frame_clientKey fp_fail); [ | compute_done ].
  apply frame_fail; [done | apply frame_refl].
Qed.

Lemma key_register_handler id sock resp w :
  clientKey (tv (register_handler id sock resp w)) = clientKey (tv w)
  ∨ accepted resp = true
    ∧ ∃ key, nonempty_string (opt_field (get_field resp "payload") "client-key") = Some key
             ∧ clientKey (tv (register_handler id sock resp w)) = Some key.
Proof.
  destruct (accepted resp) eqn:Ha.
  - destruct (register_handler_accepted_state id sock resp w Ha) as (_ & Hk & _).
    rewrite Hk. unfold with_returned_key.
    destruct (nonempty_string _) as [key|] eqn:E; [ | by left ].
    right. split; [done |]. by exists key.
  - left. destruct (type_is resp "error") eqn:He.
    + rewrite register_handler_error by done. rewrite key_fail. simpl.
      by rewrite tv_setStatus.
    + by rewrite register_handler_ignored.
Qed.

Lemma key_invoke h resp w :
  clientKey (tv (invoke h resp w)) = clientKey (tv w)
  ∨ accepted resp = true
    ∧ ∃ key, nonempty_string (opt_field (get_field resp "payload") "client-key") = Some key
             ∧ clientKey (tv (invoke h resp w)) = Some key.
Proof.
  destruct h as [id k|id sock| |]; simpl.
  - left. destruct k; [done |]. symmetry.
    apply (frame_clientKey [CpointerWs; Csockets]); [ | compute_done ].
    eauto 10 with frame.
  - apply key_register_handler.
  - left. symmetry. apply (frame_clientKey [CcurrentApp]); [ | compute_done ].
    eauto 10 with frame.
  - left. symmetry. apply (frame_clientKey [Cvolume; Cmuted]); [ | compute_done ].
    eauto 10 with frame.
Qed.

Lemma key_handleMainMessage parsed w :
  clientKey (tv (handleMainMessage parsed w)) = clientKey (tv w)
  ∨ ∃ resp key, parsed = Some resp ∧ accepted resp = true
      ∧ nonempty_string (opt_field (get_field resp "payload") "client-key") = Some key
      ∧ clientKey (tv (handleMainMessage parsed w)) = Some key.
Proof.
  destruct parsed as [resp|]; [ | by left ].
  destruct (handler_for resp w) as [[id h]|] eqn:E.
  - apply handler_for_Some in E as [Hid Hh].
    rewrite (handleMainMessage_found resp id h w Hid Hh).
    match goal with |- context [invoke h resp ?w1] =>
      assert (Hk : clientKey (tv w1) = clientKey (tv w)) by (by repeat case_match);
      destruct (key_invoke h resp w1) as [Hi | (Ha & key & Hn & Hi)]
    end.
    + left. by rewrite Hi.
    + right. by exists resp, key.
  - left. rewrite handleMainMessage_unsolicited by done. symmetry.
    apply (frame_clientKey [CcurrentApp; Cvolume; Cmuted]); [ | compute_done ].
    unfold unsolicited. pose proof (frame_refl [CcurrentApp; Cvolume; Cmuted] w).
    follow frame.
Qed.

Lemma nonempty_string_Some v key :
  nonempty_string v = Some key → nonempty (Some key) = Some key.
Proof.
  unfold nonempty_string, nonempty. destruct v as [[| | |x| |]|]; try done.
  destruct (String.eqb x EmptyString) eqn:E; [done |]. intros [= <-]. by rewrite E.
Qed.

(** X5: connect, register and disconnect on the credential: a step of the event
    loop changes [clientKey] only to the key on disk, when connect() finds it
    stored for the address it was called with, or to the non-empty key an
    accepted handshake returns.  Nothing sets it back to null.  A key that
    is held in the sense of register(), a non-empty string, is still held
    after every step, disconnect() and connect() to another address
    included, with one exception: when connect() loads a configuration
    stored for its address whose key is the empty string, that empty key
    replaces the one held and register() then sends none. *)
Theorem credential_only_replaced
    (LG : list (string * json)) (chk : bool) (ev : Event) (w : World) :
  key_step ev w (step LG chk ev w)
  ∧ (is_Some (clientKey (tv w)) → is_Some (clientKey (tv (step LG chk ev w))))
  ∧ (holds_key w →
     (∀ c call cfg, ev = EvConfigLoaded c → calls w !! c = Some call →
        phase call = Loading → disk w = Some cfg → TVConfig.tvIp cfg = ip call →
        TVConfig.clientKey cfg ≠ EmptyString) →
     holds_key (step LG chk ev w))
  ∧ (∀ c call cfg, ev = EvConfigLoaded c → calls w !! c = Some call →
       phase call = Loading → disk w = Some cfg → TVConfig.tvIp cfg = ip call →
       TVConfig.clientKey cfg = EmptyString →
       clientKey (tv (step LG chk ev w)) = Some EmptyString
       ∧ ¬ holds_key (step LG chk ev w)
       ∧ handshake_payload LG (tv (step LG chk ev w)) = LG).
Proof.
  assert (Hs : clientKey (tv (step LG chk ev w)) = clientKey (tv w)
    ∨ (∃ c call cfg, ev = EvConfigLoaded c ∧ calls w !! c = Some call
         ∧ phase call = Loading
         ∧ disk w = Some cfg ∧ TVConfig.tvIp cfg = ip call
         ∧ clientKey (tv (step LG chk ev w)) = Some (TVConfig.clientKey cfg))
    ∨ (∃ sock resp key, ev = EvMessage sock (Some resp) ∧ accepted resp = true
         ∧ nonempty_string (opt_field (get_field resp "payload") "client-key") = Some key
         ∧ clientKey (tv (step LG chk ev w)) = Some key)).
  { destruct ev as [cb|addr|c| |key|text|dx dy|sock|sock parsed|sock d|sock|n|n ok].
    3: { cbn [step]. unfold connect_loaded.
         destruct (calls w !! c) as [call|] eqn:Hc; [ | by left ].
         destruct (phase call) eqn:Hp; try by left.
         rewrite key_connect_loop.
         destruct (disk w) as [cfg|] eqn:Hd; [ | by left ].
         destruct (String.eqb (TVConfig.tvIp cfg) (ip call)) eqn:Hip; [ | by left ].
         right; left. apply String.eqb_eq in Hip. by exists c, call, cfg. }
    8: { cbn [step]. destruct (sockets w !! sock) as [s|]; [ | by left ].
         destruct (readyState s), (kind s); try by left.
         destruct (key_handleMainMessage parsed w) as [Hk | (resp & key & -> & Ha & Hn & Hk)];
           [by left |].
         right; right. by exists sock, resp, key. }
    all: left; symmetry; apply (frame_clientKey all_but_key); [ | compute_done ];
      by apply frame_step_key. }
  split_and!.
  - destruct Hs as [E | [(c & call & cfg & H1 & H2 & _ & H3 & H4 & H5) | H]].
    + by left.
    + right; left. by exists c, call, cfg.
    + by right; right.
  - intros Hsome. destruct Hs as [-> | [(c & call & cfg & _ & _ & _ & _ & _ & ->)
                                        | (sock & resp & key & _ & _ & _ & ->)]]; eauto.
  - unfold holds_key. intros Hheld Hdisk.
    destruct Hs as [-> | [(c & call & cfg & H1 & H2 & Hp & H3 & H4 & ->)
                          | (sock & resp & key & _ & _ & Hn & ->)]].
    + exact Hheld.
    + pose proof (Hdisk c call cfg H1 H2 Hp H3 H4) as Hne.
      unfold nonempty. apply String.eqb_neq in Hne. rewrite Hne. by eexists.
    + rewrite (nonempty_string_Some _ _ Hn). by eexists.
  - intros c call cfg -> Hc Hp Hd Hip Hk.
    assert (E : clientKey (tv (step LG chk (EvConfigLoaded c) w)) = Some EmptyString).
    { cbn [step]. unfold connect_loaded. rewrite Hc, Hp, Hd, key_connect_loop.
      rewrite (proj2 (String.eqb_eq _ _) Hip). simpl. by rewrite Hk. }
    split; [exact E |]. unfold holds_key, handshake_payload. rewrite E. simpl.
    split; [ | done ]. by intros [? ?].
Qed.

Lemma credential_only_replaced_witness :
  holds_key ready_session
  ∧ holds_key (step sample_manifest true EvDisconnect ready_session).
Proof.
  assert (H : holds_key ready_session) by (exists "abc123"; vm_compute; reflexivity).
  refine (conj H (proj1 (proj2 (proj2 (credential_only_replaced sample_manifest true
                                         EvDisconnect ready_session))) H _)).
  intros c call cfg Hev. discriminate Hev.
Defined.

(** ** connect() before it loads the configuration *)

Lemma connect_rest addr cb wd :
  onStatusChange (tv wd) = Some cb →
  let w1 := setStatus connecting (upd_tv (set_tvIp (Some addr)) wd) in
  let w' := set_calls (calls w1 ++ [mkConnectCall addr [] Loading]) w1 in
  tv w' = set_status connecting (set_tvIp (Some addr) (tv wd))
  ∧ calls w' = (calls wd ++ [mkConnectCall addr [] Loading])%list
  ∧ trace w' = (trace wd ++ [Notify cb (getStatus (set_status connecting
                                                     (set_tvIp (Some addr) (tv wd))))])%list.
Proof.
  intros Hcb. cbv zeta. unfold setStatus, notify. simpl. by rewrite Hcb.
Qed.

Lemma trace_disconnect w cb :
  onStatusChange (tv w) = Some cb →
  trace (disconnect w)
  = (trace w ++ [Notify cb (TVStatus.mk disconnected (tvIp (tv w)) (currentApp (tv w))
                              (volume (tv w)) (muted (tv w)))])%list.
Proof.
  intros Hcb. unfold disconnect, setStatus, notify. cbv zeta. simpl.
  rewrite !tv_ws_close, Hcb. simpl. by destruct (mainWs (tv w)), (pointerWs (tv w)).
Qed.

(** X6: connect up to its first await: the session gets the new address and
    status 'connecting', and a new call waits for the configuration; the
    message counter and the credential held in memory stay.  When a main
    socket is held, disconnect() runs first: the listener hears
    'disconnected' under the old address and then 'connecting' under the new
    one with app, volume and mute cleared, and the pending requests and
    subscriptions are dropped.  When none is held nothing is torn down: the
    pending requests and subscriptions stay and the one notification carries
    the app, volume and mute of before under the new address. *)
Theorem connect_starts_over_only_with_main_socket (addr : string) (cb : nat) (w : World) :
  onStatusChange (tv w) = Some cb →
  tvIp (tv (connect addr w)) = Some addr
  ∧ status (tv (connect addr w)) = connecting
  ∧ calls (connect addr w) = (calls w ++ [mkConnectCall addr [] Loading])%list
  ∧ msgId (tv (connect addr w)) = msgId (tv w)
  ∧ clientKey (tv (connect addr w)) = clientKey (tv w)
  ∧ connect_start addr cb w (connect addr w).
Proof.
  intros Hcb. unfold connect. cbv zeta. unfold connect_start.
  destruct (mainWs (tv w)) as [m|] eqn:Hm.
  - assert (Hcb' : onStatusChange (tv (disconnect w)) = Some cb)
      by (by rewrite tv_disconnect).
    destruct (connect_rest addr cb (disconnect w) Hcb') as (Htv & Hc & Ht).
    rewrite Htv, Hc, tv_disconnect. destruct (disconnect_rest w) as (_ & -> & _).
    split_and!; [done | done | done | done | done | | done | done | done | done | done].
    apply emitted_app. rewrite Ht, (trace_disconnect w cb Hcb), tv_disconnect.
    by rewrite <- app_assoc.
  - destruct (connect_rest addr cb w Hcb) as (Htv & Hc & Ht).
    rewrite Htv, Hc.
    split_and!; [done | done | done | done | done | | done | done | done | done | done].
    apply emitted_app. by rewrite Ht.
Qed.

Lemma connect_starts_over_only_with_main_socket_witness :
  onStatusChange (tv ready_session) = Some 0%nat
  ∧ tvIp (tv (connect "10.0.0.9" ready_session)) = Some "10.0.0.9".
Proof.
  assert (H : onStatusChange (tv ready_session) = Some 0%nat) by (vm_compute; reflexivity).
  exact (conj H (proj1 (connect_starts_over_only_with_main_socket "10.0.0.9" 0
                          ready_session H))).
Defined.

(** ** The pointer socket *)

(** X7: The onclose and onerror callbacks setupPointerSocket installs: the close
    of a pointer socket, whether it is the one the session currently holds
    or an earlier one, clears [pointerWs] and touches nothing else of the
    session (status and main socket stay, the listener is not told), after
    which moveMouse does nothing; an error on a pointer socket changes
    nothing at all. *)
Theorem pointer_close_clears_pointerWs
    (LG : list (string * json)) (chk : bool) (sock : nat) (s : WebSocket)
    (details : string) (dx dy : Q) (w : World) :
  sockets w !! sock = Some s →
  kind s = PointerSocket →
  readyState s ≠ CLOSED →
  let w' := step LG chk (EvClose sock) w in
  pointerWs (tv w') = None
  ∧ set_pointerWs (pointerWs (tv w)) (tv w') = tv w
  ∧ sockets w' = <[sock := with_readyState CLOSED s]> (sockets w)
  ∧ trace w' = trace w
  ∧ moveMouse chk dx dy w' = w'
  ∧ step LG chk (EvError sock details) w = w.
Proof.
  intros Hs Hk Hr. cbv zeta. cbn [step]. rewrite Hs, Hk.
  destruct (readyState s) eqn:E; try done; simpl; by destruct (tv w).
Qed.

Lemma pointer_close_clears_pointerWs_witness :
  sockets ready_session !! 1%nat
    = Some (mkWebSocket "wss://10.0.0.5:3001/pointer" OPEN PointerSocket)
  ∧ pointerWs (tv ready_session) = Some 1%nat
  ∧ pointerWs (tv (step sample_manifest true (EvClose 1) ready_session)) = None.
Proof.
  assert (Hs : sockets ready_session !! 1%nat
               = Some (mkWebSocket "wss://10.0.0.5:3001/pointer" OPEN PointerSocket))
    by (vm_compute; reflexivity).
  assert (Hp : pointerWs (tv ready_session) = Some 1%nat) by (vm_compute; reflexivity).
  assert (Hr : readyState (mkWebSocket "wss://10.0.0.5:3001/pointer" OPEN PointerSocket)
               ≠ CLOSED) by discriminate.
  exact (conj Hs (conj Hp
          (proj1 (pointer_close_clears_pointerWs sample_manifest true 1%nat _
                    "reset" 0 0 ready_session Hs eq_refl Hr)))).
Defined.

(** ** click() *)

(** X8: click: without an open pointer socket nothing is sent and no release is
    scheduled.  With one, the button-down frame 2,1,0,0 goes out at once and
    nothing else changes; when the release then fires with the socket still
    open, the button-up frame 3,1,0,0 follows on the same socket; when it
    fires after the session dropped the pointer socket (disconnect(), or the
    socket closed), it sends nothing and raises nothing. *)
Theorem click_press_then_release (sock : nat) (w : World) :
  (is_open (pointerWs (tv w)) w = false → click w = (w, None))
  ∧ (pointerWs (tv w) = Some sock → is_open (Some sock) w = true →
     click w = (emit (SendBytes sock [2; 1; 0; 0]%Z) w, Some T_release)
     ∧ run_pointer_timer T_release (click w).1
       = inl (emit (SendBytes sock [3; 1; 0; 0]%Z) (emit (SendBytes sock [2; 1; 0; 0]%Z) w))
     ∧ run_pointer_timer T_release (disconnect (click w).1) = inl (disconnect (click w).1))
  ∧ (pointerWs (tv w) = None → run_pointer_timer T_release w = inl w).
Proof.
  split_and!.
  - unfold click. destruct (pointerWs (tv w)) as [p|]; [ | done ]. by intros ->.
  - intros Hp Ho. unfold click. rewrite Hp, Ho. split_and!; [done | | ].
    + unfold is_open in Ho. simpl. rewrite Hp.
      destruct (sockets w !! sock) as [s|]; [ | done ]. by destruct (readyState s).
    + unfold run_pointer_timer. by rewrite tv_disconnect.
  - intros Hp. simpl. by rewrite Hp.
Qed.

Lemma click_press_then_release_witness :
  pointerWs (tv ready_session) = Some 1%nat
  ∧ is_open (Some 1%nat) ready_session = true
  ∧ click ready_session = (emit (SendBytes 1 [2; 1; 0; 0]%Z) ready_session, Some T_release).
Proof.
  assert (Hp : pointerWs (tv ready_session) = Some 1%nat) by (vm_compute; reflexivity).
  assert (Ho : is_open (Some 1%nat) ready_session = true) by (vm_compute; reflexivity).
  exact (conj Hp (conj Ho
          (proj1 (proj1 (proj2 (click_press_then_release 1 ready_session)) Hp Ho)))).
Defined.

(** ** The registration timer *)

Lemma lookup_set_call c call w :
  (c < length (calls w))%nat → calls (set_call c call w) !! c = Some call.
Proof. intros H. simpl. by apply list_lookup_insert_eq. Qed.

Lemma connect_loop_next c call u rest w :
  (c < length (calls w))%nat →
  let w' := connect_loop c call (u :: rest) w in
  calls w' !! c = Some (mkConnectCall (ip call) (errors call) (Trying u rest))
  ∧ status (tv w') = connecting
  ∧ mainWs (tv w') = Some (length (sockets w))
  ∧ sockets w' !! length (sockets w) = Some (mkWebSocket u CONNECTING (MainSocket c false)).
Proof.
  intros Hc. cbv zeta. unfold connect_loop, connectWebSocket, setStatus, notify. simpl.
  destruct (onStatusChange (tv w)); simpl;
    (split_and!; [by apply list_lookup_insert_eq | done | done | ]);
    by rewrite lookup_app_r, Nat.sub_diag.
Qed.

Lemma connect_loop_end c call w :
  (c < length (calls w))%nat →
  let w' := connect_loop c call [] w in
  calls w' !! c
    = Some (mkConnectCall (ip call) (errors call)
              (Threw ("Failed to connect to TV. Attempts: " ++ join " | " (errors call))))
  ∧ status (tv w') = disconnected
  ∧ mainWs (tv w') = mainWs (tv w)
  ∧ sockets w' = sockets w.
Proof.
  intros Hc. cbv zeta. unfold connect_loop, setStatus, notify. simpl.
  destruct (onStatusChange (tv w)); simpl;
    (split_and!; [by apply list_lookup_insert_eq | done | done | done]).
Qed.

Lemma length_ws_close h w : length (sockets (ws_close h w)) = length (sockets w).
Proof. destruct h; simpl; [by rewrite length_alter | done]. Qed.

Lemma calls_ws_close' h w : calls (ws_close h w) = calls w.
Proof. by destruct h. Qed.

Lemma catch_teardown w :
  let wa := upd_tv (set_mainWs None) (ws_close (mainWs (tv w)) w) in
  let w1 := upd_tv (set_pointerWs None) (ws_close (pointerWs (tv wa)) wa) in
  calls w1 = calls w ∧ length (sockets w1) = length (sockets w) ∧ mainWs (tv w1) = None.
Proof.
  cbv zeta. destruct (mainWs (tv w)); simpl; destruct (pointerWs (tv w)); simpl;
    by rewrite ?length_alter.
Qed.

Lemma fail_after_failed_attempt sock s c call u rest message w :
  sockets w !! sock = Some s → kind s = MainSocket c false →
  calls w !! c = Some call → phase call = Trying u rest →
  after_failed_attempt c call u rest message w (fail sock message w).
Proof.
  intros Hs Hk Hc Hp. unfold fail. rewrite Hs, Hk. unfold connect_catch.
  cbn [calls clearTimeout set_sockets set_timers]. rewrite Hc, Hp.
  match goal with |- context [connect_loop c ?cl rest (upd_tv _ (ws_close _ (upd_tv _ (ws_close _ ?w0))))] =>
    destruct (catch_teardown w0) as (Hcalls & Hsock & Hmain);
    assert (Hw0 : calls w0 = calls w ∧ length (sockets w0) = length (sockets w))
      by (simpl; by rewrite length_alter)
  end.
  destruct Hw0 as (Hc0 & Hs0). rewrite Hc0 in Hcalls. rewrite Hs0 in Hsock.
  match goal with |- context [connect_loop c ?cl rest ?w1] =>
    assert (Hlen : (c < length (calls w1))%nat)
      by (rewrite Hcalls; by eapply lookup_lt_Some);
    generalize dependent w1
  end.
  intros w1 Hcalls Hsock Hmain Hlen.
  unfold after_failed_attempt. destruct rest as [|next rest'].
  - destruct (connect_loop_end c (mkConnectCall (ip call)
                (app (errors call) [u ++ " -> " ++ message]) (Trying u [])) w1 Hlen)
      as (H1 & H2 & H3 & H4).
    split_and!; [exact H1 | exact H2 | by rewrite H3 | by rewrite H4].
  - rewrite <- Hsock.
    apply (connect_loop_next c (mkConnectCall (ip call)
             (app (errors call) [u ++ " -> " ++ message]) (Trying u (next :: rest')))).
    exact Hlen.
Qed.

Lemma after_failed_attempt_from c call u rest message w0 w w' :
  length (sockets w0) = length (sockets w) →
  after_failed_attempt c call u rest message w0 w' →
  after_failed_attempt c call u rest message w w'.
Proof.
  unfold after_failed_attempt. intros E. destruct rest; by rewrite E.
Qed.

(** X9: connectWebSocket's callbacks and the catch block of connect(): while a
    connect() call waits on the socket of its attempt on endpoint u, an
    error on that socket, its close, and the 12-second connection timer
    each reject the attempt with their own message; the call records
    "u -> message" after the entries it already has and goes on to the next
    endpoint with a new socket and status 'connecting', or, when u was the
    last one, is rejected with the aggregated message and leaves the session
    'disconnected' without a main socket. *)
Theorem failed_attempt_moves_to_next_endpoint
    (sock : nat) (s : WebSocket) (c : nat) (call : ConnectCall) (u : string)
    (rest : list string) (details : string) (w : World) :
  sockets w !! sock = Some s →
  kind s = MainSocket c false →
  calls w !! c = Some call →
  phase call = Trying u rest →
  after_failed_attempt c call u rest
    ("WebSocket connection failed at " ++ url s ++ ": " ++ details) w
    (main_onerror sock s details w)
  ∧ after_failed_attempt c call u rest ("Socket closed at " ++ url s) w
      (main_onclose sock s w)
  ∧ after_failed_attempt c call u rest ("Connection timed out at " ++ url s) w
      (run_timer (T_connect sock) w).
Proof.
  intros Hs Hk Hc Hp. split_and!.
  - unfold main_onerror. by eapply fail_after_failed_attempt.
  - unfold main_onclose. rewrite Hk.
    eapply (after_failed_attempt_from _ _ _ _ _
              (upd_tv (set_pointerWs None) (ws_close (pointerWs (tv w)) w))).
    + simpl. by rewrite length_ws_close.
    + assert (Hs' : ∃ s', sockets (ws_close (pointerWs (tv w)) w) !! sock = Some s'
                          ∧ kind s' = MainSocket c false).
      { destruct (keeps_ws_close (pointerWs (tv w)) w sock s Hs) as (s' & E & K & _).
        exists s'. by rewrite K. }
      destruct Hs' as (s' & Hs' & Hk').
      eapply fail_after_failed_attempt; [exact Hs' | exact Hk' | | exact Hp ].
      simpl. by rewrite calls_ws_close'.
  - simpl. rewrite Hs. by eapply fail_after_failed_attempt.
Qed.

Lemma failed_attempt_moves_to_next_endpoint_witness :
  sockets first_attempt !! 0%nat
    = Some (mkWebSocket "wss://10.0.0.5:3001" CONNECTING (MainSocket 0 false))
  ∧ calls first_attempt !! 0%nat
    = Some (mkConnectCall "10.0.0.5" []
              (Trying "wss://10.0.0.5:3001" ["wss://10.0.0.5:3000"; "ws://10.0.0.5:3000"]))
  ∧ after_failed_attempt 0
      (mkConnectCall "10.0.0.5" []
         (Trying "wss://10.0.0.5:3001" ["wss://10.0.0.5:3000"; "ws://10.0.0.5:3000"]))
      "wss://10.0.0.5:3001" ["wss://10.0.0.5:3000"; "ws://10.0.0.5:3000"]
      ("Connection timed out at " ++ "wss://10.0.0.5:3001") first_attempt
      (run_timer (T_connect 0) first_attempt).
Proof.
  assert (Hs : sockets first_attempt !! 0%nat
               = Some (mkWebSocket "wss://10.0.0.5:3001" CONNECTING (MainSocket 0 false)))
    by (vm_compute; reflexivity).
  assert (Hc : calls first_attempt !! 0%nat
               = Some (mkConnectCall "10.0.0.5" []
                         (Trying "wss://10.0.0.5:3001"
                            ["wss://10.0.0.5:3000"; "ws://10.0.0.5:3000"])))
    by (vm_compute; reflexivity).
  exact (conj Hs (conj Hc
          (proj2 (proj2 (failed_attempt_moves_to_next_endpoint 0%nat _ 0%nat _ _ _
                           "ECONNREFUSED" first_attempt Hs eq_refl Hc eq_refl))))).
Defined.

(** X10: register()'s 30-second timer: when it fires while the registration
    entry is still in the map, the entry and registrationRequestId are
    cleared and the handshake is rejected with the time-out message, which
    fails the attempt like any other: connect() records it for the endpoint
    and moves on, the session status is not set to 'disconnected' unless
    that was the last endpoint.  When the entry is gone, the timer does
    nothing. *)
Theorem registration_timeout_fails_the_attempt
    (id : string) (h : Handler) (sock : nat) (s : WebSocket) (c : nat)
    (call : ConnectCall) (u : string) (rest : list string) (w : World) :
  pendingRequests (tv w) !! id = Some h →
  sockets w !! sock = Some s →
  kind s = MainSocket c false →
  calls w !! c = Some call →
  phase call = Trying u rest →
  let w' := run_timer (T_register id sock) w in
  pendingRequests (tv w') = delete id (pendingRequests (tv w))
  ∧ registrationRequestId (tv w') = None
  ∧ RegisterRejected id registration_timeout ∈ emitted w w'
  ∧ after_failed_attempt c call u rest registration_timeout w w'
  ∧ run_timer (T_register id sock) w' = w'.
Proof.
  intros Hh Hs Hk Hc Hp. cbv zeta.
  assert (E : run_timer (T_register id sock) w
              = fail sock registration_timeout
                  (emit (RegisterRejected id registration_timeout)
                     (upd_tv (set_registrationRequestId None) (pending_delete id w))))
    by (simpl; by rewrite Hh).
  rewrite E.
  set (w0 := emit (RegisterRejected id registration_timeout)
               (upd_tv (set_registrationRequestId None) (pending_delete id w))).
  assert (F : frame fp_fail w0 (fail sock registration_timeout w0))
    by (apply frame_fail; [done | apply frame_refl]).
  assert (Hpend : pendingRequests (tv (fail sock registration_timeout w0))
                  = delete id (pendingRequests (tv w))).
  { rewrite <- (frame_pendingRequests _ _ _ F) by compute_done. done. }
  split_and!.
  - exact Hpend.
  - rewrite <- (frame_registrationRequestId _ _ _ F) by compute_done. done.
  - eapply (emitted_between [] [KNotify; KConnectThrew] _ w
              (upd_tv (set_registrationRequestId None) (pending_delete id w))).
    + eauto with emits.
    + apply emits_fail; [done | apply emits_refl].
  - eapply (after_failed_attempt_from _ _ _ _ _ w0); [done |].
    by eapply fail_after_failed_attempt.
  - simpl. rewrite Hpend. by rewrite lookup_delete_eq.
Qed.

Lemma registration_timeout_fails_the_attempt_witness :
  pendingRequests (tv pairing_session) !! "msg_1" = Some (H_register "msg_1" 0)
  ∧ sockets pairing_session !! 0%nat
    = Some (mkWebSocket "wss://10.0.0.5:3001" OPEN (MainSocket 0 false))
  ∧ calls pairing_session !! 0%nat
    = Some (mkConnectCall "10.0.0.5" []
              (Trying "wss://10.0.0.5:3001" ["wss://10.0.0.5:3000"; "ws://10.0.0.5:3000"]))
  ∧ registrationRequestId (tv (run_timer (T_register "msg_1" 0) pairing_session)) = None.
Proof.
  assert (Hh : pendingRequests (tv pairing_session) !! "msg_1" = Some (H_register "msg_1" 0))
    by (vm_compute; reflexivity).
  assert (Hs : sockets pairing_session !! 0%nat
               = Some (mkWebSocket "wss://10.0.0.5:3001" OPEN (MainSocket 0 false)))
    by (vm_compute; reflexivity).
  assert (Hc : calls pairing_session !! 0%nat
               = Some (mkConnectCall "10.0.0.5" []
                         (Trying "wss://10.0.0.5:3001"
                            ["wss://10.0.0.5:3000"; "ws://10.0.0.5:3000"])))
    by (vm_compute; reflexivity).
  exact (conj Hh (conj Hs (conj Hc
          (proj1 (proj2 (registration_timeout_fails_the_attempt "msg_1" _ 0%nat _ 0%nat _ _ _
                           pairing_session Hh Hs eq_refl Hc eq_refl)))))).
Defined.

(** ** The attempts of connect(), one after the other *)

Lemma emits_notifications w0 w :
  emits [KNotify] w0 w ↔ ∃ l, trace w = (trace w0 ++ l)%list ∧ Forall is_notification l.
Proof.
  unfold emits, is_notification. split; intros (l & E & Hl); exists l; (split; [done |]);
    eapply Forall_impl; try exact Hl; simpl; intros e He.
  - by apply list_elem_of_singleton in He.
  - by apply list_elem_of_singleton.
Qed.

Lemma catch_teardown_rest w :
  let wa := upd_tv (set_mainWs None) (ws_close (mainWs (tv w)) w) in
  let w1 := upd_tv (set_pointerWs None) (ws_close (pointerWs (tv wa)) wa) in
  timers w1 = timers w ∧ trace w1 = trace w
  ∧ msgId (tv w1) = msgId (tv w) ∧ clientKey (tv w1) = clientKey (tv w).
Proof.
  cbv zeta. by destruct (mainWs (tv w)); simpl; destruct (pointerWs (tv w)); simpl.
Qed.

Lemma connect_loop_next_rest c call u rest w :
  let w' := connect_loop c call (u :: rest) w in
  length (sockets w') = S (length (sockets w))
  ∧ timers w' = (timers w ++ [T_connect (length (sockets w))])%list
  ∧ emits [KNotify] w w'
  ∧ msgId (tv w') = msgId (tv w) ∧ clientKey (tv w') = clientKey (tv w).
Proof.
  cbv zeta. unfold connect_loop, connectWebSocket, setStatus, notify. simpl.
  destruct (onStatusChange (tv w)); simpl; rewrite length_app; simpl;
    (split_and!; [lia | done | | done | done]).
  - exists [Notify n (getStatus (set_status connecting (tv w)))]. split; [done |].
    repeat constructor.
  - exists []. split; [simpl; by rewrite app_nil_r | constructor].
Qed.

Lemma connect_loop_end_trace c call w :
  ∃ l, trace (connect_loop c call [] w)
       = (trace w ++ l
          ++ [ConnectThrew c ("Failed to connect to TV. Attempts: "
                              ++ join " | " (errors call))%string])%list
       ∧ Forall is_notification l.
Proof.
  unfold connect_loop, setStatus, notify. simpl.
  destruct (onStatusChange (tv w)); simpl.
  - eexists [_]. rewrite <- app_assoc. split; [reflexivity |]. by repeat constructor.
  - exists []. split; [reflexivity | constructor].
Qed.

(** What [fail] adds to the facts of [after_failed_attempt]: the effects,
    the timers and the number of sockets. *)
Lemma fail_trace sock s c call u rest message w :
  sockets w !! sock = Some s → kind s = MainSocket c false →
  calls w !! c = Some call → phase call = Trying u rest →
  let w' := fail sock message w in
  msgId (tv w') = msgId (tv w) ∧ clientKey (tv w') = clientKey (tv w)
  ∧ match rest with
    | next :: _ =>
        length (sockets w') = S (length (sockets w))
        ∧ timers w'
          = (filter (fun t' => t' ≠ T_connect sock) (timers w)
             ++ [T_connect (length (sockets w))])%list
        ∧ emits [KNotify] w w'
    | [] =>
        ∃ l, trace w'
             = (trace w ++ l
                ++ [ConnectThrew c
                      ("Failed to connect to TV. Attempts: "
                       ++ join " | "
                            (app (errors call) [(u ++ " -> " ++ message)%string]))%string])%list
             ∧ Forall is_notification l
    end.
Proof.
  intros Hs Hk Hc Hp. cbv zeta. unfold fail. rewrite Hs, Hk. unfold connect_catch.
  cbn [calls clearTimeout set_sockets set_timers]. rewrite Hc, Hp.
  match goal with |- context [connect_loop c ?cl rest (upd_tv _ (ws_close _ (upd_tv _ (ws_close _ ?w0))))] =>
    destruct (catch_teardown w0) as (_ & Hsock & _);
    destruct (catch_teardown_rest w0) as (Htim & Htr & Hid & Hkey);
    assert (Hw0 : length (sockets w0) = length (sockets w)
                  ∧ timers w0 = filter (fun t' => t' ≠ T_connect sock) (timers w)
                  ∧ trace w0 = trace w ∧ msgId (tv w0) = msgId (tv w)
                  ∧ clientKey (tv w0) = clientKey (tv w))
      by (simpl; by rewrite length_alter)
  end.
  destruct Hw0 as (Hs0 & Ht0 & Hr0 & Hi0 & Hk0).
  rewrite Hs0 in Hsock. rewrite Ht0 in Htim. rewrite Hr0 in Htr.
  rewrite Hi0 in Hid. rewrite Hk0 in Hkey.
  match goal with |- context [connect_loop c ?cl rest ?w1] =>
    generalize dependent w1
  end.
  intros w1 Hsock Htim Htr Hid Hkey.
  destruct rest as [|next rest'].
  - split_and!.
    + unfold connect_loop, setStatus, notify. simpl. by destruct (onStatusChange (tv w1)).
    + unfold connect_loop, setStatus, notify. simpl. by destruct (onStatusChange (tv w1)).
    + destruct (connect_loop_end_trace c (mkConnectCall (ip call)
                  (app (errors call) [u ++ " -> " ++ message]) (Trying u [])) w1)
        as (l & El & Hl).
      exists l. by rewrite El, Htr.
  - match goal with |- context [connect_loop c ?cl _ w1] =>
      destruct (connect_loop_next_rest c cl next rest' w1) as (H1 & H2 & H3 & H4 & H5)
    end.
    rewrite H4, H5, H1, H2, Hsock, Htim, Hid, Hkey. split_and!; try done.
    destruct H3 as (l & El & Hl). exists l. by rewrite El, Htr.
Qed.

Lemma last_snoc {A} (l : list A) (x : A) : last (l ++ [x]) = Some x.
Proof. induction l as [|a [|b l] IH]; try done. Qed.

Lemma last_lookup_pred {A} (l : list A) (x : A) :
  last l = Some x → l !! pred (length l) = Some x.
Proof. rewrite last_lookup. done. Qed.

(** A failure of its transport ends the attempt: the call records it and
    waits on the next endpoint, or is rejected when none is left. *)
Lemma attempt_fails LG chk f c call u rest sock w :
  Attempt c call u rest sock w →
  let w' := step LG chk (failure_event f sock w) w in
  let errs := app (errors call) [u ++ " -> " ++ failure_reason f u] in
  match rest with
  | next :: rest' =>
      Attempt c (mkConnectCall (ip call) errs (Trying next rest')) next rest' (S sock) w'
      ∧ emits [KNotify] w w'
  | [] =>
      calls w' !! c
        = Some (mkConnectCall (ip call) errs
                  (Threw ("Failed to connect to TV. Attempts: " ++ join " | " errs)))
      ∧ status (tv w') = disconnected
      ∧ ∃ l, trace w'
             = (trace w ++ l
                ++ [ConnectThrew c ("Failed to connect to TV. Attempts: "
                                    ++ join " | " errs)%string])%list
             ∧ Forall is_notification l
  end.
Proof.
  intros (Hc & Hp & (s & Hs & Hu & Hk & Hrs) & Hlen & Hlast). cbv zeta.
  (* every failure ends in [fail] on a state that differs from [w] in what
     [fail] does not read *)
  assert (Hfail : ∃ w0 s0,
            step LG chk (failure_event f sock w) w = fail sock (failure_reason f u) w0
            ∧ sockets w0 !! sock = Some s0 ∧ kind s0 = MainSocket c false
            ∧ calls w0 = calls w ∧ length (sockets w0) = length (sockets w)
            ∧ trace w0 = trace w).
  { destruct f as [d | | ].
    - exists w, s. simpl. rewrite Hs, Hk. unfold main_onerror. by rewrite Hu.
    - simpl. rewrite Hs.
      assert (Hstep : match readyState s with
                | CLOSED => w
                | _ => match kind s with
                       | MainSocket _ _ =>
                           main_onclose sock s (set_socket sock (with_readyState CLOSED s) w)
                       | PointerSocket =>
                           upd_tv (set_pointerWs None)
                             (set_socket sock (with_readyState CLOSED s) w)
                       end
                end = main_onclose sock s (set_socket sock (with_readyState CLOSED s) w))
        by (rewrite Hk; by destruct (readyState s)).
      rewrite Hstep. unfold main_onclose. rewrite Hk, Hu.
      set (wc := set_socket sock (with_readyState CLOSED s) w).
      assert (Hsc : sockets wc !! sock = Some (with_readyState CLOSED s)).
      { unfold wc, set_socket. simpl. apply list_lookup_insert_eq.
        by eapply lookup_lt_Some. }
      destruct (keeps_ws_close (pointerWs (tv wc)) wc sock _ Hsc) as (s' & E & K & _).
      exists (upd_tv (set_pointerWs None) (ws_close (pointerWs (tv wc)) wc)), s'.
      split; [done |]. split; [exact E |]. split; [by rewrite K |].
      split; [simpl; by rewrite calls_ws_close' |].
      split; [ | by destruct (pointerWs (tv wc)) ].
      simpl. rewrite length_ws_close. unfold wc, set_socket. simpl.
      by rewrite length_insert.
    - exists (set_timers (delete (pred (length (timers w))) (timers w)) w), s.
      simpl. rewrite (last_lookup_pred _ _ Hlast). simpl. rewrite Hs. by rewrite Hu. }
  destruct Hfail as (w0 & s0 & -> & Hs0 & Hk0 & Hc0 & Hl0 & Ht0).
  rewrite <- Hc0 in Hc.
  pose proof (fail_after_failed_attempt sock s0 c call u rest (failure_reason f u) w0
                Hs0 Hk0 Hc Hp) as A.
  destruct (fail_trace sock s0 c call u rest (failure_reason f u) w0 Hs0 Hk0 Hc Hp)
    as (_ & _ & T).
  unfold after_failed_attempt in A. destruct rest as [|next rest'].
  - destruct A as (A1 & A2 & _). destruct T as (l & El & Hl).
    split; [exact A1 |]. split; [exact A2 |]. exists l. by rewrite El, Ht0.
  - destruct A as (A1 & A2 & A3 & A4). destruct T as (T1 & T2 & T3).
    rewrite Hl0, Hlen in *. split.
    + split; [exact A1 |]. split; [done |]. split.
      * eexists. split; [exact A4 |]. done.
      * split; [exact T1 |]. rewrite T2. apply last_snoc.
    + destruct T3 as (l & El & Hl). exists l. by rewrite El, Ht0.
Qed.

Lemma notify_rest w :
  calls (notify w) = calls w ∧ sockets (notify w) = sockets w.
Proof. unfold notify. by case_match. Qed.

Lemma disconnect_keeps_calls w :
  calls (disconnect w) = calls w ∧ length (sockets (disconnect w)) = length (sockets w).
Proof.
  unfold disconnect. cbv zeta. cbn [calls sockets upd_tv]. unfold setStatus.
  rewrite (proj1 (notify_rest _)), (proj2 (notify_rest _)). cbn [calls sockets upd_tv].
  by rewrite !calls_ws_close', !length_ws_close.
Qed.

Lemma connect_rest_calls addr w :
  calls (connect addr w) = (calls w ++ [mkConnectCall addr [] Loading])%list
  ∧ length (sockets (connect addr w)) = length (sockets w).
Proof.
  unfold connect. cbn [calls sockets set_calls]. unfold setStatus.
  rewrite (proj1 (notify_rest _)), (proj2 (notify_rest _)). cbn [calls sockets upd_tv].
  destruct (mainWs (tv w)); [ | done ].
  by rewrite (proj1 (disconnect_keeps_calls w)), (proj2 (disconnect_keeps_calls w)).
Qed.

(** connect(ip), once its configuration is loaded, waits on its first
    attempt. *)
Lemma connect_attempt LG chk addr w :
  let c := length (calls w) in
  let w' := run LG chk [EvConnect addr; EvConfigLoaded c] w in
  Attempt c (mkConnectCall addr [] (Trying ("wss://" ++ addr ++ ":3001")
                                           ["wss://" ++ addr ++ ":3000";
                                            "ws://" ++ addr ++ ":3000"]))
    ("wss://" ++ addr ++ ":3001")
    ["wss://" ++ addr ++ ":3000"; "ws://" ++ addr ++ ":3000"]
    (length (sockets w)) w'
  ∧ emits [KNotify] w w'.
Proof.
  cbv zeta. unfold run. cbn [foldl step].
  destruct (connect_rest_calls addr w) as (Hc & Hl).
  assert (He : emits [KNotify] w (connect addr w))
    by (apply emits_connect; [set_solver | apply emits_refl]).
  set (w1 := connect addr w) in *.
  unfold connect_loaded.
  rewrite Hc, lookup_app_r, Nat.sub_diag by done. cbn [lookup list_lookup phase ip]. unfold wsUrls.
  match goal with |- context [connect_loop _ ?cl ?us ?x] => set (w2 := x); set (call := cl) end.
  assert (H2 : calls w2 = calls w1 ∧ sockets w2 = sockets w1 ∧ trace w2 = trace w1).
  { unfold w2. destruct (disk w1) as [cfg|]; [ | done ]. by case_match. }
  destruct H2 as (Hc2 & Hs2 & Ht2).
  assert (Hlt : (length (calls w) < length (calls w2))%nat).
  { rewrite Hc2, Hc, length_app. simpl. lia. }
  destruct (connect_loop_next (length (calls w)) call ("wss://" ++ addr ++ ":3001")
              ["wss://" ++ addr ++ ":3000"; "ws://" ++ addr ++ ":3000"] w2 Hlt)
    as (A1 & A2 & A3 & A4).
  destruct (connect_loop_next_rest (length (calls w)) call ("wss://" ++ addr ++ ":3001")
              ["wss://" ++ addr ++ ":3000"; "ws://" ++ addr ++ ":3000"] w2)
    as (B1 & B2 & B3 & _).
  rewrite Hs2, Hl in *. split.
  - split; [exact A1 |]. split; [done |]. split.
    + eexists. split; [exact A4 |]. done.
    + split; [exact B1 |]. rewrite B2. apply last_snoc.
  - eapply emits_trans; [exact He |].
    destruct B3 as (l & El & Hl'). exists l. by rewrite El, Ht2.
Qed.

(** The new socket of an attempt opens: register() sends the handshake on
    it, with the next identifier and the credential held. *)
Lemma open_registers LG chk n u c w :
  sockets w !! n = Some (mkWebSocket u CONNECTING (MainSocket c false)) →
  mainWs (tv w) = Some n →
  let w' := step LG chk (EvOpen n) w in
  let id := msg_id (S (msgId (tv w))) in
  Send n (register_message LG (tv w) id) ∈ emitted w w'
  ∧ status (tv w') = pairing
  ∧ registrationRequestId (tv w') = Some id
  ∧ pendingRequests (tv w') !! id = Some (H_register id n).
Proof.
  intros Hs Hm. cbv zeta. simpl. rewrite Hs. simpl.
  unfold main_onopen, register, nextId, send_main, ws_send, setStatus, notify, set_socket,
    register_message, handshake_payload.
  assert (Hlk : <[n := with_readyState OPEN (mkWebSocket u CONNECTING (MainSocket c false))]>
                  (sockets w) !! n
                = Some (with_readyState OPEN (mkWebSocket u CONNECTING (MainSocket c false))))
    by (apply list_lookup_insert_eq; by eapply lookup_lt_Some).
  simpl. destruct (onStatusChange (tv w)) as [cb|]; simpl; rewrite Hm; simpl; rewrite Hlk; simpl.
  - split_and!; try done; [ | apply lookup_insert_eq ].
    unfold emitted. simpl. rewrite <- app_assoc, drop_app_length.
    apply list_elem_of_further, list_elem_of_here.
  - split_and!; try done; [ | apply lookup_insert_eq ].
    unfold emitted. simpl. rewrite drop_app_length. apply list_elem_of_here.
Qed.

(** ** C3: the outcome of the handshake *)

Lemma rest_before_fail e s w :
  sockets (emit e (setStatus s w)) = sockets w
  ∧ calls (emit e (setStatus s w)) = calls w
  ∧ msgId (tv (emit e (setStatus s w))) = msgId (tv w)
  ∧ emits [KNotify] w (setStatus s w).
Proof.
  unfold setStatus. cbn [sockets calls emit tv].
  rewrite (proj1 (notify_rest _)), (proj2 (notify_rest _)), tv_notify.
  split_and!; try done. apply emits_notify; [set_solver |]. apply emits_upd_tv, emits_refl.
Qed.

(** The write that saveConfig starts when the address and the key it finds
    are not empty. *)
Lemma saveConfig_writes a key w :
  nonempty (tvIp (tv w)) = Some a → nonempty (clientKey (tv w)) = Some key →
  saveConfig w
  = emit (WriteFile (TVConfig.mk a key)) (set_writes (writes w ++ [TVConfig.mk a key]) w).
Proof. intros Ha Hk. unfold saveConfig. by rewrite Ha, Hk. Qed.

(** C3 (as the code has it): while the session is pairing, the response
    carrying the identifier of the registration request resolves the
    handshake, and makes the session 'ready', exactly when its type is
    "registered" or its type is "response" and it carries a non-empty string
    client-key.  A non-empty returned key becomes the stored credential,
    otherwise the credential is kept; the credential then held is written to
    the configuration file with the address.  On type "error" the handler
    sets the status to 'disconnected' and rejects the handshake with the
    error, the registration entry is gone and nothing is sent in that step;
    the rejection fails the attempt on the current endpoint only: connect()
    records "endpoint -> error" and goes on to the next candidate endpoint
    with status 'connecting' and a new socket, on which register() sends the
    handshake again when it opens; connect() is rejected, and the session
    left 'disconnected', only when the endpoint was the last one. *)
Theorem handshake_outcome
    (LG : list (string * json)) (chk : bool)
    (resp : json) (id : string) (sock : nat) (w : World) :
  get_field resp "id" = Some (JStr id) →
  registrationRequestId (tv w) = Some id →
  pendingRequests (tv w) !! id = Some (H_register id sock) →
  status (tv w) = pairing →
  let w' := handleMainMessage (Some resp) w in
  (accepted resp = true ↔ RegisterResolved id ∈ emitted w w')
  ∧ (accepted resp = true ↔ status (tv w') = ready)
  ∧ (∀ key, accepted resp = true →
       nonempty_string (opt_field (get_field resp "payload") "client-key") = Some key →
       clientKey (tv w') = Some key)
  ∧ (accepted resp = true →
       nonempty_string (opt_field (get_field resp "payload") "client-key") = None →
       clientKey (tv w') = clientKey (tv w))
  ∧ (∀ a key, accepted resp = true →
       nonempty (tvIp (tv w)) = Some a →
       nonempty (clientKey (tv w')) = Some key →
       WriteFile (TVConfig.mk a key) ∈ emitted w w'
       ∧ writes w' = (writes w ++ [TVConfig.mk a key])%list)
  ∧ (type_is resp "error" = true →
       w' = fail sock (rejection_message resp)
              (emit (RegisterRejected id (rejection_message resp))
                 (setStatus disconnected
                    (upd_tv (set_registrationRequestId None) (pending_delete id w))))
       ∧ RegisterRejected id (rejection_message resp) ∈ emitted w w'
       ∧ (∀ s m, Send s m ∉ emitted w w')
       ∧ pendingRequests (tv w') !! id = None
       ∧ registrationRequestId (tv w') = None
       ∧ (status (tv w') = disconnected ∨ status (tv w') = connecting)
       ∧ ∀ s c call u rest,
           sockets w !! sock = Some s → kind s = MainSocket c false →
           calls w !! c = Some call → phase call = Trying u rest →
           after_failed_attempt c call u rest (rejection_message resp) w w'
           ∧ match rest with
             | _ :: _ =>
                 let w'' := step LG chk (EvOpen (length (sockets w))) w' in
                 Send (length (sockets w))
                   (register_message LG (tv w') (msg_id (S (msgId (tv w)))))
                   ∈ emitted w' w''
                 ∧ status (tv w'') = pairing
                 ∧ ∀ m, ConnectThrew c m ∉ emitted w w'
             | [] =>
                 ConnectThrew c
                   ("Failed to connect to TV. Attempts: "
                    ++ join " | "
                         (app (errors call) [u ++ " -> " ++ rejection_message resp]))
                   ∈ emitted w w'
             end).
Proof.
  intros Hid Hreg Hh Hst. cbv zeta.
  rewrite (handleMainMessage_registration resp id sock w Hid Hreg Hh).
  set (w0 := registration_dispatch resp id w).
  destruct (registration_dispatch_same resp id w) as (Ht0 & Hs0 & Hk0 & Hip0 & Hw0 & _).
  fold w0 in Ht0, Hs0, Hk0, Hip0, Hw0.
  assert (He0 : ∀ ks, emits ks w w0) by (intros; apply emits_registration_dispatch).
  set (w1 := emit (RegisterRejected id (rejection_message resp))
               (setStatus disconnected
                  (upd_tv (set_registrationRequestId None) (pending_delete id w)))).
  assert (Herr : type_is resp "error" = true →
     register_handler id sock resp w0 = fail sock (rejection_message resp) w1
     ∧ emits [KNotify; KRegisterRejected; KConnectThrew] w
         (register_handler id sock resp w0)
     ∧ RegisterRejected id (rejection_message resp)
         ∈ emitted w (register_handler id sock resp w0)
     ∧ pendingRequests (tv (register_handler id sock resp w0)) !! id = None
     ∧ registrationRequestId (tv (register_handler id sock resp w0)) = None
     ∧ (status (tv (register_handler id sock resp w0)) = disconnected
        ∨ status (tv (register_handler id sock resp w0)) = connecting)).
  { intros He. rewrite register_handler_error by done.
    assert (Ew0 : w0 = upd_tv (set_registrationRequestId None) (pending_delete id w)).
    { unfold w0, registration_dispatch. by rewrite He, orb_true_r. }
    rewrite Ew0. fold w1. split; [done |]. split; [unfold w1; eauto 10 with emits |]. split.
    { unfold w1.
      eapply (emitted_between [KNotify] [KNotify; KConnectThrew]) with
        (w1 := setStatus disconnected
                 (upd_tv (set_registrationRequestId None) (pending_delete id w)));
        eauto 10 with emits. }
    pose proof (frame_fail fp_fail w1 sock (rejection_message resp) _ (reflexivity _)
                  (frame_refl _ _)) as F.
    rewrite <- (frame_pendingRequests _ _ _ F), <- (frame_registrationRequestId _ _ _ F)
      by compute_done.
    unfold w1. simpl. rewrite !tv_setStatus. simpl. split; [apply lookup_delete_eq |].
    split; [done |].
    destruct (status_fail sock (rejection_message resp)
      (emit (RegisterRejected id (rejection_message resp))
         (setStatus disconnected
            (upd_tv (set_registrationRequestId None) (pending_delete id w)))))
      as [E | [E | E]]; rewrite E; auto.
    simpl. rewrite tv_setStatus. auto. }
  assert (Hno : accepted resp = false →
                (RegisterResolved id ∉ emitted w (register_handler id sock resp w0))
                ∧ status (tv (register_handler id sock resp w0)) ≠ ready).
  { intros Ha. destruct (type_is resp "error") eqn:He.
    - destruct (Herr eq_refl) as (_ & Hem & _ & _ & _ & Hs). split.
      + intros Hin. apply (emits_emitted _ _ _ Hem) in Hin. simpl in Hin.
        apply list_elem_of_In in Hin. simpl in Hin. intuition discriminate.
      + destruct Hs as [-> | ->]; done.
    - rewrite register_handler_ignored by done. split.
      + unfold emitted. rewrite Ht0, drop_all. apply not_elem_of_nil.
      + rewrite Hs0, Hst. done. }
  assert (Hyes : accepted resp = true → RegisterResolved id ∈ emitted w (register_handler id sock resp w0)
                 ∧ status (tv (register_handler id sock resp w0)) = ready
                 ∧ clientKey (tv (register_handler id sock resp w0))
                   = clientKey (tv (with_returned_key resp w0))).
  { intros Ha.
    destruct (register_handler_accepted_state id sock resp w0 Ha) as (Hs & Hk & _).
    split; [ | by split ].
    rewrite register_handler_accepted by done.
    eapply (emitted_between [KNotify; KSend; KWriteFile; KRequestRefused]
              [KConnectReturned]) with
      (w1 := subscribeToStatus
               (setupPointerSocket
                  (setStatus ready (saveConfig (with_returned_key resp w0)))));
      [ | eauto with emits ].
    unfold with_returned_key. case_match; eauto 10 with emits. }
  split; [ | split; [ | split; [ | split; [ | split ] ] ] ].
  - split; [by intros Ha; apply Hyes |].
    intros Hin. destruct (accepted resp) eqn:Ha; [done |]. by destruct (Hno eq_refl).
  - split; [by intros Ha; apply Hyes |].
    intros Hin. destruct (accepted resp) eqn:Ha; [done |]. by destruct (Hno eq_refl).
  - intros key Ha Hkey. destruct (Hyes Ha) as (_ & _ & ->).
    unfold with_returned_key. by rewrite Hkey.
  - intros Ha Hkey. destruct (Hyes Ha) as (_ & _ & ->).
    unfold with_returned_key. by rewrite Hkey.
  - intros a key Ha Hip Hkey.
    destruct (register_handler_accepted_state id sock resp w0 Ha) as (_ & Hk & _ & Hwr & _).
    rewrite Hk in Hkey. rewrite Hwr.
    set (x := with_returned_key resp w0) in *.
    assert (Hx : trace x = trace w ∧ tvIp (tv x) = tvIp (tv w) ∧ writes x = writes w).
    { unfold x, with_returned_key. case_match; simpl; by rewrite ?Ht0, ?Hip0, ?Hw0. }
    destruct Hx as (Hxt & Hxi & Hxw). rewrite <- Hxi in Hip.
    rewrite register_handler_accepted by done. fold x.
    rewrite (saveConfig_writes a key x Hip Hkey). split; [ | simpl; by rewrite Hxw ].
    eapply (emitted_between []
              [KNotify; KSend; KWriteFile; KRequestRefused; KRegisterResolved;
               KConnectReturned]) with
      (w1 := set_writes (writes x ++ [TVConfig.mk a key]) x).
    + exists []. split; [simpl; by rewrite app_nil_r, Hxt | constructor].
    + eauto 10 with emits.
  - intros He. destruct (Herr He) as (E & Hem & Hin & Hp & Hr & Hs).
    split; [done |]. split; [done |]. split; [ | split; [done |]; split; [done |]; split; [done |] ].
    { intros s m Hsend. apply (emits_emitted _ _ _ Hem) in Hsend. simpl in Hsend.
      apply list_elem_of_In in Hsend. simpl in Hsend. intuition discriminate. }
    intros s c call u rest Hsk Hkind Hcall Hphase. rewrite E.
    destruct (rest_before_fail (RegisterRejected id (rejection_message resp)) disconnected
                (upd_tv (set_registrationRequestId None) (pending_delete id w)))
      as (S1' & C1' & M1' & N1).
    assert (S1 : sockets w1 = sockets w) by exact S1'.
    assert (C1 : calls w1 = calls w) by exact C1'.
    assert (M1 : msgId (tv w1) = msgId (tv w)) by exact M1'.
    clear S1' C1' M1'.
    assert (Hsk1 : sockets w1 !! sock = Some s) by (by rewrite S1).
    assert (Hcall1 : calls w1 !! c = Some call) by (by rewrite C1).
    pose proof (fail_after_failed_attempt sock s c call u rest (rejection_message resp) w1
                  Hsk1 Hkind Hcall1 Hphase) as A.
    destruct (fail_trace sock s c call u rest (rejection_message resp) w1
                Hsk1 Hkind Hcall1 Hphase) as (Tm & _ & T).
    split.
    { eapply (after_failed_attempt_from _ _ _ _ _ w1); [by rewrite S1 | exact A]. }
    assert (Hw1 : ∃ l1, trace w1 = (trace w ++ l1)%list
                        ∧ Forall (fun e => ∀ m, e ≠ ConnectThrew c m) l1).
    { destruct N1 as (l & El & Hl).
      exists (l ++ [RegisterRejected id (rejection_message resp)])%list. split.
      - unfold w1. simpl. rewrite El. simpl. by rewrite <- app_assoc.
      - apply Forall_app. split; [ | by repeat constructor ].
        eapply Forall_impl; [exact Hl |]. simpl. intros e Hk m ->.
        simpl in Hk. apply list_elem_of_singleton in Hk. discriminate. }
    destruct Hw1 as (l1 & El1 & Hl1).
    unfold after_failed_attempt in A. destruct rest as [|next rest'].
    + destruct T as (l & El & _).
      rewrite (emitted_app w _ (l1 ++ l ++ [ConnectThrew c
                 ("Failed to connect to TV. Attempts: "
                  ++ join " | " (app (errors call) [u ++ " -> " ++ rejection_message resp]))])).
      * rewrite !elem_of_app, list_elem_of_singleton. auto.
      * rewrite El, El1. by rewrite <- !app_assoc.
    + destruct A as (_ & _ & A3 & A4). destruct T as (_ & _ & T3).
      rewrite S1 in A3, A4.
      destruct (open_registers LG chk (length (sockets w)) next c
                  (fail sock (rejection_message resp) w1) A4 A3) as (O1 & O2 & _).
      rewrite Tm, M1 in O1. simpl in O1. split; [exact O1 |]. split; [exact O2 |].
      intros m Hm. destruct T3 as (l & El & Hl).
      rewrite (emitted_app w _ (l1 ++ l)) in Hm by (rewrite El, El1; by rewrite <- app_assoc).
      apply elem_of_app in Hm as [Hm | Hm].
      * rewrite Forall_forall in Hl1. by apply (Hl1 _ Hm m).
      * rewrite Forall_forall in Hl. apply Hl in Hm. simpl in Hm.
        apply list_elem_of_singleton in Hm. discriminate.
Qed.

Lemma handshake_outcome_witness :
  get_field (response_to "msg_1" "response" [("client-key", JStr "abc123")]) "id"
    = Some (JStr "msg_1")
  ∧ registrationRequestId (tv pairing_session) = Some "msg_1"
  ∧ pendingRequests (tv pairing_session) !! "msg_1" = Some (H_register "msg_1" 0)
  ∧ status (tv pairing_session) = pairing
  ∧ status (tv (handleMainMessage
                  (Some (response_to "msg_1" "response" [("client-key", JStr "abc123")]))
                  pairing_session)) = ready
  ∧ clientKey (tv (handleMainMessage
                     (Some (response_to "msg_1" "response" [("client-key", JStr "abc123")]))
                     pairing_session)) = Some "abc123"
  ∧ WriteFile (TVConfig.mk "10.0.0.5" "abc123")
      ∈ emitted pairing_session
          (handleMainMessage
             (Some (response_to "msg_1" "response" [("client-key", JStr "abc123")]))
             pairing_session).
Proof.
  assert (H1 : get_field (response_to "msg_1" "response" [("client-key", JStr "abc123")])
                 "id" = Some (JStr "msg_1")) by reflexivity.
  assert (H2 : registrationRequestId (tv pairing_session) = Some "msg_1")
    by (vm_compute; reflexivity).
  assert (H3 : pendingRequests (tv pairing_session) !! "msg_1"
               = Some (H_register "msg_1" 0)) by (vm_compute; reflexivity).
  assert (H4 : status (tv pairing_session) = pairing) by (vm_compute; reflexivity).
  assert (H5 : nonempty (tvIp (tv pairing_session)) = Some "10.0.0.5")
    by (vm_compute; reflexivity).
  destruct (handshake_outcome sample_manifest true _ _ _ _ H1 H2 H3 H4)
    as (_ & [Hs _] & Hk & _ & Hw & _).
  pose proof (Hk "abc123" eq_refl eq_refl) as Hkey.
  assert (H6 : nonempty (clientKey (tv (handleMainMessage
                 (Some (response_to "msg_1" "response" [("client-key", JStr "abc123")]))
                 pairing_session))) = Some "abc123")
    by (exact (eq_trans (f_equal nonempty Hkey) eq_refl)).
  split; [exact H1 |]. split; [exact H2 |]. split; [exact H3 |]. split; [exact H4 |].
  split; [apply Hs; reflexivity |]. split; [exact Hkey |].
  exact (proj1 (Hw "10.0.0.5" "abc123" eq_refl H5 H6)).
Defined.

(** C3 as stated fails on its last clause: the device answers the handshake
    of the first endpoint with type "error"; the handshake is rejected with
    the error, but the session is 'connecting' afterwards, not
    'disconnected', connect() has not been rejected, the second endpoint has
    a new socket, and when that opens the handshake is sent again. *)
Lemma handshake_error_is_retried :
  status (tv pairing_session) = pairing
  ∧ registrationRequestId (tv pairing_session) = Some "msg_1"
  ∧ type_is pairing_refused "error" = true
  ∧ RegisterRejected "msg_1" "rejected"
      ∈ trace (run sample_manifest true [EvMessage 0 (Some pairing_refused)] pairing_session)
  ∧ status (tv (run sample_manifest true [EvMessage 0 (Some pairing_refused)]
                  pairing_session)) = connecting
  ∧ (∀ m, ConnectThrew 0 m
          ∉ trace (run sample_manifest true [EvMessage 0 (Some pairing_refused)]
                     pairing_session))
  ∧ sockets (run sample_manifest true [EvMessage 0 (Some pairing_refused)] pairing_session)
      !! 1%nat
    = Some (mkWebSocket "wss://10.0.0.5:3000" CONNECTING (MainSocket 0 false))
  ∧ Send 1 (JObj [("id", JStr "msg_2"); ("type", JStr "register");
                  ("payload", JObj sample_manifest)])
      ∈ trace (run sample_manifest true [EvMessage 0 (Some pairing_refused); EvOpen 1]
                 pairing_session).
Proof.
  split_and!.
  - vm_compute. reflexivity.
  - vm_compute. reflexivity.
  - reflexivity.
  - apply list_elem_of_In. vm_compute. tauto.
  - vm_compute. reflexivity.
  - intros m Hin%list_elem_of_In. vm_compute in Hin. intuition discriminate.
  - vm_compute. reflexivity.
  - apply list_elem_of_In. vm_compute. tauto.
Qed.

(** ** C4: connect() when no endpoint can be reached *)



(** ** What an accepted handshake sets going *)

Lemma sends_app l1 l2 : sends (l1 ++ l2) = (sends l1 ++ sends l2)%list.
Proof. apply omap_app. Qed.

Lemma correlator_start m w :
  mainWs (tv w) = Some m → is_open (Some m) w = true →
  Correlator w m (msgId (tv w)) [] (pendingRequests (tv w)) (subscriptionIds (tv w))
    (timers w) w.
Proof. intros Hm Ho. split; try done. exists []. by rewrite app_nil_r. Qed.

(** Steps that leave the correlator alone. *)
Lemma correlator_quiet w0 m n out P sb tm w w' :
  mainWs (tv w') = mainWs (tv w) → sockets w' = sockets w →
  msgId (tv w') = msgId (tv w) → pendingRequests (tv w') = pendingRequests (tv w) →
  subscriptionIds (tv w') = subscriptionIds (tv w) → timers w' = timers w →
  (∃ l, trace w' = (trace w ++ l)%list ∧ sends l = []) →
  Correlator w0 m n out P sb tm w → Correlator w0 m n out P sb tm w'.
Proof.
  intros Hm Hs Hn Hp Hsub Ht (l & Hl & Hq) [C1 C2 C3 (l0 & C4 & C4') C5 C6 C7].
  split; try congruence.
  - unfold is_open in *. by rewrite Hs.
  - exists (l0 ++ l)%list. split; [by rewrite Hl, C4, app_assoc |].
    by rewrite sends_app, Hq, C4', app_nil_r.
Qed.

Lemma correlator_with_returned_key w0 m n out P sb tm resp w :
  Correlator w0 m n out P sb tm w → Correlator w0 m n out P sb tm (with_returned_key resp w).
Proof.
  apply correlator_quiet; unfold with_returned_key; try (by case_match).
  exists []. split; [ | done ]. rewrite app_nil_r. by case_match.
Qed.

Lemma correlator_saveConfig w0 m n out P sb tm w :
  Correlator w0 m n out P sb tm w → Correlator w0 m n out P sb tm (saveConfig w).
Proof.
  apply correlator_quiet; unfold saveConfig; try (by repeat case_match).
  repeat case_match; try (exists []; by rewrite app_nil_r).
  by eexists [_].
Qed.

Lemma correlator_setStatus w0 m n out P sb tm s w :
  Correlator w0 m n out P sb tm w → Correlator w0 m n out P sb tm (setStatus s w).
Proof.
  apply correlator_quiet; unfold setStatus, notify; simpl; try (by case_match).
  case_match; [by eexists [_] | exists []; by rewrite app_nil_r].
Qed.

Lemma send_main_open w0 m n out P sb tm msg w :
  Correlator w0 m n out P sb tm w → send_main msg w = inl (emit (Send m msg) w).
Proof.
  intros [C1 C2 _ _ _ _ _]. unfold send_main, ws_send. rewrite C1.
  unfold is_open in C2. destruct (sockets w !! m) as [s|]; [ | done ].
  by destruct (readyState s).
Qed.

Lemma correlator_sent w0 m n out P sb tm msg w :
  Correlator w0 m n out P sb tm w →
  Correlator w0 m n (out ++ [(m, msg)]) P sb tm (emit (Send m msg) w).
Proof.
  intros [C1 C2 C3 (l0 & C4 & C4') C5 C6 C7]. split; try done.
  exists (l0 ++ [Send m msg])%list. split; [by simpl; rewrite C4, app_assoc |].
  by rewrite sends_app, C4'.
Qed.

Lemma correlator_setupPointerSocket w0 m n out P sb tm w :
  Correlator w0 m n out P sb tm w →
  Correlator w0 m (S n) (out ++ [(m, pointer_request (msg_id (S n)))])
    (<[msg_id (S n) := H_resolve (msg_id (S n)) await_pointer]> P) sb
    (tm ++ [T_request (msg_id (S n))]) (setupPointerSocket w).
Proof.
  intros C. pose proof C as [C1 C2 C3 _ C5 C6 C7].
  unfold setupPointerSocket, sendMain. rewrite C1, C2. simpl nonempty_string. cbv iota.
  unfold nextId. cbv beta iota zeta. rewrite C3.
  match goal with |- context [send_main ?msg ?w1] =>
    assert (C' : Correlator w0 m (S n) out
                   (<[msg_id (S n) := H_resolve (msg_id (S n)) await_pointer]> P)
                   sb tm w1)
  end.
  { destruct C as [? ? ? ? ? ? ?]. split; try done. simpl. by rewrite C5. }
  rewrite (send_main_open _ _ _ _ _ _ _ _ _ C').
  apply (correlator_sent _ _ _ _ _ _ _ (pointer_request (msg_id (S n)))) in C'.
  destruct C' as [? ? ? ? ? ? ?]. split; try done. simpl. by f_equal.
Qed.

Lemma correlator_subscribeToStatus w0 m n out P sb tm w :
  Correlator w0 m n out P sb tm w →
  Correlator w0 m (S (S n))
    (out ++ [(m, foreground_subscription (msg_id (S n)));
             (m, volume_subscription (msg_id (S (S n))))])
    (<[msg_id (S (S n)) := H_volume]>
       (<[msg_id (S n) := H_foreground]> P))
    ({[msg_id (S (S n))]} ∪ ({[msg_id (S n)]} ∪ sb))
    tm (subscribeToStatus w).
Proof.
  intros C. pose proof C as [C1 C2 C3 _ C5 C6 C7].
  unfold subscribeToStatus, nextId. cbv beta iota zeta. rewrite C3.
  match goal with |- context [send_main ?msg ?w1] =>
    assert (C' : Correlator w0 m (S n) out
                   (<[msg_id (S n) := H_foreground]> P)
                   ({[msg_id (S n)]} ∪ sb) tm w1)
  end.
  { destruct C as [? ? ? ? ? ? ?]. split; try done; simpl; by rewrite ?C5, ?C6. }
  rewrite (send_main_open _ _ _ _ _ _ _ _ _ C').
  apply (correlator_sent _ _ _ _ _ _ _ (foreground_subscription (msg_id (S n)))) in C'.
  clear C. pose proof C' as [D1 D2 D3 _ D5 D6 D7].
  simpl msgId.
  match goal with |- context [send_main ?msg ?w2] =>
    assert (C'' : Correlator w0 m (S (S n))
                    (out ++ [(m, foreground_subscription (msg_id (S n)))])
                    (<[msg_id (S (S n)) := H_volume]>
                       (<[msg_id (S n) := H_foreground]> P))
                    ({[msg_id (S (S n))]} ∪ ({[msg_id (S n)]} ∪ sb))
                    tm w2)
  end.
  { destruct C' as [? ? ? ? ? ? ?]. split; try done; simpl in *; by rewrite ?D5, ?D6. }
  rewrite (send_main_open _ _ _ _ _ _ _ _ _ C'').
  apply (correlator_sent _ _ _ _ _ _ _
           (volume_subscription (msg_id (S (S n))))) in C''.
  by rewrite <- app_assoc in C''.
Qed.

Lemma correlator_registered_then w0 m n out P sb tm id sock w :
  Correlator w0 m n out P sb tm w →
  let w' := registered_then sock (emit (RegisterResolved id) w) in
  msgId (tv w') = n
  ∧ sends (emitted w0 w') = out
  ∧ pendingRequests (tv w') = P
  ∧ subscriptionIds (tv w') = sb
  ∧ timers w' = tm.
Proof.
  intros [C1 C2 C3 (l0 & C4 & C4') C5 C6 C7]. cbv zeta.
  assert (H : ∀ x, tv (registered_then sock x) = tv x
                   ∧ timers (registered_then sock x) = timers x
                   ∧ ∃ l, trace (registered_then sock x) = (trace x ++ l)%list ∧ sends l = []).
  { intros x. unfold registered_then, connect_return.
    repeat case_match; simpl; split_and!; try done;
      try (exists []; by rewrite app_nil_r); by eexists [_]. }
  destruct (H (emit (RegisterResolved id) w)) as (Htv & Htm & l & Htr & Hl).
  rewrite Htv, Htm. split_and!; try done.
  rewrite (emitted_app w0 _ (l0 ++ [RegisterResolved id] ++ l)).
  - rewrite !sends_app, Hl, C4'. simpl. by rewrite app_nil_r.
  - rewrite Htr. simpl. rewrite C4. by rewrite <- !app_assoc.
Qed.

(** X11: The success branch of the handler in register(), with the main socket
    open: whatever else happens there (the key stored, the file written, the
    listener told, the promise resolved), exactly three messages go out on
    the main socket, in this order and under the next three identifiers: the
    request for the pointer socket, the subscription to the foreground app
    and the subscription to the volume.  The first is a request with its
    resolver and its timer, the two subscriptions are entered in both tables
    and get no timer. *)
Theorem accepted_handshake_sends_three_messages
    (id : string) (sock m : nat) (resp : json) (w : World) :
  accepted resp = true →
  mainWs (tv w) = Some m →
  is_open (Some m) w = true →
  let n := msgId (tv w) in
  let w' := register_handler id sock resp w in
  sends (emitted w w')
    = [(m, pointer_request (msg_id (S n)));
       (m, foreground_subscription (msg_id (S (S n))));
       (m, volume_subscription (msg_id (S (S (S n)))))]
  ∧ msgId (tv w') = S (S (S n))
  ∧ pendingRequests (tv w')
    = <[msg_id (S (S (S n))) := H_volume]>
        (<[msg_id (S (S n)) := H_foreground]>
           (<[msg_id (S n) := H_resolve (msg_id (S n)) await_pointer]>
              (pendingRequests (tv w))))
  ∧ subscriptionIds (tv w')
    = {[msg_id (S (S (S n)))]} ∪ ({[msg_id (S (S n))]} ∪ subscriptionIds (tv w))
  ∧ timers w' = (timers w ++ [T_request (msg_id (S n))])%list.
Proof.
  intros Ha Hm Ho. cbv zeta. rewrite register_handler_accepted by done.
  pose proof (correlator_start m w Hm Ho) as C.
  apply (correlator_with_returned_key _ _ _ _ _ _ _ resp) in C.
  apply correlator_saveConfig in C.
  apply (correlator_setStatus _ _ _ _ _ _ _ ready) in C.
  apply correlator_setupPointerSocket in C.
  apply correlator_subscribeToStatus in C.
  destruct (correlator_registered_then _ _ _ _ _ _ _ id sock _ C) as (H1 & H2 & H3 & H4 & H5).
  split_and!; [exact H2 | exact H1 | exact H3 | exact H4 | exact H5].
Qed.

Lemma accepted_handshake_sends_three_messages_witness :
  accepted (response_to "msg_1" "registered" []) = true
  ∧ mainWs (tv pairing_session) = Some 0%nat
  ∧ is_open (Some 0%nat) pairing_session = true
  ∧ msgId (tv (register_handler "msg_1" 0 (response_to "msg_1" "registered" [])
                 pairing_session)) = 4%nat.
Proof.
  assert (Ha : accepted (response_to "msg_1" "registered" []) = true) by reflexivity.
  assert (Hm : mainWs (tv pairing_session) = Some 0%nat) by (vm_compute; reflexivity).
  assert (Ho : is_open (Some 0%nat) pairing_session = true) by (vm_compute; reflexivity).
  assert (Hn : msgId (tv pairing_session) = 1%nat) by (vm_compute; reflexivity).
  pose proof (proj1 (proj2 (accepted_handshake_sends_three_messages "msg_1" 0 0
                              (response_to "msg_1" "registered" []) pairing_session
                              Ha Hm Ho))) as H.
  rewrite Hn in H. exact (conj Ha (conj Hm (conj Ho H))).
Defined.

(** ** The loop of connect() *)

(** X12: The loop of connect(): in every reachable state a call that is waiting
    on an attempt is somewhere in the list of its three endpoints, secure
    port 3001, secure port 3000, plain port 3000, in that order; it holds
    one error entry for each endpoint before the current one, in order and
    each naming its endpoint, and the endpoints still to try are the ones
    after it.  A call still loading its configuration holds no error. *)
Theorem connect_tries_endpoints_in_order
    (LG : list (string * json)) (chk : bool) (w : World) (c : nat) (call : ConnectCall) :
  reachable LG chk w →
  calls w !! c = Some call →
  match phase call with
  | Loading => errors call = []
  | Trying u rest =>
      ∃ reasons : list string,
        (wsUrls (ip call)
         = take (length reasons) (wsUrls (ip call)) ++ u :: rest)%list
        ∧ errors call
          = zip_with (fun url reason => url ++ " -> " ++ reason)
              (take (length reasons) (wsUrls (ip call))) reasons
        ∧ (length reasons + S (length rest) = 3)%nat
  | _ => True
  end.
Proof.
  intros Hr Hc. pose proof (callinv_reachable LG chk w Hr c call Hc) as Hok.
  unfold call_ok in Hok. destruct (phase call) as [|u rest| |m]; try done.
  destruct Hok as (tried & Hu & He). exists (tried.*2).
  assert (Hlen : length (tried.*1) = length (tried.*2)) by (by rewrite !length_fmap).
  assert (Htake : take (length (tried.*2)) (wsUrls (ip call)) = tried.*1).
  { rewrite Hu, <- Hlen. by rewrite take_app_length. }
  rewrite Htake. split_and!.
  - exact Hu.
  - rewrite He. clear. induction tried as [|[a b] tried IH]; [done |].
    rewrite !fmap_cons. cbn [zip_with]. by rewrite IH.
  - apply (f_equal length) in Hu. rewrite length_app in Hu. simpl in Hu.
    rewrite length_fmap in *. lia.
Qed.

Lemma connect_tries_endpoints_in_order_witness :
  reachable sample_manifest true unreachable_session
  ∧ calls unreachable_session !! 0%nat
    = Some (mkConnectCall "10.0.0.5"
              ["wss://10.0.0.5:3001 -> WebSocket connection failed at wss://10.0.0.5:3001: ECONNREFUSED";
               "wss://10.0.0.5:3000 -> WebSocket connection failed at wss://10.0.0.5:3000: ECONNREFUSED"]
              (Trying "ws://10.0.0.5:3000" []))
  ∧ ∃ reasons : list string, (length reasons + 1 = 3)%nat.
Proof.
  assert (Hr : reachable sample_manifest true unreachable_session).
  { unfold unreachable_session. cbn [run foldl].
    repeat apply reachable_step. apply reachable_new. }
  assert (Hc : calls unreachable_session !! 0%nat
    = Some (mkConnectCall "10.0.0.5"
              ["wss://10.0.0.5:3001 -> WebSocket connection failed at wss://10.0.0.5:3001: ECONNREFUSED";
               "wss://10.0.0.5:3000 -> WebSocket connection failed at wss://10.0.0.5:3000: ECONNREFUSED"]
              (Trying "ws://10.0.0.5:3000" []))) by (vm_compute; reflexivity).
  destruct (connect_tries_endpoints_in_order sample_manifest true unreachable_session
              0%nat _ Hr Hc) as (reasons & _ & _ & Hlen).
  exact (conj Hr (conj Hc (ex_intro _ reasons Hlen))).
Defined.

(** ** The static file server *)

Lemma lastIndexOf_range c s :
  (-1 <= lastIndexOf c s < Z.of_nat (String.length s))%Z.
Proof.
  induction s as [|a s IH]; simpl; [lia |].
  destruct (0 <=? lastIndexOf c s)%Z eqn:E; [apply Z.leb_le in E; lia |].
  destruct (Ascii.eqb a c); lia.
Qed.

Lemma string_drop_app p s : string_drop (String.length p) (p ++ s) = s.
Proof. induction p as [|a p IH]; simpl; [by destruct s | exact IH]. Qed.

Lemma length_app_string p s : String.length (p ++ s) = (String.length p + String.length s)%nat.
Proof. induction p as [|a p IH]; simpl; [done | by rewrite IH]. Qed.

(** The last dot of [p ++ "." ++ e] is the one in the middle when [e] has
    none. *)
Lemma lastIndexOf_app_dot p e :
  no_dot e → lastIndexOf dot (p ++ "." ++ e) = Z.of_nat (String.length p).
Proof.
  intros He. induction p as [|a p IH].
  - change (lastIndexOf dot (String dot e) = 0%Z). cbn [lastIndexOf].
    unfold no_dot in He. rewrite He. by rewrite Ascii.eqb_refl.
  - change (String a p ++ "." ++ e) with (String a (p ++ "." ++ e)).
    cbn [lastIndexOf String.length]. rewrite IH.
    destruct (0 <=? Z.of_nat (String.length p))%Z eqn:E; [lia |].
    apply Z.leb_gt in E. lia.
Qed.

Lemma slice_at_length p s : slice (p ++ s) (Z.of_nat (String.length p)) = s.
Proof.
  unfold slice. rewrite length_app_string.
  destruct (Z.of_nat (String.length p) <? 0)%Z eqn:E; [apply Z.ltb_lt in E; lia |].
  rewrite Z.min_l by lia. rewrite Nat2Z.id. apply string_drop_app.
Qed.

Lemma ext_of_path p e : no_dot e → slice (p ++ "." ++ e) (lastIndexOf dot (p ++ "." ++ e)) = "." ++ e.
Proof. intros He. rewrite lastIndexOf_app_dot by done. apply slice_at_length. Qed.

Lemma string_drop_length n s :
  (n <= String.length s)%nat → String.length (string_drop n s) = (String.length s - n)%nat.
Proof.
  revert s. induction n as [|n IH]; intros s H; simpl; [lia |].
  destruct s; simpl in *; [lia |]. apply IH. lia.
Qed.

Lemma eqb_longer k ext :
  (String.length ext < String.length k)%nat → String.eqb ext k = false.
Proof.
  intros H. apply String.eqb_neq. intros ->. lia.
Qed.

Lemma lookup_short ext : (String.length ext < 3)%nat → lookup_string ext MIME_TYPES = None.
Proof.
  intros H. unfold MIME_TYPES. cbn [lookup_string].
  by rewrite !eqb_longer by (simpl; lia).
Qed.

(** X13: getMimeType: the type is decided by what follows the last dot of the
    path and by nothing before it, so any path ending in one of the seven
    extensions of the table gets that extension's type, whatever directories
    (dotted or not) lead to it; the comparison is exact, so a dot that is
    followed by anything else, a '/' included, and a path without any dot
    give "application/octet-stream". *)
Theorem getMimeType_by_last_extension (p e : string) :
  no_dot e →
  getMimeType (p ++ "." ++ e)
    = default "application/octet-stream" (lookup_string ("." ++ e) MIME_TYPES)
  ∧ getMimeType e = "application/octet-stream"
  ∧ getMimeType (p ++ ".html") = "text/html"
  ∧ getMimeType (p ++ ".css") = "text/css"
  ∧ getMimeType (p ++ ".js") = "text/javascript"
  ∧ getMimeType (p ++ ".ts") = "text/javascript"
  ∧ getMimeType (p ++ ".json") = "application/json"
  ∧ getMimeType (p ++ ".png") = "image/png"
  ∧ getMimeType (p ++ ".svg") = "image/svg+xml".
Proof.
  intros He.
  assert (G : ∀ x, no_dot x →
            getMimeType (p ++ "." ++ x)
            = default "application/octet-stream" (lookup_string ("." ++ x) MIME_TYPES)).
  { intros x Hx. unfold getMimeType. cbv zeta. by rewrite ext_of_path. }
  split_and!; [by apply G | | by apply (G "html") | by apply (G "css") | by apply (G "js")
               | by apply (G "ts") | by apply (G "json") | by apply (G "png")
               | by apply (G "svg")].
  unfold getMimeType. cbv zeta. rewrite He. rewrite lookup_short; [done |].
  unfold slice. simpl.
  destruct (String.length e) as [|n] eqn:El.
  - destruct e; simpl in *; [lia | discriminate].
  - rewrite Z.max_l by lia. rewrite string_drop_length by lia. lia.
Qed.

Lemma getMimeType_by_last_extension_witness :
  no_dot "c/index"
  ∧ getMimeType ("/srv/a.b" ++ "." ++ "c/index") = "application/octet-stream".
Proof.
  assert (H : no_dot "c/index") by reflexivity.
  exact (conj H (proj1 (getMimeType_by_last_extension "/srv/a.b" "c/index" H))).
Defined.

Lemma endsWith_app suffix s : endsWith suffix s = true → ∃ p, s = p ++ suffix.
Proof.
  induction s as [|a s IH]; cbn [endsWith].
  - rewrite orb_false_r. intros <-%String.eqb_eq. by exists EmptyString.
  - intros [<-%String.eqb_eq | H]%orb_true_iff; [by exists EmptyString |].
    destruct (IH H) as (p & ->). by exists (String a p).
Qed.

Lemma getMimeType_ts p : getMimeType (p ++ ".ts") = "text/javascript".
Proof.
  change (getMimeType (p ++ "." ++ "ts") = "text/javascript").
  unfold getMimeType. cbv zeta. by rewrite (ext_of_path p "ts").
Qed.

(** X14: serveStaticFile: a missing file is answered 404 "Not Found"; a file
    that exists is answered 200, and when its path ends in ".ts" the
    content type is "text/javascript" on both branches: outside "src/" the
    body is the transpiled text, and under a path containing "src/" the file
    itself, the TypeScript source, goes out under that same type. *)
Theorem serveStaticFile_typescript
    (file_exists : string → bool) (file_text transformSync : string → string)
    (filePath : string) :
  let r := serveStaticFile file_exists file_text transformSync filePath in
  (file_exists filePath = false → r = mkResponse (BodyText "Not Found") 404 None)
  ∧ (file_exists filePath = true →
     http_status r = 200%nat
     ∧ (endsWith ".ts" filePath = true →
        content_type r = Some "text/javascript"
        ∧ body r = if includes "src/" filePath
                   then BodyFile filePath
                   else BodyText (transformSync (file_text filePath)))
     ∧ (endsWith ".ts" filePath = false →
        r = mkResponse (BodyFile filePath) 200 (Some (getMimeType filePath)))).
Proof.
  cbv zeta. unfold serveStaticFile. split; [by intros -> |]. intros ->.
  destruct (endsWith ".ts" filePath) eqn:E; simpl.
  - destruct (includes "src/" filePath); simpl; (split_and!; try done).
    intros _. apply endsWith_app in E as (p & ->). by rewrite getMimeType_ts.
  - by split_and!.
Qed.

Lemma serveStaticFile_typescript_witness :
  endsWith ".ts" "/app/src/app.ts" = true
  ∧ content_type (serveStaticFile (fun _ => true) (fun _ => "let x: number = 1")
                    (fun _ => "let x = 1") "/app/src/app.ts")
    = Some "text/javascript".
Proof.
  assert (E : endsWith ".ts" "/app/src/app.ts" = true) by reflexivity.
  exact (conj E
          (proj1 (proj1 (proj2 (proj2 (serveStaticFile_typescript (fun _ => true)
                                         (fun _ => "let x: number = 1")
                                         (fun _ => "let x = 1") "/app/src/app.ts")
                                  eq_refl)) E))).
Defined.

(** ** Discovery *)

Section DiscoverFacts.

Context (trim toLowerCase : string → string).

Lemma foldl_set_header h lines name :
  name ≠ "__proto__" →
  foldl (set_header trim toLowerCase) h lines !! name
  = match last (omap (fun line =>
                        match header_of_line trim toLowerCase line with
                        | Some (key, value) =>
                            if String.eqb key name then Some value else None
                        | None => None
                        end) lines) with
    | Some v => Some v
    | None => h !! name
    end.
Proof.
  intros Hn. induction lines as [|line lines IH] using rev_ind; [done |].
  rewrite foldl_snoc, omap_app. simpl. unfold set_header at 1.
  destruct (header_of_line trim toLowerCase line) as [[key value]|]; simpl.
  - destruct (String.eqb key name) eqn:E.
    + apply String.eqb_eq in E. subst key.
      rewrite (proj2 (String.eqb_neq name "__proto__")) by done.
      by rewrite last_snoc, lookup_insert_eq.
    + apply String.eqb_neq in E. rewrite app_nil_r.
      destruct (String.eqb key "__proto__"); [exact IH |].
      by rewrite lookup_insert_ne.
  - by rewrite app_nil_r.
Qed.

Lemma foldl_set_header_proto h lines :
  foldl (set_header trim toLowerCase) h lines !! "__proto__" = h !! "__proto__".
Proof.
  induction lines as [|line lines IH] using rev_ind; [done |].
  rewrite foldl_snoc. unfold set_header at 1.
  destruct (header_of_line trim toLowerCase line) as [[key value]|]; [ | exact IH ].
  destruct (String.eqb key "__proto__") eqn:E; [exact IH |].
  apply String.eqb_neq in E. by rewrite lookup_insert_ne.
Qed.

End DiscoverFacts.

Lemma split_crlf_unfold s :
  split_crlf s
  = match s with
    | EmptyString => [EmptyString]
    | String a rest =>
        match rest with
        | String b rest' =>
            if Ascii.eqb a CR && Ascii.eqb b LF then EmptyString :: split_crlf rest'
            else match split_crlf rest with
                 | line :: lines => String a line :: lines
                 | [] => [String a EmptyString]
                 end
        | EmptyString => [String a EmptyString]
        end
    end.
Proof. by destruct s. Qed.

Lemma CR_not_LF : Ascii.eqb CR LF = false.
Proof. reflexivity. Qed.

Lemma split_crlf_line s t : no_crlf s → split_crlf (s ++ CRLF ++ t) = s :: split_crlf t.
Proof.
  unfold no_crlf. induction s as [|a s IH]; intros H.
  - change (EmptyString ++ CRLF ++ t) with (String CR (String LF t)).
    rewrite split_crlf_unfold. by rewrite !Ascii.eqb_refl.
  - change (String a s ++ CRLF ++ t) with (String a (s ++ CRLF ++ t)).
    cbn [includes] in H. apply orb_false_iff in H as [Hp Hi].
    rewrite split_crlf_unfold. rewrite (IH Hi).
    destruct s as [|b s'].
    + change (EmptyString ++ CRLF ++ t) with (String CR (String LF t)). cbv beta iota.
      by rewrite CR_not_LF, andb_false_r.
    + change (String b s' ++ CRLF ++ t) with (String b (s' ++ CRLF ++ t)). cbv beta iota.
      destruct (Ascii.eqb a CR && Ascii.eqb b LF) eqn:E; [ | done ].
      apply andb_true_iff in E as [->%Ascii.eqb_eq ->%Ascii.eqb_eq].
      exfalso. revert Hp. clear. by destruct s'.
Qed.

Lemma indexOf_range c s : (-1 <= indexOf c s < Z.of_nat (String.length s))%Z.
Proof.
  induction s as [|a s IH]; cbn [indexOf String.length]; [lia |].
  destruct (Ascii.eqb a c); [lia |].
  destruct (0 <=? indexOf c s)%Z eqn:E; [apply Z.leb_le in E; lia | lia].
Qed.

Lemma indexOf_app k a v :
  indexOf a k = (-1)%Z → indexOf a (k ++ String a v) = Z.of_nat (String.length k).
Proof.
  induction k as [|b k IH]; cbn [String.length indexOf].
  - intros _. change (EmptyString ++ String a v) with (String a v).
    cbn [indexOf]. by rewrite Ascii.eqb_refl.
  - change (String b k ++ String a v) with (String b (k ++ String a v)).
    cbn [indexOf]. destruct (Ascii.eqb b a); [done |].
    destruct (0 <=? indexOf a k)%Z eqn:E; [intros; apply Z.leb_le in E; lia |].
    intros _. apply Z.leb_gt in E. pose proof (indexOf_range a k).
    rewrite IH by lia.
    destruct (0 <=? Z.of_nat (String.length k))%Z eqn:E'; [lia | apply Z.leb_gt in E'; lia].
Qed.

Lemma string_take_app k v : string_take (String.length k) (k ++ v) = k.
Proof.
  induction k as [|b k IH]; [by destruct v |].
  change (String b k ++ v) with (String b (k ++ v)). cbn [String.length string_take].
  by rewrite IH.
Qed.

Lemma string_drop_app_cons k a v : string_drop (S (String.length k)) (k ++ String a v) = v.
Proof.
  induction k as [|b k IH]; [done |].
  change (String b k ++ String a v) with (String b (k ++ String a v)). exact IH.
Qed.

(** A line [k:v] whose [k] is not empty and has no colon. *)
Lemma header_of_line_colon trim toLowerCase k v :
  k ≠ EmptyString → indexOf colon k = (-1)%Z →
  header_of_line trim toLowerCase (k ++ String colon v)
  = Some (toLowerCase (trim k), trim v).
Proof.
  intros Hk Hc. unfold header_of_line. cbv zeta. rewrite indexOf_app by done.
  destruct k as [|b k]; [done |].
  replace (0 <? Z.of_nat (String.length (String b k)))%Z with true
    by (symmetry; apply Z.ltb_lt; simpl; lia).
  rewrite Nat2Z.id, string_take_app.
  replace (Z.to_nat (Z.of_nat (String.length (String b k)) + 1))
    with (S (String.length (String b k))) by lia.
  by rewrite string_drop_app_cons.
Qed.

Lemma header_of_line_none trim toLowerCase line :
  indexOf colon line = (-1)%Z → header_of_line trim toLowerCase line = None.
Proof. intros H. unfold header_of_line. by rewrite H. Qed.

(** X15: parseHeaders: a name is given the value of the last line that carries
    it, and "__proto__" is never a header.  A line carries a name only
    through a colon that is not its first character: the name is what
    precedes the first colon (trimmed, lower-cased) and the value everything
    after it (trimmed), later colons included; a line without a colon, like
    the status line, or with the colon in front, adds nothing. *)
Theorem parseHeaders_last_line_wins
    (trim toLowerCase : string → string) (raw name : string) :
  (name ≠ "__proto__" →
   parseHeaders trim toLowerCase raw !! name
   = last (header_values trim toLowerCase name raw))
  ∧ parseHeaders trim toLowerCase raw !! "__proto__" = None
  ∧ (∀ k v, k ≠ EmptyString → indexOf colon k = (-1)%Z →
       header_of_line trim toLowerCase (k ++ ":" ++ v)
       = Some (toLowerCase (trim k), trim v))
  ∧ (∀ line, (indexOf colon line <= 0)%Z →
       header_of_line trim toLowerCase line = None).
Proof.
  split_and!.
  - intros Hn. unfold parseHeaders, header_values.
    rewrite foldl_set_header by done. by destruct (last _).
  - unfold parseHeaders. by rewrite foldl_set_header_proto.
  - intros k v Hk Hc. by apply header_of_line_colon.
  - intros line H. unfold header_of_line. cbv zeta.
    by rewrite (proj2 (Z.ltb_ge 0 (indexOf colon line)) H).
Qed.

Lemma parseHeaders_last_line_wins_witness :
  "usn" ≠ "__proto__"
  ∧ parseHeaders ascii_trim ascii_lower
      ("USN: a" ++ CRLF ++ "junk" ++ CRLF ++ "Usn : b:c" ++ CRLF ++ ": d") !! "usn"
    = Some "b:c".
Proof.
  assert (H : "usn" ≠ "__proto__") by discriminate.
  split; [exact H |].
  rewrite (proj1 (parseHeaders_last_line_wins ascii_trim ascii_lower _ "usn") H).
  vm_compute. reflexivity.
Defined.

Lemma split_buildMSearch st :
  no_crlf st →
  split_crlf (buildMSearch st)
  = ["M-SEARCH * HTTP/1.1"; "HOST: 239.255.255.250:1900";
     "MAN: " ++ dquote ++ "ssdp:discover" ++ dquote; "MX: 5"; "ST: " ++ st;
     EmptyString; EmptyString].
Proof.
  intros Hst. unfold buildMSearch. cbn [join].
  replace (pretty SSDP_PORT) with "1900" by (vm_compute; reflexivity).
  assert (Hlast : no_crlf ("ST: " ++ st)) by exact Hst.
  rewrite !split_crlf_line; try done.
Qed.

(** X16: buildMSearch read back by parseHeaders, for a runtime whose [trim] and
    [toLowerCase] do on seven-bit text what ECMAScript says: the request
    made for a search target without line break carries exactly the four
    headers host, man, mx and st, the address with its port under "host"
    although it contains a colon of its own, and the search target, trimmed,
    under "st". *)
Theorem buildMSearch_parses_back
    (trim toLowerCase : string → string) (st : string) :
  (∀ s, is_ascii s = true → trim s = ascii_trim s) →
  (∀ s, is_ascii s = true → toLowerCase s = ascii_lower s) →
  no_crlf st →
  parseHeaders trim toLowerCase (buildMSearch st)
  = <["st" := trim (" " ++ st)]>
      (<["mx" := "5"]>
         (<["man" := dquote ++ "ssdp:discover" ++ dquote]>
            (<["host" := "239.255.255.250:1900"]> ∅))).
Proof.
  intros Htrim Hlower Hst. unfold parseHeaders. rewrite split_buildMSearch by done.
  assert (Hkey : ∀ k, is_ascii k = true → is_ascii (ascii_trim k) = true →
            toLowerCase (trim k) = ascii_lower (ascii_trim k)).
  { intros k H1 H2. by rewrite Htrim, Hlower. }
  assert (E0 : header_of_line trim toLowerCase "M-SEARCH * HTTP/1.1" = None)
    by (by apply header_of_line_none).
  assert (E1 : header_of_line trim toLowerCase "HOST: 239.255.255.250:1900"
               = Some ("host", "239.255.255.250:1900")).
  { etransitivity;
      [by apply (header_of_line_colon trim toLowerCase "HOST" " 239.255.255.250:1900") |].
    by rewrite Hkey, Htrim. }
  assert (E2 : header_of_line trim toLowerCase ("MAN: " ++ dquote ++ "ssdp:discover" ++ dquote)
               = Some ("man", dquote ++ "ssdp:discover" ++ dquote)).
  { etransitivity;
      [by apply (header_of_line_colon trim toLowerCase "MAN"
                   (" " ++ dquote ++ "ssdp:discover" ++ dquote)) |].
    by rewrite Hkey, Htrim. }
  assert (E3 : header_of_line trim toLowerCase "MX: 5" = Some ("mx", "5")).
  { etransitivity; [by apply (header_of_line_colon trim toLowerCase "MX" " 5") |].
    by rewrite Hkey, Htrim. }
  assert (E4 : header_of_line trim toLowerCase ("ST: " ++ st)
               = Some ("st", trim (" " ++ st))).
  { etransitivity; [by apply (header_of_line_colon trim toLowerCase "ST" (" " ++ st)) |].
    by rewrite Hkey. }
  assert (E5 : header_of_line trim toLowerCase EmptyString = None)
    by (by apply header_of_line_none).
  cbn [foldl]. unfold set_header. by rewrite E0, E1, E2, E3, E4, E5.
Qed.

Lemma buildMSearch_parses_back_witness :
  no_crlf "ssdp:all"
  ∧ parseHeaders ascii_trim ascii_lower (buildMSearch "ssdp:all") !! "st" = Some "ssdp:all".
Proof.
  assert (H : no_crlf "ssdp:all") by reflexivity.
  split; [exact H |].
  rewrite (buildMSearch_parses_back ascii_trim ascii_lower "ssdp:all"
             (fun _ _ => eq_refl) (fun _ _ => eq_refl) H).
  reflexivity.
Defined.

Section Handler.

Context (trim toLowerCase : string → string) (hostname : string → option string).

(** One datagram adds at most one entry, at the end, under an address not
    yet there. *)
Lemma on_message_cases found datagram :
  on_message trim toLowerCase hostname found datagram = found
  ∨ ∃ ip usn, on_message trim toLowerCase hostname found datagram = (found ++ [(ip, mkDiscoveredTV ip usn)])%list
              ∧ ip ≠ EmptyString ∧ ip ∉ found.*1.
Proof.
  destruct datagram as [raw address]. unfold on_message.
  destruct (negb _); [by left |]. cbv zeta.
  match goal with |- context [match ?x with Some _ => _ | None => found end] =>
    destruct x as [ip|]; [ | by left ]
  end.
  destruct (String.eqb ip EmptyString) eqn:E; [by left |].
  unfold found_has. destruct (bool_decide (ip ∈ found.*1)) eqn:Hin; [by left |].
  right. apply String.eqb_neq in E. apply bool_decide_eq_false in Hin. eauto.
Qed.

Lemma found_ok_on_message found datagram :
  found_ok found → found_ok (on_message trim toLowerCase hostname found datagram).
Proof.
  intros [Hnd Hall].
  destruct (on_message_cases found datagram) as [-> | (ip & usn & -> & Hne & Hnew)];
    [done |].
  split.
  - rewrite fmap_app. apply NoDup_app. split_and!; [done | | apply NoDup_singleton].
    intros x Hx ->%list_elem_of_singleton. done.
  - apply Forall_app. split; [done |]. by apply Forall_singleton.
Qed.

End Handler.

(** X17: The "message" handler of discoverTVs, over any sequence of datagrams:
    the map it fills never holds two entries for one address, every entry is
    filed under its own, non-empty address, and an entry once made is never
    replaced or moved, a later datagram for the same address is dropped, so
    the first response of a device decides its uuid; each datagram adds at
    most one entry. *)
Theorem discovery_keeps_first_response
    (trim toLowerCase : string → string) (hostname : string → option string)
    (datagrams : list (string * string)) (datagram : string * string) :
  let found := foldl (on_message trim toLowerCase hostname) [] datagrams in
  found_ok found
  ∧ (length found ≤ length datagrams)%nat
  ∧ found `prefix_of` on_message trim toLowerCase hostname found datagram
  ∧ (length (on_message trim toLowerCase hostname found datagram) ≤ S (length found))%nat.
Proof.
  cbv zeta. split_and!.
  - induction datagrams as [|d ds IH] using rev_ind.
    + split; [apply NoDup_nil_2 | apply Forall_nil_2].
    + rewrite foldl_snoc. by apply found_ok_on_message.
  - induction datagrams as [|d ds IH] using rev_ind; [done |].
    rewrite foldl_snoc, length_app. simpl.
    destruct (on_message_cases trim toLowerCase hostname
                (foldl (on_message trim toLowerCase hostname) [] ds) d)
      as [-> | (ip & usn & -> & _)]; [lia |].
    rewrite length_app. simpl. lia.
  - destruct (on_message_cases trim toLowerCase hostname
                (foldl (on_message trim toLowerCase hostname) [] datagrams) datagram)
      as [-> | (ip & usn & -> & _)]; [done | by apply prefix_app_r].
  - destruct (on_message_cases trim toLowerCase hostname
                (foldl (on_message trim toLowerCase hostname) [] datagrams) datagram)
      as [-> | (ip & usn & -> & _)]; [lia |].
    rewrite length_app. simpl. lia.
Qed.
